(** * A shallow embedding of the drawing interpreter

    The first part follows the program file by file: [lexer.py] (modules
    [Token] and [Lexer]), [parser.py] (modules [Command] and [Parser]),
    [executor.py] (module [DrawingExecutor]) and [execute_commands] of
    [interpreter.py] (module [Interpreter]).  Module [Py] holds the Python
    built-ins that the program calls.  The second part ([Spec], [LexerInv],
    [ParserInv], [Examples], and the further definitions from [Source] to
    [Samples]) holds what the properties are stated with, the third the
    proofs.

    Conventions.
    - A Python [str] is a [string]; a character is an [ascii] read as the
      code point U+0000..U+00FF.
    - Python [int] is [Z]; list indices are [nat].
    - Python [float] is [spec_float], the IEEE 754 binary64 datum of the
      standard library.
    - A [dict] is a [gmap], a [set] a [gset].
    - A raised exception is [Raise msg], with [msg] the text of [str(e)].
    - An object is the record of its fields; a method takes the object and
      returns the new one.
    - A [while] loop is a [Fixpoint] on an iteration budget that tests the
      loop condition first; it yields [None] only if the budget runs out
      while the condition still holds.  The proofs show that this never
      happens with the budgets that [tokenize] and [parse] give. *)

From Stdlib Require Import ZArith String Ascii List Lia SpecFloat QArith Qround.
From stdpp Require Import base option list gmap strings pretty.

Local Open Scope string_scope.

(** ** Results of computations that may raise *)

Inductive exc (A : Type) : Type :=
| Ok (a : A)
| Raise (msg : string).
Arguments Ok {A} a.
Arguments Raise {A} msg.

Definition exc_bind {A B} (m : exc A) (k : A -> exc B) : exc B :=
  match m with
  | Ok a => k a
  | Raise e => Raise e
  end.

Notation "'try!' x <- m ; k" := (exc_bind m (fun x => k))
  (at level 10, x pattern, m at level 100, k at level 200).

(** ** Python built-ins used by the program *)

Module Py.

Definition ord (c : ascii) : N := N_of_ascii c.

Definition between (lo hi : N) (c : ascii) : bool :=
  (lo <=? ord c)%N && (ord c <=? hi)%N.

(** [str.isspace], [str.isdigit], [str.isalpha], [str.isalnum] on one
    character, from the Unicode tables restricted to U+0000..U+00FF. *)
Definition isspace (c : ascii) : bool :=
  between 9 13 c || between 28 32 c || between 133 133 c || between 160 160 c.

Definition isdecimal (c : ascii) : bool := between 48 57 c.

Definition isdigit (c : ascii) : bool :=
  between 48 57 c || between 178 179 c || between 185 185 c.

Definition isnumeric (c : ascii) : bool :=
  isdigit c || between 188 190 c.

Definition isalpha (c : ascii) : bool :=
  between 65 90 c || between 97 122 c || between 170 170 c
  || between 181 181 c || between 186 186 c || between 192 214 c
  || between 216 246 c || between 248 255 c.

Definition isalnum (c : ascii) : bool :=
  isalpha c || isdecimal c || isdigit c || isnumeric c.

Definition lower_char (c : ascii) : ascii :=
  if between 65 90 c || between 192 214 c || between 216 222 c
  then ascii_of_N (ord c + 32)
  else c.

(** [str.lower] *)
Fixpoint lower (s : string) : string :=
  match s with
  | EmptyString => EmptyString
  | String c r => String (lower_char c) (lower r)
  end.

(** [str(n)] for an [int] *)
Definition str_int (n : Z) : string := pretty n.

(** *** [float(s)] for a [str] *)

Definition digit_val (c : ascii) : Z := Z.of_N (ord c) - 48.

Fixpoint digits_val (acc : Z) (ds : list ascii) : Z :=
  match ds with
  | [] => acc
  | d :: r => digits_val (10 * acc + digit_val d) r
  end.

Fixpoint span_digits (s : list ascii) : list ascii * list ascii :=
  match s with
  | c :: r =>
      if isdecimal c then let '(ds, rest) := span_digits r in (c :: ds, rest)
      else ([], s)
  | [] => ([], [])
  end.

(** Underscores may only sit between two digits; they are dropped. *)
Fixpoint drop_underscores (prev : ascii) (s : list ascii) : option (list ascii) :=
  match s with
  | [] => if Ascii.eqb prev "_" then None else Some []
  | c :: r =>
      if Ascii.eqb c "_" then
        if isdecimal prev then drop_underscores c r else None
      else if Ascii.eqb prev "_" && negb (isdecimal c) then None
      else option_map (cons c) (drop_underscores c r)
  end.

(** White space that [float] and [int] skip around a literal: the ASCII
    white space of C, and the non-ASCII Unicode spaces. *)
Definition is_literal_space (c : ascii) : bool :=
  between 9 13 c || between 32 32 c || between 133 133 c || between 160 160 c.

Fixpoint lstrip (s : list ascii) : list ascii :=
  match s with
  | c :: r => if is_literal_space c then lstrip r else s
  | [] => []
  end.

Definition strip (s : list ascii) : list ascii :=
  rev (lstrip (rev (lstrip s))).

Definition split_sign (s : list ascii) : bool * list ascii :=
  match s with
  | c :: r =>
      if Ascii.eqb c "-" then (true, r)
      else if Ascii.eqb c "+" then (false, r)
      else (false, s)
  | [] => (false, [])
  end.

(** The binary64 value nearest to [d * 10^e] (ties to even), [d >= 0]. *)
Definition float_of_decimal (neg : bool) (d e : Z) : spec_float :=
  match d with
  | Z0 => S754_zero neg
  | Zpos p =>
      if (0 <=? e)%Z then
        match (d * 10 ^ e)%Z with
        | Zpos m => binary_round 53 1024 neg m 0
        | _ => S754_nan
        end
      else
        let '(q, e', l) := SFdiv_core_binary 53 1024 d 0 (10 ^ (- e))%Z 0 in
        binary_round_aux 53 1024 neg q e' l
  | Zneg _ => S754_nan
  end.

Definition parse_exponent (s : list ascii) : option Z :=
  match s with
  | [] => Some 0%Z
  | c :: r =>
      if Ascii.eqb c "e" || Ascii.eqb c "E" then
        let '(neg, r') := split_sign r in
        match span_digits r' with
        | ((_ :: _) as ds, []) =>
            Some (if neg then (- digits_val 0 ds)%Z else digits_val 0 ds)
        | _ => None
        end
      else None
  end.

Definition parse_decimal (neg : bool) (s : list ascii) : option spec_float :=
  let '(ip, rest) := span_digits s in
  let '(fp, rest') :=
    match rest with
    | c :: r => if Ascii.eqb c "." then span_digits r else ([], rest)
    | [] => ([], [])
    end in
  match (ip ++ fp)%list with
  | [] => None
  | ds =>
      match parse_exponent rest' with
      | Some ex =>
          Some (float_of_decimal neg (digits_val 0 ds) (ex - Z.of_nat (length fp)))
      | None => None
      end
  end.

(** [float(s)]: [None] stands for [ValueError]. *)
Definition float (s : string) : option spec_float :=
  match drop_underscores "000"%char (list_ascii_of_string s) with
  | None => None
  | Some cs =>
      let '(neg, body) := split_sign (strip cs) in
      let word := lower (string_of_list_ascii body) in
      if String.eqb word "inf" || String.eqb word "infinity" then
        Some (S754_infinity neg)
      else if String.eqb word "nan" then Some S754_nan
      else parse_decimal neg body
  end.

(** *** [repr(s)] for a [str] *)

Definition hex_digit (n : N) : ascii :=
  if (n <? 10)%N then ascii_of_N (48 + n) else ascii_of_N (87 + n).

Definition isprintable (c : ascii) : bool :=
  between 32 126 c || between 161 172 c || between 174 255 c.

Definition repr_char (quote c : ascii) : string :=
  if Ascii.eqb c quote || Ascii.eqb c "\" then String "\" (String c "")
  else if Ascii.eqb c "009" then "\t"
  else if Ascii.eqb c "010" then "\n"
  else if Ascii.eqb c "013" then "\r"
  else if isprintable c then String c ""
  else String "\" (String "x" (String (hex_digit (ord c / 16))
                                 (String (hex_digit (ord c mod 16)) ""))).

Fixpoint repr_body (quote : ascii) (s : string) : string :=
  match s with
  | EmptyString => EmptyString
  | String c r => repr_char quote c ++ repr_body quote r
  end.

Fixpoint contains_char (c : ascii) (s : string) : bool :=
  match s with
  | EmptyString => false
  | String d r => Ascii.eqb c d || contains_char c r
  end.

Definition repr (s : string) : string :=
  let quote : ascii :=
    if contains_char "'" s && negb (contains_char "034" s) then "034"%char
    else "'"%char in
  String quote (repr_body quote s ++ String quote "").

(** *** [int(x)] *)

(** Truncation toward zero of a binary64 value. *)
Definition int_of_float (f : spec_float) : exc Z :=
  match f with
  | S754_zero _ => Ok 0%Z
  | S754_infinity _ => Raise "cannot convert float infinity to integer"
  | S754_nan => Raise "cannot convert float NaN to integer"
  | S754_finite s m e =>
      let mag := if (0 <=? e)%Z then Z.shiftl (Zpos m) e
                 else Z.shiftr (Zpos m) (- e) in
      Ok (if s then (- mag)%Z else mag)
  end.

Definition all_decimal (s : list ascii) : bool := forallb isdecimal s.

(** [int(s)] for a [str], base 10.  The interpreter's optional limit on the
    number of digits converted between [str] and [int] is not part of the
    model. *)
Definition int_of_str (s : string) : exc Z :=
  let invalid : exc Z :=
    Raise ("invalid literal for int() with base 10: "
           ++ substring 0 200 (repr s)) in
  let '(neg, body) := split_sign (strip (list_ascii_of_string s)) in
  match drop_underscores "000"%char body with
  | Some ((_ :: _) as ds) =>
      if all_decimal ds
      then Ok (if neg then (- digits_val 0 ds)%Z else digits_val 0 ds)
      else invalid
  | _ => invalid
  end.

End Py.

(** ** lexer.py *)

Inductive TokenType : Set :=
| KEYWORD | NUMBER | STRING | COLOR | LPAREN | RPAREN | COMMA | EOF | UNKNOWN.

#[global] Instance TokenType_eq_dec : EqDecision TokenType.
Proof. solve_decision. Defined.

(** [token_type.name] *)
Definition TokenType_name (k : TokenType) : string :=
  match k with
  | KEYWORD => "KEYWORD"
  | NUMBER => "NUMBER"
  | STRING => "STRING"
  | COLOR => "COLOR"
  | LPAREN => "LPAREN"
  | RPAREN => "RPAREN"
  | COMMA => "COMMA"
  | EOF => "EOF"
  | UNKNOWN => "UNKNOWN"
  end.

Module Token.

Record t : Type := mk { type : TokenType; value : string; line : Z; col : Z }.

End Token.

Module Lexer.

Definition KEYWORDS : gset string :=
  {[ "draw"; "line"; "circle"; "rectangle"; "set"; "color"; "clear";
     "move"; "to"; "from"; "pen"; "up"; "down"; "fill" ]}.

Definition COLORS : gset string :=
  {[ "red"; "green"; "blue"; "yellow"; "orange"; "purple"; "pink";
     "black"; "white"; "gray"; "grey"; "brown"; "cyan"; "magenta" ]}.

(** The fields of a [Lexer] object. *)
Record t : Type := mk {
  text : list ascii;
  pos : nat;
  line : Z;
  col : Z;
  current_char : option ascii
}.

(** [Lexer.__init__] *)
Definition init (source : string) : t :=
  let text := list_ascii_of_string source in
  {| text := text; pos := 0; line := 1; col := 0;
     current_char :=
       if bool_decide (0 < length text)%nat then text !! 0%nat else None |}.

Definition error (self : t) (message : string) : string :=
  "Lexical error at line " ++ Py.str_int (line self) ++ ", column "
  ++ Py.str_int (col self) ++ ": " ++ message.

Definition advance (self : t) : t :=
  let '(line', col') :=
    if bool_decide (current_char self = Some "010"%char)
    then ((line self + 1)%Z, 0%Z)
    else (line self, (col self + 1)%Z) in
  let pos' := S (pos self) in
  {| text := text self; pos := pos'; line := line'; col := col';
     current_char :=
       if bool_decide (length (text self) <= pos')%nat then None
       else text self !! pos' |}.

(** The iteration budget given to every loop over the characters. *)
Definition budget (self : t) : nat := length (text self).

(** [self.current_char == c] *)
Definition is_char (c : ascii) (oc : option ascii) : bool :=
  bool_decide (oc = Some c).

Fixpoint skip_whitespace_loop (fuel : nat) (self : t) : option t :=
  match current_char self with
  | Some c =>
      if Py.isspace c then
        match fuel with
        | O => None
        | S fuel' => skip_whitespace_loop fuel' (advance self)
        end
      else Some self
  | None => Some self
  end.

Definition skip_whitespace (self : t) : option t :=
  skip_whitespace_loop (budget self) self.

Fixpoint skip_comment_loop (fuel : nat) (self : t) : option t :=
  match current_char self with
  | Some c =>
      if negb (Ascii.eqb c "010") then
        match fuel with
        | O => None
        | S fuel' => skip_comment_loop fuel' (advance self)
        end
      else Some self
  | None => Some self
  end.

Definition skip_comment (self : t) : option t :=
  self' ← skip_comment_loop (budget self) self;
  Some (if is_char "010" (current_char self') then advance self' else self').

(** [read_number]: the loop state is [result], [dot_count] and the lexer. *)
Fixpoint read_number_loop (fuel : nat) (result : string) (dot_count : nat)
    (self : t) : option (string * t) :=
  match current_char self with
  | Some c =>
      if Py.isdigit c || Ascii.eqb c "." then
        let dot_count' := if Ascii.eqb c "." then S dot_count else dot_count in
        if Ascii.eqb c "." && bool_decide (1 < dot_count')%nat then
          Some (result, self)
        else
          match fuel with
          | O => None
          | S fuel' =>
              read_number_loop fuel' (result ++ String c "") dot_count'
                (advance self)
          end
      else Some (result, self)
  | None => Some (result, self)
  end.

Definition read_number (self : t) : option (string * t) :=
  read_number_loop (budget self) "" 0 self.

Fixpoint read_string_loop (fuel : nat) (result : string) (self : t)
    : option (exc (string * t)) :=
  match current_char self with
  | Some c =>
      if negb (Ascii.eqb c "034") then
        match fuel with
        | O => None
        | S fuel' =>
            if Ascii.eqb c "\" then
              let self1 := advance self in
              match current_char self1 with
              | None => Some (Raise (error self1 "Unterminated string"))
              | Some e =>
                  let result' :=
                    if Ascii.eqb e "n" then result ++ String "010" ""
                    else if Ascii.eqb e "t" then result ++ String "009" ""
                    else result ++ String e "" in
                  read_string_loop fuel' result' (advance self1)
              end
            else read_string_loop fuel' (result ++ String c "") (advance self)
        end
      else Some (Ok (result, self))
  | None => Some (Ok (result, self))
  end.

Definition read_string (self : t) : option (exc (string * t)) :=
  let self0 := advance self in
  r ← read_string_loop (budget self) "" self0;
  Some (try! (result, self') <- r;
        match current_char self' with
        | None => Raise (error self' "Unterminated string")
        | Some _ => Ok (result, advance self')
        end).

Fixpoint read_identifier_loop (fuel : nat) (result : string) (self : t)
    : option (string * t) :=
  match current_char self with
  | Some c =>
      if Py.isalnum c || Ascii.eqb c "_" then
        match fuel with
        | O => None
        | S fuel' =>
            read_identifier_loop fuel' (result ++ String c "") (advance self)
        end
      else Some (result, self)
  | None => Some (result, self)
  end.

Definition read_identifier (self : t) : option (string * t) :=
  read_identifier_loop (budget self) "" self.

(** The test that opens a number: a digit, or a [.] followed by a digit. *)
Definition starts_number (self : t) (c : ascii) : bool :=
  Py.isdigit c
  || (Ascii.eqb c "."
      && bool_decide (pos self + 1 < length (text self))%nat
      && match text self !! (pos self + 1)%nat with
         | Some d => Py.isdigit d
         | None => false
         end).

(** The branches for [(], [)], [,] and any other character: keep the
    column, step over the character, return the token. *)
Definition single (kind : TokenType) (c : ascii) (self : t) : Token.t * t :=
  let col := col self in
  let self' := advance self in
  (Token.mk kind (String c "") (line self') col, self').

Fixpoint get_next_token_loop (fuel : nat) (self : t)
    : option (exc (Token.t * t)) :=
  match current_char self with
  | Some c =>
      if Py.isspace c then
        match fuel with
        | O => None
        | S fuel' => self' ← skip_whitespace self; get_next_token_loop fuel' self'
        end
      else if Ascii.eqb c "#" then
        match fuel with
        | O => None
        | S fuel' => self' ← skip_comment self; get_next_token_loop fuel' self'
        end
      else if starts_number self c then
        let col := col self in
        '(num_str, self') ← read_number self;
        Some (Ok (Token.mk NUMBER num_str (line self') col, self'))
      else if Ascii.eqb c "034" then
        let col := col self in
        r ← read_string self;
        Some (try! (str_val, self') <- r;
              Ok (Token.mk STRING str_val (line self') col, self'))
      else if Py.isalpha c || Ascii.eqb c "_" then
        let col := col self in
        '(identifier, self') ← read_identifier self;
        let lowered := Py.lower identifier in
        if bool_decide (lowered ∈ KEYWORDS) then
          Some (Ok (Token.mk KEYWORD lowered (line self') col, self'))
        else if bool_decide (lowered ∈ COLORS) then
          Some (Ok (Token.mk COLOR lowered (line self') col, self'))
        else
          Some (Ok (Token.mk KEYWORD lowered (line self') col, self'))
      else if Ascii.eqb c "(" then Some (Ok (single LPAREN c self))
      else if Ascii.eqb c ")" then Some (Ok (single RPAREN c self))
      else if Ascii.eqb c "," then Some (Ok (single COMMA c self))
      else Some (Ok (single UNKNOWN c self))
  | None => Some (Ok (Token.mk EOF "" (line self) (col self), self))
  end.

Definition get_next_token (self : t) : option (exc (Token.t * t)) :=
  get_next_token_loop (budget self) self.

Fixpoint tokenize_loop (fuel : nat) (tokens : list Token.t) (self : t)
    : option (exc (list Token.t)) :=
  match fuel with
  | O => None
  | S fuel' =>
      r ← get_next_token self;
      match r with
      | Raise e => Some (Raise e)
      | Ok (token, self') =>
          let tokens' := (tokens ++ [token])%list in
          if bool_decide (Token.type token = EOF) then Some (Ok tokens')
          else tokenize_loop fuel' tokens' self'
      end
  end.

(** [Lexer(source).tokenize()] *)
Definition tokenize (source : string) : option (exc (list Token.t)) :=
  let self := init source in
  tokenize_loop (S (budget self)) [] self.

End Lexer.

(** ** parser.py *)

Inductive CommandType : Set :=
| DRAW_LINE | DRAW_CIRCLE | DRAW_RECTANGLE | SET_COLOR | CLEAR | MOVE
| PEN_UP | PEN_DOWN | FILL.

#[global] Instance CommandType_eq_dec : EqDecision CommandType.
Proof. solve_decision. Defined.

Definition CommandType_name (k : CommandType) : string :=
  match k with
  | DRAW_LINE => "DRAW_LINE"
  | DRAW_CIRCLE => "DRAW_CIRCLE"
  | DRAW_RECTANGLE => "DRAW_RECTANGLE"
  | SET_COLOR => "SET_COLOR"
  | CLEAR => "CLEAR"
  | MOVE => "MOVE"
  | PEN_UP => "PEN_UP"
  | PEN_DOWN => "PEN_DOWN"
  | FILL => "FILL"
  end.

(** [str(command_type)], as an f-string prints a member of the enumeration *)
Definition CommandType_str (k : CommandType) : string :=
  "CommandType." ++ CommandType_name k.

(** The values kept in a command's [params]: the parser stores [float]
    coordinates and [str] colour names. *)
Inductive pyval : Type :=
| PyFloat (f : spec_float)
| PyStr (s : string).

Module Command.

Record t : Type := mk {
  command_type : CommandType;
  params : gmap string pyval;
  line : Z;
  col : Z
}.

(** [Command(command_type, params)]: [line] and [col] start at 0. *)
Definition new (command_type : CommandType) (params : gmap string pyval) : t :=
  {| command_type := command_type; params := params; line := 0; col := 0 |}.

Definition at_position (cmd : t) (line col : Z) : t :=
  {| command_type := command_type cmd; params := params cmd;
     line := line; col := col |}.

End Command.

Module Parser.

(** The fields of a [Parser] object. *)
Record t : Type := mk {
  tokens : list Token.t;
  pos : nat;
  current_token : option Token.t
}.

(** [Parser.__init__] *)
Definition init (tokens : list Token.t) : t :=
  {| tokens := tokens; pos := 0;
     current_token :=
       if bool_decide (0 < length tokens)%nat then tokens !! 0%nat else None |}.

Definition error (self : t) (message : string) : string :=
  match current_token self with
  | Some tok =>
      "Parse error at line " ++ Py.str_int (Token.line tok) ++ ", column "
      ++ Py.str_int (Token.col tok) ++ ": " ++ message
  | None => "Parse error: " ++ message
  end.

Definition advance (self : t) : t :=
  let pos' := S (pos self) in
  {| tokens := tokens self; pos := pos';
     current_token :=
       if bool_decide (length (tokens self) <= pos')%nat then None
       else tokens self !! pos' |}.

(** A method of the parser: it returns or raises, and leaves the parser in
    a new state either way. *)
Definition M (A : Type) : Type := t -> exc A * t.

Definition ret {A} (a : A) : M A := fun self => (Ok a, self).

Definition bind {A B} (m : M A) (k : A -> M B) : M B :=
  fun self =>
    match m self with
    | (Ok a, self') => k a self'
    | (Raise e, self') => (Raise e, self')
    end.

(** [raise self.error(message)] *)
Definition raise_error {A} (message : string) : M A :=
  fun self => (Raise (error self message), self).

(** [try: body except Exception: handler] *)
Definition try_except {A} (body : M A) (handler : M A) : M A :=
  fun self =>
    match body self with
    | (Ok a, self') => (Ok a, self')
    | (Raise _, self') => handler self'
    end.

Notation "'do' x <- m ; k" := (bind m (fun x => k))
  (at level 10, x name, m at level 100, k at level 200).

Definition expect (token_type : TokenType) (value : option string) : M Token.t :=
  fun self =>
    match current_token self with
    | None =>
        raise_error ("Unexpected end of input, expected "
                     ++ TokenType_name token_type) self
    | Some tok =>
        if bool_decide (Token.type tok ≠ token_type) then
          raise_error ("Expected " ++ TokenType_name token_type ++ ", got "
                       ++ TokenType_name (Token.type tok)) self
        else
          match value with
          | Some v =>
              if bool_decide (Py.lower (Token.value tok) ≠ Py.lower v) then
                raise_error ("Expected '" ++ v ++ "', got '"
                             ++ Token.value tok ++ "'") self
              else (Ok tok, advance self)
          | None => (Ok tok, advance self)
          end
    end.

Definition parse_number : M spec_float :=
  do token <- expect NUMBER None;
  match Py.float (Token.value token) with
  | Some f => ret f
  | None => raise_error ("Invalid number: " ++ Token.value token)
  end.

Definition parse_draw_line (line col : Z) : M Command.t :=
  do params <-
    try_except
      (do x1 <- parse_number;
       do y1 <- parse_number;
       do x2 <- parse_number;
       do y2 <- parse_number;
       ret (<["y2" := PyFloat y2]> (<["x2" := PyFloat x2]>
             (<["y1" := PyFloat y1]> (<["x1" := PyFloat x1]> ∅)))))
      (raise_error "draw line requires 4 numbers: x1 y1 x2 y2");
  ret (Command.at_position (Command.new DRAW_LINE params) line col).

Definition parse_draw_circle (line col : Z) : M Command.t :=
  do params <-
    try_except
      (do x <- parse_number;
       do y <- parse_number;
       do radius <- parse_number;
       ret (<["radius" := PyFloat radius]> (<["y" := PyFloat y]>
             (<["x" := PyFloat x]> ∅))))
      (raise_error "draw circle requires 3 numbers: x y radius");
  ret (Command.at_position (Command.new DRAW_CIRCLE params) line col).

Definition parse_draw_rectangle (line col : Z) : M Command.t :=
  do params <-
    try_except
      (do x <- parse_number;
       do y <- parse_number;
       do width <- parse_number;
       do height <- parse_number;
       ret (<["height" := PyFloat height]> (<["width" := PyFloat width]>
             (<["y" := PyFloat y]> (<["x" := PyFloat x]> ∅)))))
      (raise_error "draw rectangle requires 4 numbers: x y width height");
  ret (Command.at_position (Command.new DRAW_RECTANGLE params) line col).

Definition parse_draw_command (line col : Z) : M Command.t :=
  fun self =>
    match current_token self with
    | Some tok =>
        if bool_decide (Token.type tok ≠ KEYWORD) then
          raise_error "Expected shape type after 'draw'" self
        else
          let shape_type := Token.value tok in
          let self := advance self in
          if String.eqb shape_type "line" then parse_draw_line line col self
          else if String.eqb shape_type "circle" then
            parse_draw_circle line col self
          else if String.eqb shape_type "rectangle" then
            parse_draw_rectangle line col self
          else raise_error ("Unknown shape type: " ++ shape_type) self
    | None => raise_error "Expected shape type after 'draw'" self
    end.

Definition parse_set_command (line col : Z) : M Command.t :=
  fun self =>
    match current_token self with
    | Some tok =>
        if bool_decide (Token.value tok ≠ "color") then
          raise_error "Expected 'color' after 'set'" self
        else
          let self := advance self in
          match current_token self with
          | Some tok' =>
              if bool_decide (Token.type tok' = COLOR)
                 || bool_decide (Token.type tok' = STRING) then
                let color := Token.value tok' in
                let self := advance self in
                (Ok (Command.at_position
                       (Command.new SET_COLOR {[ "color" := PyStr color ]})
                       line col), self)
              else raise_error "Expected color name after 'set color'" self
          | None => raise_error "Expected color name after 'set color'" self
          end
    | None => raise_error "Expected 'color' after 'set'" self
    end.

Definition parse_clear_command (line col : Z) : M Command.t :=
  ret (Command.at_position (Command.new CLEAR ∅) line col).

Definition parse_move_command (line col : Z) : M Command.t :=
  do params <-
    try_except
      (do x <- parse_number;
       do y <- parse_number;
       ret (<["y" := PyFloat y]> (<["x" := PyFloat x]> ∅)))
      (raise_error "move requires 2 numbers: x y");
  ret (Command.at_position (Command.new MOVE params) line col).

Definition parse_pen_command (line col : Z) : M Command.t :=
  fun self =>
    match current_token self with
    | None => raise_error "Expected 'up' or 'down' after 'pen'" self
    | Some tok =>
        let action := Token.value tok in
        let self := advance self in
        if String.eqb action "up" then
          (Ok (Command.at_position (Command.new PEN_UP ∅) line col), self)
        else if String.eqb action "down" then
          (Ok (Command.at_position (Command.new PEN_DOWN ∅) line col), self)
        else
          raise_error ("Expected 'up' or 'down', got '" ++ action ++ "'") self
    end.

Definition parse_command : M Command.t :=
  fun self =>
    match current_token self with
    | None => raise_error "Unexpected end of input" self
    | Some tok =>
        if bool_decide (Token.type tok = EOF) then
          raise_error "Unexpected end of input" self
        else
          let line := Token.line tok in
          let col := Token.col tok in
          if bool_decide (Token.type tok ≠ KEYWORD) then
            raise_error ("Expected command keyword, got "
                         ++ TokenType_name (Token.type tok)) self
          else
            let keyword := Token.value tok in
            let self := advance self in
            if String.eqb keyword "draw" then parse_draw_command line col self
            else if String.eqb keyword "set" then parse_set_command line col self
            else if String.eqb keyword "clear" then
              parse_clear_command line col self
            else if String.eqb keyword "move" then
              parse_move_command line col self
            else if String.eqb keyword "pen" then parse_pen_command line col self
            else raise_error ("Unknown command: " ++ keyword) self
    end.

(** The loop condition of [parse]. *)
Definition more_input (self : t) : bool :=
  match current_token self with
  | Some tok => bool_decide (Token.type tok ≠ EOF)
  | None => false
  end.

Fixpoint parse_loop (fuel : nat) (commands : list Command.t) (self : t)
    : option (exc (list Command.t)) :=
  if more_input self then
    match fuel with
    | O => None
    | S fuel' =>
        match parse_command self with
        | (Ok command, self') =>
            parse_loop fuel' (commands ++ [command])%list self'
        | (Raise e, _) => Some (Raise e)
        end
    end
  else Some (Ok commands).

(** [Parser(tokens).parse()] *)
Definition parse (tokens : list Token.t) : option (exc (list Command.t)) :=
  parse_loop (length tokens) [] (init tokens).

End Parser.

(** ** executor.py *)

(** The canvas is known by the calls made on it, oldest first. *)
Inductive canvas_call : Type :=
| create_line (x1 y1 x2 y2 : Z) (fill : string) (width : Z)
| create_oval (x1 y1 x2 y2 : Z) (outline fill : string) (width : Z)
| create_rectangle (x1 y1 x2 y2 : Z) (outline fill : string) (width : Z)
| delete_all.

Module DrawingExecutor.

Definition COLOR_MAP : gmap string string :=
  list_to_map
    [ ("red", "#FF0000"); ("green", "#00FF00"); ("blue", "#0000FF");
      ("yellow", "#FFFF00"); ("orange", "#FFA500"); ("purple", "#800080");
      ("pink", "#FFC0CB"); ("black", "#000000"); ("white", "#FFFFFF");
      ("gray", "#808080"); ("grey", "#808080"); ("brown", "#A52A2A");
      ("cyan", "#00FFFF"); ("magenta", "#FF00FF") ].

(** The fields of a [DrawingExecutor] object. *)
Record t : Type := mk {
  canvas : list canvas_call;
  width : Z;
  height : Z;
  current_color : string;
  pen_x : Z;
  pen_y : Z;
  pen_down : bool;
  fill_mode : bool
}.

(** [DrawingExecutor.__init__] *)
Definition init (canvas : list canvas_call) (width height : Z) : t :=
  {| canvas := canvas; width := width; height := height;
     current_color := "#000000";
     pen_x := width / 2; pen_y := height / 2;
     pen_down := true; fill_mode := false |}.

Definition set_canvas (self : t) (canvas : list canvas_call) : t :=
  {| canvas := canvas; width := width self; height := height self;
     current_color := current_color self;
     pen_x := pen_x self; pen_y := pen_y self;
     pen_down := pen_down self; fill_mode := fill_mode self |}.

Definition set_pen (self : t) (x y : Z) : t :=
  {| canvas := canvas self; width := width self; height := height self;
     current_color := current_color self;
     pen_x := x; pen_y := y;
     pen_down := pen_down self; fill_mode := fill_mode self |}.

Definition set_current_color (self : t) (color : string) : t :=
  {| canvas := canvas self; width := width self; height := height self;
     current_color := color;
     pen_x := pen_x self; pen_y := pen_y self;
     pen_down := pen_down self; fill_mode := fill_mode self |}.

Definition set_pen_down (self : t) (down : bool) : t :=
  {| canvas := canvas self; width := width self; height := height self;
     current_color := current_color self;
     pen_x := pen_x self; pen_y := pen_y self;
     pen_down := down; fill_mode := fill_mode self |}.

(** A method call on the canvas appends to its record. *)
Definition call (self : t) (c : canvas_call) : t :=
  set_canvas self (canvas self ++ [c])%list.

(** [int(v)] *)
Definition int (v : pyval) : exc Z :=
  match v with
  | PyFloat f => Py.int_of_float f
  | PyStr s => Py.int_of_str s
  end.

(** [int(params.get(key, default))] with an [int] default *)
Definition int_param (params : gmap string pyval) (key : string) (default : Z)
    : exc Z :=
  match params !! key with
  | Some v => int v
  | None => Ok default
  end.

Definition get_color (color_name : string) : string :=
  let color_lower := Py.lower color_name in
  default "#000000" (COLOR_MAP !! color_lower).

Definition execute_draw_line (self : t) (params : gmap string pyval)
    : exc (t * string) :=
  try! x1 <- int_param params "x1" 0;
  try! y1 <- int_param params "y1" 0;
  try! x2 <- int_param params "x2" 0;
  try! y2 <- int_param params "y2" 0;
  let self := call self (create_line x1 y1 x2 y2 (current_color self) 2) in
  let self := if pen_down self then set_pen self x2 y2 else self in
  Ok (self, "Drew line from (" ++ Py.str_int x1 ++ ", " ++ Py.str_int y1
            ++ ") to (" ++ Py.str_int x2 ++ ", " ++ Py.str_int y2 ++ ")").

Definition execute_draw_circle (self : t) (params : gmap string pyval)
    : exc (t * string) :=
  try! x <- int_param params "x" 0;
  try! y <- int_param params "y" 0;
  try! radius <- int_param params "radius" 10;
  let x1 := (x - radius)%Z in
  let y1 := (y - radius)%Z in
  let x2 := (x + radius)%Z in
  let y2 := (y + radius)%Z in
  let self :=
    if fill_mode self then
      call self (create_oval x1 y1 x2 y2 (current_color self)
                   (current_color self) 2)
    else call self (create_oval x1 y1 x2 y2 (current_color self) "" 2) in
  let self := if pen_down self then set_pen self x y else self in
  Ok (self, "Drew circle at (" ++ Py.str_int x ++ ", " ++ Py.str_int y
            ++ ") with radius " ++ Py.str_int radius).

Definition execute_draw_rectangle (self : t) (params : gmap string pyval)
    : exc (t * string) :=
  try! x <- int_param params "x" 0;
  try! y <- int_param params "y" 0;
  try! width <- int_param params "width" 10;
  try! height <- int_param params "height" 10;
  let x1 := x in
  let y1 := y in
  let x2 := (x + width)%Z in
  let y2 := (y + height)%Z in
  let self :=
    if fill_mode self then
      call self (create_rectangle x1 y1 x2 y2 (current_color self)
                   (current_color self) 2)
    else call self (create_rectangle x1 y1 x2 y2 (current_color self) "" 2) in
  let self := if pen_down self then set_pen self x2 y2 else self in
  Ok (self, "Drew rectangle at (" ++ Py.str_int x ++ ", " ++ Py.str_int y
            ++ ") with size " ++ Py.str_int width ++ "x" ++ Py.str_int height).

(** [get_color] calls [color_name.lower()], which only a [str] has. *)
Definition execute_set_color (self : t) (params : gmap string pyval)
    : exc (t * string) :=
  match default (PyStr "black") (params !! "color") with
  | PyStr color_name =>
      let self := set_current_color self (get_color color_name) in
      Ok (self, "Color set to " ++ color_name)
  | PyFloat _ => Raise "'float' object has no attribute 'lower'"
  end.

Definition execute_clear (self : t) : exc (t * string) :=
  let self := call self delete_all in
  Ok (self, "Canvas cleared").

Definition execute_move (self : t) (params : gmap string pyval)
    : exc (t * string) :=
  try! x <- int_param params "x" 0;
  try! y <- int_param params "y" 0;
  let self :=
    if pen_down self then
      call self (create_line (pen_x self) (pen_y self) x y (current_color self) 2)
    else self in
  let self := set_pen self x y in
  Ok (self, "Pen moved to (" ++ Py.str_int x ++ ", " ++ Py.str_int y ++ ")").

Definition execute_pen_up (self : t) : exc (t * string) :=
  Ok (set_pen_down self false, "Pen lifted").

Definition execute_pen_down (self : t) : exc (t * string) :=
  Ok (set_pen_down self true, "Pen lowered").

(** The body of the [try] statement of [execute]. *)
Definition execute_body (self : t) (command : Command.t) : exc (t * string) :=
  let params := Command.params command in
  match Command.command_type command with
  | DRAW_LINE => execute_draw_line self params
  | DRAW_CIRCLE => execute_draw_circle self params
  | DRAW_RECTANGLE => execute_draw_rectangle self params
  | SET_COLOR => execute_set_color self params
  | CLEAR => execute_clear self
  | MOVE => execute_move self params
  | PEN_UP => execute_pen_up self
  | PEN_DOWN => execute_pen_down self
  | FILL =>
      Ok (self, "Error: Unknown command type: "
                ++ CommandType_str (Command.command_type command))
  end.

(** [execute]: the executor after the call and the returned message.  No
    method assigns a field before the last point where it can raise, so the
    handler finds the executor as it was. *)
Definition execute (self : t) (command : Command.t) : t * string :=
  match execute_body self command with
  | Ok r => r
  | Raise e => (self, "Error executing command: " ++ e)
  end.

End DrawingExecutor.

(** ** interpreter.py: [execute_commands]

    Of the application object only the executor and the text of the output
    area are kept; the widgets, the message boxes and the refresh of the
    canvas have no part in what is computed. *)

Module Interpreter.

Record t : Type := mk {
  executor : DrawingExecutor.t;
  output : list string
}.

(** [append_output]: one more line in the output area *)
Definition append_output (self : t) (message : string) : t :=
  {| executor := executor self; output := (output self ++ [message])%list |}.

Definition clear_output (self : t) : t :=
  {| executor := executor self; output := [] |}.

Definition set_executor (self : t) (executor : DrawingExecutor.t) : t :=
  {| executor := executor; output := output self |}.

(** [[t for t in tokens if t.type != TokenType.EOF]] *)
Definition strip_eof (tokens : list Token.t) : list Token.t :=
  filter (fun t => Token.type t ≠ EOF) tokens.

Fixpoint lstrip (s : list ascii) : list ascii :=
  match s with
  | c :: r => if Py.isspace c then lstrip r else s
  | [] => []
  end.

(** [str.strip()] *)
Definition strip (s : string) : string :=
  string_of_list_ascii (rev (lstrip (rev (lstrip (list_ascii_of_string s))))).

(** [for i, command in enumerate(commands, i)]: every result is appended
    to the output as [f"[{i}] {result}"].  [execute] returns for every
    command, so the [except] clause of the loop has nothing to catch. *)
Fixpoint execute_all (self : t) (i : Z) (commands : list Command.t) : t :=
  match commands with
  | [] => self
  | command :: rest =>
      let '(executor', result) :=
        DrawingExecutor.execute (executor self) command in
      let self := set_executor self executor' in
      let self := append_output self ("[" ++ Py.str_int i ++ "] " ++ result) in
      execute_all self (i + 1) rest
  end.

Definition rule (c : ascii) : string := string_of_list_ascii (replicate 50 c).

Definition execute_commands (self : t) (input_text : string) : option t :=
  let input_text := strip input_text in
  if String.eqb input_text "" then
    Some (append_output self "No commands to execute")
  else
    let self := clear_output self in
    let self := append_output self (rule "=") in
    let self := append_output self "Executing commands..." in
    let self := append_output self (rule "=") in
    r ← Lexer.tokenize input_text;
    match r with
    | Raise e => Some (append_output self ("Error: " ++ e))
    | Ok tokens =>
        let tokens := strip_eof tokens in
        match tokens with
        | [] => Some (append_output self "No valid tokens found")
        | _ =>
            r' ← Parser.parse tokens;
            match r' with
            | Raise e => Some (append_output self ("Error: " ++ e))
            | Ok commands =>
                let self :=
                  append_output self
                    ("Parsed " ++ Py.str_int (Z.of_nat (length commands))
                     ++ " command(s)") in
                let self := append_output self (rule "-") in
                let self := execute_all self 1 commands in
                let self := append_output self (rule "=") in
                Some (append_output self "Execution complete!")
            end
        end
    end.

End Interpreter.

(** * Specification

    ** Definitions used to state the properties *)

Module Spec.

(** The device coordinate of a numeric field: what [int] makes of it. *)
Definition coordinate (command : Command.t) (key : string) (default : Z)
    : option Z :=
  match DrawingExecutor.int_param (Command.params command) key default with
  | Ok z => Some z
  | Raise _ => None
  end.

(** The terminal point of a command as the executor computes it: the end
    of a line, the centre of a circle, the bottom-right corner of a
    rectangle, the target of a move, each field taken through [int] and a
    field that is absent counting as its default. *)
Definition terminal_point (command : Command.t) : option (Z * Z) :=
  match Command.command_type command with
  | DRAW_LINE =>
      x2 ← coordinate command "x2" 0; y2 ← coordinate command "y2" 0;
      Some (x2, y2)
  | DRAW_CIRCLE =>
      x ← coordinate command "x" 0; y ← coordinate command "y" 0;
      Some (x, y)
  | DRAW_RECTANGLE =>
      x ← coordinate command "x" 0; y ← coordinate command "y" 0;
      w ← coordinate command "width" 10; h ← coordinate command "height" 10;
      Some ((x + w)%Z, (y + h)%Z)
  | MOVE =>
      x ← coordinate command "x" 0; y ← coordinate command "y" 0;
      Some (x, y)
  | _ => None
  end.

Definition pen (self : DrawingExecutor.t) : Z * Z :=
  (DrawingExecutor.pen_x self, DrawingExecutor.pen_y self).

(** The command executes without a fault. *)
Definition faultless (self : DrawingExecutor.t) (command : Command.t) : Prop :=
  exists r, DrawingExecutor.execute_body self command = Ok r.

(** The number that a finite [float] stands for. *)
Definition float_value (f : spec_float) : option Q :=
  match f with
  | S754_zero _ => Some 0%Q
  | S754_finite s m e =>
      let n := if s then Zneg m else Zpos m in
      Some (if (0 <=? e)%Z then inject_Z (n * 2 ^ e)
            else n # Z.to_pos (2 ^ (- e)))
  | S754_infinity _ | S754_nan => None
  end.

Definition is_integer (q : Q) : Prop := (inject_Z (Qfloor q) == q)%Q.

(** Rounding toward zero. *)
Definition truncate (q : Q) : Z :=
  if Qle_bool 0 q then Qfloor q else Qceiling q.

(** The numeric field [key] of [params] holds a float of value [q]. *)
Definition field (params : gmap string pyval) (key : string) (q : Q) : Prop :=
  exists f : spec_float,
    params !! key = Some (PyFloat f) /\ float_value f = Some q.

(** A shape drawn without a fill colour. *)
Definition outline_only (c : canvas_call) : Prop :=
  match c with
  | create_oval _ _ _ _ _ fill _ | create_rectangle _ _ _ _ _ fill _ =>
      fill = ""
  | _ => True
  end.

(** Whether the characters after an opening quote reach a closing quote,
    a backslash taking the next character with it. *)
Fixpoint closes (s : list ascii) : bool :=
  match s with
  | [] => false
  | c :: r =>
      if Ascii.eqb c "034" then true
      else if Ascii.eqb c "\" then
        match r with
        | [] => false
        | _ :: r' => closes r'
        end
      else closes r
  end.

(** The text has a quote with no closing quote behind it.  This is what
    the loops of the lexer keep track of; it does not say that the quote
    opens a string, which [Literal.unterminated] does. *)
Definition unterminated (text : list ascii) : Prop :=
  exists p : nat,
    text !! p = Some "034"%char /\ closes (drop (S p) text) = false.

(** The number of characters before the end of the line. *)
Fixpoint line_rest (s : list ascii) : nat :=
  match s with
  | [] => 0
  | c :: r => if Ascii.eqb c "010" then 0 else S (line_rest r)
  end.

(** The error of the lexer, with a line and a column. *)
Definition lexical_error (e : string) : Prop :=
  exists line col : Z,
    e = "Lexical error at line " ++ Py.str_int line ++ ", column "
        ++ Py.str_int col ++ ": Unterminated string".


(** The command types that the parser builds. *)
Definition produced (c : Command.t) : Prop :=
  Command.command_type c ∈
    [DRAW_LINE; DRAW_CIRCLE; DRAW_RECTANGLE; SET_COLOR; CLEAR; MOVE;
     PEN_UP; PEN_DOWN].

(** The message of the last branch of [execute]. *)
Definition unknown_command_message (c : Command.t) : string :=
  "Error: Unknown command type: "
  ++ CommandType_str (Command.command_type c).

End Spec.

(** ** Invariants of the lexer *)

Module LexerInv.
Import Lexer.

(** The cached character agrees with the position. *)
Definition wf (self : t) : Prop := current_char self = text self !! pos self.

(** [b] is a later state of the lexer [a] over the same text. *)
Definition follows (a b : t) : Prop :=
  wf b /\ text b = text a /\ (pos a <= pos b)%nat.

(** What is left to read bounds the budget a loop needs. *)
Definition left (self : t) : nat := length (text self) - pos self.

(** The outcome of one call of [get_next_token]. *)
Definition token_outcome (self : t) (r : exc (Token.t * t)) : Prop :=
  match r with
  | Ok (token, self') =>
      follows self self'
      /\ (Token.type token = EOF
          \/ (pos self < pos self' /\ pos self < length (text self))%nat)
      /\ (Token.type token = EOF -> current_char self' = None)
  | Raise e =>
      Spec.lexical_error e
      /\ exists p : nat,
           (pos self <= p)%nat /\ text self !! p = Some "034"%char
           /\ Spec.closes (drop (S p) (text self)) = false
  end.

(** The result of [tokenize]: the tokens end with the only [EOF] token, or
    the text has a quote that no quote closes. *)
Definition tokens_outcome (text : list ascii) (tokens : list Token.t)
    (r : exc (list Token.t)) : Prop :=
  match r with
  | Ok tokens' =>
      exists front eof,
        tokens' = (tokens ++ front ++ [eof])%list
        /\ Token.type eof = EOF
        /\ Forall (fun token => Token.type token <> EOF) front
  | Raise e => Spec.lexical_error e /\ Spec.unterminated text
  end.

End LexerInv.

(** ** Invariants of the parser *)

Module ParserInv.
Import Parser.

(** The cached look-ahead token agrees with the position. *)
Definition wf (self : t) : Prop := current_token self = tokens self !! pos self.

(** A parsing method keeps the token list, only moves forward, returns a
    value that satisfies [P], and raises nothing but the errors that
    [error] builds in the state where it stops. *)
Definition sound {A} (m : M A) (P : A -> Prop) : Prop :=
  forall self r self',
    wf self -> m self = (r, self') ->
    wf self' /\ tokens self' = tokens self /\ (pos self <= pos self')%nat
    /\ match r with
       | Ok a => P a
       | Raise e => exists message, e = error self' message
       end.

Definition has_type (k : CommandType) (c : Command.t) : Prop :=
  Command.command_type c = k.

(** The parser states that the loop of [parse] goes through, with the
    commands collected so far. *)
Inductive parsed (tokens : list Token.t) : list Command.t -> t -> Prop :=
| parsed_init : parsed tokens [] (init tokens)
| parsed_step commands self command self' :
    parsed tokens commands self ->
    more_input self = true ->
    parse_command self = (Ok command, self') ->
    parsed tokens (commands ++ [command]) self'.

End ParserInv.

(** ** Sample data *)

Module Examples.

Definition newline : string := String "010" "".

(** [10.0], [-1.5] and [inf] *)
Definition ten : spec_float := S754_finite false 5 1.

Definition minus_one_and_a_half : spec_float := S754_finite true 3 (-1).

Definition infinity : spec_float := S754_infinity false.

(** [Command(MOVE, {'x': x, 'y': y})] *)
Definition move_to (x y : spec_float) : Command.t :=
  Command.new MOVE (<["y" := PyFloat y]> (<["x" := PyFloat x]> ∅)).

(** A new executor on an empty canvas of 800 by 600, the same with the pen
    up, and the application around it. *)
Definition fresh : DrawingExecutor.t := DrawingExecutor.init [] 800 600.

Definition pen_up : DrawingExecutor.t := DrawingExecutor.set_pen_down fresh false.

Definition app : Interpreter.t := Interpreter.mk fresh [].

(** The tokens of [draw line 1 2 3], without the [EOF] token. *)
Definition draw_line_1_2_3 : list Token.t :=
  [ Token.mk KEYWORD "draw" 1 0; Token.mk KEYWORD "line" 1 5;
    Token.mk NUMBER "1" 1 10; Token.mk NUMBER "2" 1 12;
    Token.mk NUMBER "3" 1 14 ].

(** The tokens of [clear draw line 1 2 3], without the [EOF] token. *)
Definition clear_draw_line_1_2_3 : list Token.t :=
  [ Token.mk KEYWORD "clear" 1 0;
    Token.mk KEYWORD "draw" 1 6; Token.mk KEYWORD "line" 1 11;
    Token.mk NUMBER "1" 1 16; Token.mk NUMBER "2" 1 18;
    Token.mk NUMBER "3" 1 20 ].


Definition pen_up_clear : list Token.t :=
  [ Token.mk KEYWORD "pen" 1 0; Token.mk KEYWORD "up" 1 4;
    Token.mk KEYWORD "clear" 2 0 ].

Definition draw_circle_1_2_3 : list Token.t :=
  [ Token.mk KEYWORD "draw" 1 0; Token.mk KEYWORD "circle" 1 5;
    Token.mk NUMBER "1" 1 12; Token.mk NUMBER "2" 1 14;
    Token.mk NUMBER "3" 1 16 ].

(** A lexer on the quote of a string that is not closed. *)
Definition unclosed : Lexer.t := Lexer.init (String "034" "abc").

(** A comment behind a command, and a lexer on its [#]. *)
Definition commented : string := "clear # all" ++ newline ++ "move 1 2".

Definition at_comment : Lexer.t :=
  Lexer.mk (list_ascii_of_string commented) 6 1 6 (Some "#"%char).

(** A number of 401 digits. *)
Definition huge : string := String "1" (string_of_list_ascii (replicate 400 "0"%char)).

End Examples.

(** * Further definitions

    What the further properties, in the last part, are stated with.

    ** The text and its tokens *)

Module Source.

(** The line and the column behind the characters [s], read from line
    [line], column [col]. *)
Fixpoint locate (line col : Z) (s : list ascii) : Z * Z :=
  match s with
  | [] => (line, col)
  | c :: r =>
      if Ascii.eqb c "010" then locate (line + 1) 0 r
      else locate line (col + 1) r
  end.

(** The line, from 1, and the column, from 0, of the position [p]. *)
Definition position (text : list ascii) (p : nat) : Z * Z :=
  locate 1 0 (take p text).

(** The characters from the position [p] to the position [q]. *)
Definition slice (text : list ascii) (p q : nat) : list ascii :=
  take (q - p) (drop p text).

(** The characters of an identifier, and of a number. *)
Definition word_char (c : ascii) : bool := Py.isalnum c || Ascii.eqb c "_".

Definition number_char (c : ascii) : bool := Py.isdigit c || Ascii.eqb c ".".

(** The number of decimal points. *)
Fixpoint dots (s : list ascii) : nat :=
  match s with
  | [] => 0
  | c :: r => (if Ascii.eqb c "." then 1 else 0) + dots r
  end.

(** The text of a string literal without its escapes. *)
Fixpoint unescape (s : list ascii) : string :=
  match s with
  | [] => ""
  | c :: r =>
      if Ascii.eqb c "\" then
        match r with
        | [] => ""
        | e :: r' =>
            String (if Ascii.eqb e "n" then "010"%char
                    else if Ascii.eqb e "t" then "009"%char
                    else e)
              (unescape r')
        end
      else String c (unescape r)
  end.

(** The characters between the quotes of a string literal: no quote but
    behind a backslash, and no backslash at the end. *)
Fixpoint inside (s : list ascii) : bool :=
  match s with
  | [] => true
  | c :: r =>
      if Ascii.eqb c "034" then false
      else if Ascii.eqb c "\" then
        match r with
        | [] => false
        | _ :: r' => inside r'
        end
      else inside r
  end.

(** White space and comments; [comment] tells whether the characters start
    within a comment, the result whether they end within one. *)
Fixpoint gap (comment : bool) (s : list ascii) : option bool :=
  match s with
  | [] => Some comment
  | c :: r =>
      if comment then gap (negb (Ascii.eqb c "010")) r
      else if Py.isspace c then gap false r
      else if Ascii.eqb c "#" then gap true r
      else None
  end.

(** The type of the token of an identifier. *)
Definition word_type (lowered : string) : TokenType :=
  if bool_decide (lowered ∈ Lexer.KEYWORDS) then KEYWORD
  else if bool_decide (lowered ∈ Lexer.COLORS) then COLOR
  else KEYWORD.

(** The token [tok] is the token of the characters [cs], which are
    followed by [next]. *)
Definition lexeme (cs : list ascii) (next : list ascii) (tok : Token.t)
    : Prop :=
  match Token.type tok with
  | EOF => cs = [] /\ next = [] /\ Token.value tok = ""
  | NUMBER =>
      Token.value tok = string_of_list_ascii cs
      /\ Forall (fun c => number_char c = true) cs /\ (dots cs <= 1)%nat
      /\ (exists c r, cs = c :: r
            /\ (Py.isdigit c = true
                \/ c = "."%char /\ exists d, head (r ++ next) = Some d
                                             /\ Py.isdigit d = true))
      /\ match next with
         | [] => True
         | c :: _ => number_char c = false \/ (c = "."%char /\ dots cs = 1%nat)
         end
  | STRING =>
      exists body,
        cs = ("034"%char :: body ++ ["034"%char])%list
        /\ inside body = true /\ Token.value tok = unescape body
  | KEYWORD | COLOR =>
      Token.value tok = Py.lower (string_of_list_ascii cs)
      /\ Token.type tok = word_type (Token.value tok)
      /\ Forall (fun c => word_char c = true) cs
      /\ (exists c r, cs = c :: r /\ Py.isalpha c || Ascii.eqb c "_" = true)
      /\ match next with
         | [] => True
         | c :: _ => word_char c = false
         end
  | LPAREN => cs = ["("%char] /\ Token.value tok = "("
  | RPAREN => cs = [")"%char] /\ Token.value tok = ")"
  | COMMA => cs = [","%char] /\ Token.value tok = ","
  | UNKNOWN =>
      exists c, cs = [c] /\ Token.value tok = String c ""
        /\ Py.isspace c = false /\ c <> "#"%char /\ c <> "034"%char
        /\ Py.isalpha c = false /\ c <> "_"%char /\ Py.isdigit c = false
        /\ c <> "("%char /\ c <> ")"%char /\ c <> ","%char
        /\ (c = "."%char ->
            match next with
            | [] => True
            | d :: _ => Py.isdigit d = false
            end)
  end.

(** The token [tok] stands between the positions [p] and [q] of the text:
    it is the token of the characters there, its column is the column of
    [p], its line the line of [q]. *)
Definition spans (text : list ascii) (p q : nat) (tok : Token.t) : Prop :=
  (p <= q <= length text)%nat
  /\ lexeme (slice text p q) (drop q text) tok
  /\ Token.col tok = (position text p).2
  /\ Token.line tok = (position text q).1.

(** The token [tok] stands at the place [(s, q)] of the text: it is the
    token of the characters from [s] to [q], with the column of [s] and the
    line of [q]; that line is the line of [s] too, but for a string; only
    the [EOF] token is empty, and it stands at the end of the text. *)
Definition placed (text : list ascii) (tok : Token.t) (place : nat * nat)
    : Prop :=
  spans text place.1 place.2 tok
  /\ (Token.type tok <> STRING -> Token.line tok = (position text place.1).1)
  /\ (Token.type tok <> EOF -> (place.1 < place.2)%nat)
  /\ (Token.type tok = EOF -> place.1 = length text).

(** Places that follow one another in the text. *)
Definition ordered (places : list (nat * nat)) : Prop :=
  forall (i : nat) (a b : nat * nat),
    places !! i = Some a -> places !! S i = Some b -> (a.2 <= b.1)%nat.

(** The token of a word has a lowercase value, is a [COLOR] exactly for a
    colour name, and a [KEYWORD] for a reserved word. *)
Definition classified (tok : Token.t) : Prop :=
  Token.type tok = KEYWORD \/ Token.type tok = COLOR ->
  Py.lower (Token.value tok) = Token.value tok
  /\ (Token.type tok = COLOR <-> Token.value tok ∈ Lexer.COLORS)
  /\ (Token.value tok ∈ Lexer.KEYWORDS -> Token.type tok = KEYWORD).

(** The tokens of the text from the position [p]: between two tokens
    there are white space and comments, and the last token is the [EOF]
    token, at the end of the text. *)
Inductive covers (text : list ascii) : nat -> list Token.t -> Prop :=
| covers_eof p tok :
    (p <= length text)%nat ->
    Token.type tok = EOF ->
    is_Some (gap false (drop p text)) ->
    spans text (length text) (length text) tok ->
    covers text p [tok]
| covers_token p s q tok rest :
    (p <= s)%nat ->
    Token.type tok <> EOF ->
    gap false (slice text p s) = Some false ->
    spans text s q tok ->
    covers text q rest ->
    covers text p (tok :: rest).

End Source.

Module Scan.
Import Lexer.

(** From [a], the lexer has gone over the characters [cs] to [b]. *)
Inductive scan : t -> list ascii -> t -> Prop :=
| scan_nil a : scan a [] a
| scan_cons a c cs b :
    current_char a = Some c -> scan (advance a) cs b -> scan a (c :: cs) b.

(** The line and the column of the lexer are those of its position. *)
Definition located (self : t) : Prop :=
  (line self, col self) = Source.position (text self) (pos self).

(** What a call of [get_next_token] has done that went from [self] to
    [self'] and returned [tok]: it has skipped white space and comments,
    and has read the characters of the token. *)
Definition token_scanned (self : t) (tok : Token.t) (self' : t) : Prop :=
  exists (skipped : list ascii) (start : t) (cs : list ascii) (comment : bool),
    scan self skipped start /\ scan start cs self'
    /\ Source.gap false skipped = Some comment
    /\ (comment = true -> Token.type tok = EOF)
    /\ Source.lexeme cs (drop (pos self') (text self')) tok
    /\ Token.col tok = col start /\ Token.line tok = line self'.

End Scan.

(** ** String literals *)

Module Literal.

(** Where a reader of the text stands: among the commands, in a comment, in
    a string, or behind a backslash in a string. *)
Inductive mode : Type := Code | Comment | Str | Esc.

Definition step (m : mode) (c : ascii) : mode :=
  match m with
  | Code =>
      if Ascii.eqb c "#" then Comment
      else if Ascii.eqb c "034" then Str
      else Code
  | Comment => if Ascii.eqb c "010" then Code else Comment
  | Str =>
      if Ascii.eqb c "034" then Code
      else if Ascii.eqb c "\" then Esc
      else Str
  | Esc => Str
  end.

Definition run (m : mode) (s : list ascii) : mode := foldl step m s.

(** The quote at the position [p] opens a string literal: it stands
    outside the comments and the strings before it. *)
Definition opens (text : list ascii) (p : nat) : Prop :=
  text !! p = Some "034"%char /\ run Code (take p text) = Code.

(** The text has a string literal whose closing quote is never reached. *)
Definition unterminated (text : list ascii) : Prop :=
  exists p : nat, opens text p /\ Spec.closes (drop (S p) text) = false.

(** The error for such a text: it carries the line and the column of the
    end of the text. *)
Definition error (text : list ascii) : string :=
  "Lexical error at line "
  ++ Py.str_int (Source.position text (length text)).1 ++ ", column "
  ++ Py.str_int (Source.position text (length text)).2
  ++ ": Unterminated string".

End Literal.

(** ** The grammar of the commands *)

Module Grammar.

Definition number (tok : Token.t) (f : spec_float) : Prop :=
  Token.type tok = NUMBER /\ Py.float (Token.value tok) = Some f.

Definition keyword (tok : Token.t) (word : string) : Prop :=
  Token.type tok = KEYWORD /\ Token.value tok = word.

(** The command at the position of the token [kw]. *)
Definition command (kw : Token.t) (kind : CommandType)
    (params : gmap string pyval) : Command.t :=
  Command.mk kind params (Token.line kw) (Token.col kw).

(** The token sequences of the commands, and the command of each. *)
Inductive derives : list Token.t -> Command.t -> Prop :=
| derives_draw_line kw shape t1 t2 t3 t4 x1 y1 x2 y2 :
    keyword kw "draw" -> keyword shape "line" ->
    number t1 x1 -> number t2 y1 -> number t3 x2 -> number t4 y2 ->
    derives [kw; shape; t1; t2; t3; t4]
      (command kw DRAW_LINE
         (<["y2" := PyFloat y2]> (<["x2" := PyFloat x2]>
           (<["y1" := PyFloat y1]> (<["x1" := PyFloat x1]> ∅)))))
| derives_draw_circle kw shape t1 t2 t3 x y radius :
    keyword kw "draw" -> keyword shape "circle" ->
    number t1 x -> number t2 y -> number t3 radius ->
    derives [kw; shape; t1; t2; t3]
      (command kw DRAW_CIRCLE
         (<["radius" := PyFloat radius]> (<["y" := PyFloat y]>
           (<["x" := PyFloat x]> ∅))))
| derives_draw_rectangle kw shape t1 t2 t3 t4 x y width height :
    keyword kw "draw" -> keyword shape "rectangle" ->
    number t1 x -> number t2 y -> number t3 width -> number t4 height ->
    derives [kw; shape; t1; t2; t3; t4]
      (command kw DRAW_RECTANGLE
         (<["height" := PyFloat height]> (<["width" := PyFloat width]>
           (<["y" := PyFloat y]> (<["x" := PyFloat x]> ∅)))))
| derives_set_color kw word name :
    keyword kw "set" -> Token.value word = "color" ->
    Token.type name = COLOR \/ Token.type name = STRING ->
    derives [kw; word; name]
      (command kw SET_COLOR {[ "color" := PyStr (Token.value name) ]})
| derives_clear kw :
    keyword kw "clear" -> derives [kw] (command kw CLEAR ∅)
| derives_move kw t1 t2 x y :
    keyword kw "move" -> number t1 x -> number t2 y ->
    derives [kw; t1; t2]
      (command kw MOVE (<["y" := PyFloat y]> (<["x" := PyFloat x]> ∅)))
| derives_pen_up kw word :
    keyword kw "pen" -> Token.value word = "up" ->
    derives [kw; word] (command kw PEN_UP ∅)
| derives_pen_down kw word :
    keyword kw "pen" -> Token.value word = "down" ->
    derives [kw; word] (command kw PEN_DOWN ∅).

(** What may follow the commands: nothing, or an [EOF] token and anything. *)
Definition ended (rest : list Token.t) : Prop :=
  match rest with
  | [] => True
  | tok :: _ => Token.type tok = EOF
  end.

(** The number of tokens of a command. *)
Definition arity (kind : CommandType) : nat :=
  match kind with
  | DRAW_LINE | DRAW_RECTANGLE => 6
  | DRAW_CIRCLE => 5
  | SET_COLOR | MOVE => 3
  | PEN_UP | PEN_DOWN => 2
  | CLEAR => 1
  | FILL => 0
  end.

End Grammar.

Module Shape.

(** The keys of the parameters of each command. *)
Definition fields (kind : CommandType) : gset string :=
  match kind with
  | DRAW_LINE => {[ "x1"; "y1"; "x2"; "y2" ]}
  | DRAW_CIRCLE => {[ "x"; "y"; "radius" ]}
  | DRAW_RECTANGLE => {[ "x"; "y"; "width"; "height" ]}
  | SET_COLOR => {[ "color" ]}
  | MOVE => {[ "x"; "y" ]}
  | CLEAR | PEN_UP | PEN_DOWN | FILL => ∅
  end.

(** The parameters are the fields of the command, numbers but for the
    colour name. *)
Definition well_formed (c : Command.t) : Prop :=
  dom (Command.params c) = fields (Command.command_type c)
  /\ forall key v,
       Command.params c !! key = Some v ->
       match v with
       | PyFloat _ => Command.command_type c <> SET_COLOR
       | PyStr _ => Command.command_type c = SET_COLOR
       end.

End Shape.

(** ** The parser and the tokens that are left *)

Module ParserView.
Import Parser.

(** The remaining tokens. *)
Definition rest_of (self : t) : list Token.t := drop (pos self) (tokens self).

(** From [self] to [self'] the parser has read the tokens [group]. *)
Definition reads (self : t) (group : list Token.t) (self' : t) : Prop :=
  rest_of self = (group ++ rest_of self')%list /\ ParserInv.wf self'
  /\ tokens self' = tokens self
  /\ pos self' = (pos self + length group)%nat.

(** Two parsers with the same tokens left. *)
Definition similar (a b : t) : Prop :=
  ParserInv.wf a /\ ParserInv.wf b /\ rest_of a = rest_of b.

(** A method that does the same from similar parsers. *)
Definition uniform {A} (m : M A) : Prop :=
  forall a b r a', similar a b -> m a = (r, a') ->
  exists b', m b = (r, b') /\ similar a' b'.

(** The commands [pre] put before those of a result. *)
Definition prepend (pre : list Command.t) (r : option (exc (list Command.t)))
    : option (exc (list Command.t)) :=
  match r with
  | Some (Ok commands) => Some (Ok (pre ++ commands)%list)
  | other => other
  end.

End ParserView.

(** ** The numeric fields of the commands *)

Module Fields.

(** The parameters of a line, a circle, a rectangle and a move. *)
Definition line (x1 y1 x2 y2 : spec_float) : gmap string pyval :=
  <["y2" := PyFloat y2]> (<["x2" := PyFloat x2]>
    (<["y1" := PyFloat y1]> (<["x1" := PyFloat x1]> ∅))).

Definition circle (x y radius : spec_float) : gmap string pyval :=
  <["radius" := PyFloat radius]> (<["y" := PyFloat y]>
    (<["x" := PyFloat x]> ∅)).

Definition rectangle (x y width height : spec_float) : gmap string pyval :=
  <["height" := PyFloat height]> (<["width" := PyFloat width]>
    (<["y" := PyFloat y]> (<["x" := PyFloat x]> ∅))).

Definition move (x y : spec_float) : gmap string pyval :=
  <["y" := PyFloat y]> (<["x" := PyFloat x]> ∅).

(** The integer that stands for a number on the canvas: its value rounded
    toward zero; an infinity and a NaN have none. *)
Definition device (f : spec_float) : option Z :=
  Spec.truncate <$> Spec.float_value f.

End Fields.

(** ** The executor *)

Module Frame.

(** The colour with which a call draws its lines. *)
Definition stroke (c : canvas_call) : option string :=
  match c with
  | create_line _ _ _ _ fill _ => Some fill
  | create_oval _ _ _ _ outline _ _ | create_rectangle _ _ _ _ outline _ _ =>
      Some outline
  | delete_all => None
  end.

(** A value of the colour table. *)
Definition table_color (s : string) : Prop :=
  exists name : string, DrawingExecutor.COLOR_MAP !! name = Some s.

(** The executor after a list of commands. *)
Definition state_after (self : DrawingExecutor.t) (commands : list Command.t)
    : DrawingExecutor.t :=
  foldl (fun ex c => (DrawingExecutor.execute ex c).1) self commands.

(** The lines of a pen that goes from [start] through [points]. *)
Fixpoint segments (start : Z * Z) (points : list (Z * Z)) (color : string)
    : list canvas_call :=
  match points with
  | [] => []
  | p :: rest =>
      create_line start.1 start.2 p.1 p.2 color 2 :: segments p rest color
  end.

End Frame.

Module Faults.

(** The messages of the two faults of [int] on a [float]. *)
Definition number_fault (e : string) : Prop :=
  e = "cannot convert float infinity to integer"
  \/ e = "cannot convert float NaN to integer".

(** A computation that raises nothing but the faults of [int]. *)
Definition guarded {A} (m : exc A) : Prop :=
  match m with
  | Ok _ => True
  | Raise e => number_fault e
  end.

End Faults.

Module Unsigned.

(** A float that is zero, positive or plus infinity: not negative, and not
    a NaN. *)
Definition unsigned (f : spec_float) : Prop :=
  match f with
  | S754_zero s | S754_infinity s | S754_finite s _ _ => s = false
  | S754_nan => False
  end.

(** What [float] makes of a [NUMBER] token: never a negative number or a
    NaN, and a number whenever the characters are ASCII digits and a point. *)
Definition literal (tok : Token.t) : Prop :=
  Token.type tok = NUMBER ->
  (forall f, Py.float (Token.value tok) = Some f -> unsigned f)
  /\ (Forall (fun c => Py.isdecimal c = true \/ c = "."%char)
        (list_ascii_of_string (Token.value tok)) ->
      is_Some (Py.float (Token.value tok))).

(** A command whose numbers are unsigned: it faults only on infinity, and
    its coordinates are not negative. *)
Definition plain (c : Command.t) : Prop :=
  (forall key f, Command.params c !! key = Some (PyFloat f) -> unsigned f)
  /\ forall self : DrawingExecutor.t,
       match DrawingExecutor.execute_body self c with
       | Ok _ => True
       | Raise e => e = "cannot convert float infinity to integer"
       end
       /\ forall key default z,
            (0 <= default)%Z ->
            DrawingExecutor.int_param (Command.params c) key default = Ok z ->
            Command.command_type c <> SET_COLOR ->
            (0 <= z)%Z.

End Unsigned.

(** ** interpreter.py: the outcomes of a run *)

Module Session.
Import Interpreter.

(** The three lines that open the output of a run. *)
Definition header : list string :=
  [rule "="; "Executing commands..."; rule "="].

(** The application when the commands of a text have been executed. *)
Definition ran (self : t) (commands : list Command.t) : t :=
  let self :=
    mk (executor self)
      (header ++ [("Parsed " ++ Py.str_int (Z.of_nat (length commands))
                   ++ " command(s)")%string; rule "-"]) in
  let self := execute_all self 1 commands in
  let self := append_output self (rule "=") in
  append_output self "Execution complete!".

End Session.

(** ** More sample data *)

Module Samples.

(** [1.0], [2.0], [3.0] and [4.0] *)
Definition one : spec_float := S754_finite false 1 0.

Definition two : spec_float := S754_finite false 1 1.

Definition three : spec_float := S754_finite false 3 0.

Definition four : spec_float := S754_finite false 1 2.

(** [Command(DRAW_LINE, {'x1': 1.0, 'y1': 2.0, 'x2': 3.0, 'y2': 4.0})] *)
Definition line_1_2_3_4 : Command.t :=
  Command.new DRAW_LINE
    (<["y2" := PyFloat four]> (<["x2" := PyFloat three]>
      (<["y1" := PyFloat two]> (<["x1" := PyFloat one]> ∅)))).

(** The [EOF] token that ends the tokens of [pen up] and [clear]. *)
Definition eof : Token.t := Token.mk EOF "" 2 5.

(** Blanks and an end of line. *)
Definition blanks : string := "  " ++ Examples.newline.

(** A text with a word in capitals, a number and a colour. *)
Definition mixed : string := "MOVE 1.5 7" ++ Examples.newline ++ "set color Red".

(** [0.5] *)
Definition half : spec_float := S754_finite false 1 (-1).

(** A string that is not closed, and a command with a string. *)
Definition unclosed_text : string := String "034" "abc".

Definition quoted : string :=
  "set color " ++ String "034" ("red" ++ String "034" "").

End Samples.

(** * Proofs *)

(** An index tested against the length before it is used. *)
Lemma lookup_guard {A} (l : list A) (i : nat) :
  (if bool_decide (length l <= i)%nat then None else l !! i) = l !! i.
Proof.
  case_bool_decide; [|done]. symmetry. by apply lookup_ge_None.
Qed.

(** ** The lexer *)

Module LexerFacts.
Import Lexer LexerInv.

#[local] Opaque KEYWORDS COLORS.

(** *** Positions *)

Lemma lex_init_wf source : wf (init source).
Proof.
  unfold wf, init. simpl. case_bool_decide; [done|].
  symmetry. apply lookup_ge_None. lia.
Qed.

Lemma lex_advance_wf self : wf (advance self).
Proof.
  unfold wf, advance. destruct (bool_decide _); simpl; apply lookup_guard.
Qed.

Lemma lex_advance_text self : text (advance self) = text self.
Proof. unfold advance. by destruct (bool_decide _). Qed.

Lemma lex_advance_pos self : pos (advance self) = S (pos self).
Proof. unfold advance. by destruct (bool_decide _). Qed.

Lemma lex_wf_char self c :
  wf self -> current_char self = Some c ->
  (pos self < length (text self))%nat.
Proof.
  unfold wf. intros W H. apply lookup_lt_is_Some. rewrite <- W. eauto.
Qed.

(** *** Later states *)

Lemma lex_follows_refl a : wf a -> follows a a.
Proof. by intros W. Qed.

Lemma lex_follows_advance a b : follows (advance a) b -> follows a b.
Proof.
  intros (W & T & L). rewrite lex_advance_text in T. rewrite lex_advance_pos in L.
  split; [done|]. split; [done|lia].
Qed.

Lemma lex_follows_trans a b c : follows a b -> follows b c -> follows a c.
Proof.
  intros (W1 & T1 & L1) (W2 & T2 & L2).
  split; [done|]. split; [congruence|lia].
Qed.

Lemma lex_left_advance self c :
  wf self -> current_char self = Some c ->
  left self = S (left (advance self)).
Proof.
  intros W H. pose proof (lex_wf_char _ _ W H). unfold left.
  rewrite lex_advance_text, lex_advance_pos. lia.
Qed.

(** *** The loops end within their budget *)

Lemma lex_skip_whitespace_loop_total fuel self :
  wf self -> (left self <= fuel)%nat ->
  exists self', skip_whitespace_loop fuel self = Some self'
    /\ follows self self'
    /\ (forall c, current_char self = Some c -> Py.isspace c = true ->
        (pos self < pos self')%nat).
Proof.
  revert self. induction fuel as [|fuel IH]; intros self W L; simpl;
    destruct (current_char self) as [c|] eqn:E;
    try (eexists; split; [done|]; split; [by apply lex_follows_refl|done]).
  - pose proof (lex_left_advance _ _ W E). 
    destruct (Py.isspace c) eqn:Sp; [lia|].
    eexists; split; [done|]; split; [by apply lex_follows_refl|].
    intros ? [= <-]. congruence.
  - pose proof (lex_left_advance _ _ W E).
    destruct (Py.isspace c) eqn:Sp.
    + destruct (IH (advance self) (lex_advance_wf _)) as (self' & -> & F & _);
        [lia|].
      eexists; split; [done|]. split; [by apply lex_follows_advance|].
      intros _ _ _. destruct F as (_ & _ & F). rewrite lex_advance_pos in F. lia.
    + eexists; split; [done|]; split; [by apply lex_follows_refl|].
      intros ? [= <-]. congruence.
Qed.

Lemma lex_wf_drop self c :
  wf self -> current_char self = Some c ->
  drop (pos self) (text self) = c :: drop (S (pos self)) (text self).
Proof. unfold wf. intros W H. apply drop_S. congruence. Qed.

Lemma lex_wf_drop_nil self :
  wf self -> current_char self = None -> drop (pos self) (text self) = [].
Proof.
  unfold wf. intros W H. apply drop_ge. apply lookup_ge_None. congruence.
Qed.

Lemma lex_advance_same_line self c :
  current_char self = Some c -> Ascii.eqb c "010" = false ->
  line (advance self) = line self /\ col (advance self) = (col self + 1)%Z.
Proof.
  intros H N. unfold advance. rewrite H.
  rewrite bool_decide_eq_false_2; [done|].
  intros [= ->]. by rewrite Ascii.eqb_refl in N.
Qed.

Lemma lex_advance_new_line self :
  current_char self = Some "010"%char ->
  line (advance self) = (line self + 1)%Z /\ col (advance self) = 0%Z.
Proof. intros H. unfold advance. rewrite H. by rewrite bool_decide_eq_true_2. Qed.

Lemma lex_skip_comment_loop_total fuel self :
  wf self -> (left self <= fuel)%nat ->
  exists self', skip_comment_loop fuel self = Some self'
    /\ follows self self'
    /\ pos self' = (pos self + Spec.line_rest (drop (pos self) (text self)))%nat
    /\ line self' = line self
    /\ col self'
       = (col self + Z.of_nat (Spec.line_rest (drop (pos self) (text self))))%Z
    /\ (current_char self' = None \/ current_char self' = Some "010"%char).
Proof.
  revert self. induction fuel as [|fuel IH]; intros self W L; simpl;
    destruct (current_char self) as [c|] eqn:E.
  - pose proof (lex_left_advance _ _ W E).
    rewrite (lex_wf_drop _ _ W E). simpl.
    destruct (Ascii.eqb_spec c "010") as [->|N]; simpl; [|lia].
    eexists; split; [done|]. split; [by apply lex_follows_refl|].
    repeat split; try lia; by right.
  - rewrite (lex_wf_drop_nil _ W E). simpl.
    eexists; split; [done|]. split; [by apply lex_follows_refl|].
    repeat split; try lia; by left.
  - pose proof (lex_left_advance _ _ W E).
    rewrite (lex_wf_drop _ _ W E). simpl.
    destruct (Ascii.eqb_spec c "010") as [->|N]; simpl.
    + eexists; split; [done|]. split; [by apply lex_follows_refl|].
      repeat split; try lia; by right.
    + destruct (IH (advance self) (lex_advance_wf _)) as
        (self' & -> & F & P & Ln & Cl & Cur); [lia|].
      rewrite lex_advance_pos, lex_advance_text in P, Cl.
      destruct (lex_advance_same_line self c E) as [Ln' Cl'];
        [by apply Ascii.eqb_neq|].
      eexists; split; [done|]. split; [by apply lex_follows_advance|].
      repeat split; [lia|congruence|lia|done].
  - rewrite (lex_wf_drop_nil _ W E). simpl.
    eexists; split; [done|]. split; [by apply lex_follows_refl|].
    repeat split; try lia; by left.
Qed.

Lemma lex_read_number_loop_total fuel result dot_count self :
  wf self -> (left self <= fuel)%nat ->
  exists result' self',
    read_number_loop fuel result dot_count self = Some (result', self')
    /\ follows self self'
    /\ (forall c, current_char self = Some c ->
        Py.isdigit c = true \/ (c = "."%char /\ dot_count = 0%nat) ->
        (pos self < pos self')%nat).
Proof.
  revert result dot_count self.
  induction fuel as [|fuel IH]; intros result dot_count self W L; simpl;
    destruct (current_char self) as [c|] eqn:E;
    try (do 2 eexists; split; [done|]; split; [by apply lex_follows_refl|done]).
  - pose proof (lex_left_advance _ _ W E). lia.
  - pose proof (lex_left_advance _ _ W E).
    destruct (Py.isdigit c || Ascii.eqb c ".") eqn:C; simpl.
    + destruct (Ascii.eqb c "." && bool_decide (1 < _)%nat) eqn:B.
      * do 2 eexists; split; [done|]; split; [by apply lex_follows_refl|].
        intros ? [= <-] [D|[-> ->]].
        -- apply andb_true_iff in B as [B _].
           apply Ascii.eqb_eq in B as ->. done.
        -- by vm_compute in B.
      * edestruct (IH (result ++ String c "")
                     (if Ascii.eqb c "." then S dot_count else dot_count)
                     (advance self) (lex_advance_wf _))
          as (r' & self' & -> & F & _); [lia|].
        do 2 eexists; split; [done|]. split; [by apply lex_follows_advance|].
        intros _ _ _. destruct F as (_ & _ & F). rewrite lex_advance_pos in F. lia.
    + do 2 eexists; split; [done|]; split; [by apply lex_follows_refl|].
      intros ? [= <-] [D|[-> _]]; [by rewrite D in C|done].
Qed.

Lemma lex_read_identifier_loop_total fuel result self :
  wf self -> (left self <= fuel)%nat ->
  exists result' self',
    read_identifier_loop fuel result self = Some (result', self')
    /\ follows self self'
    /\ (forall c, current_char self = Some c ->
        Py.isalnum c || Ascii.eqb c "_" = true ->
        (pos self < pos self')%nat).
Proof.
  revert result self.
  induction fuel as [|fuel IH]; intros result self W L; simpl;
    destruct (current_char self) as [c|] eqn:E;
    try (do 2 eexists; split; [done|]; split; [by apply lex_follows_refl|done]).
  - pose proof (lex_left_advance _ _ W E). lia.
  - pose proof (lex_left_advance _ _ W E).
    destruct (Py.isalnum c || Ascii.eqb c "_") eqn:C.
    + edestruct (IH (result ++ String c "") (advance self) (lex_advance_wf _))
        as (r' & self' & -> & F & _); [lia|].
      do 2 eexists; split; [done|]. split; [by apply lex_follows_advance|].
      intros _ _ _. destruct F as (_ & _ & F). rewrite lex_advance_pos in F. lia.
    + do 2 eexists; split; [done|]; split; [by apply lex_follows_refl|].
      intros ? [= <-]. congruence.
Qed.

Lemma lex_error_lexical self : Spec.lexical_error (error self "Unterminated string").
Proof. by exists (line self), (col self). Qed.

Lemma lex_read_string_loop_total fuel result self :
  wf self -> (left self <= fuel)%nat ->
  exists r, read_string_loop fuel result self = Some r
    /\ match r with
       | Raise e =>
           Spec.closes (drop (pos self) (text self)) = false
           /\ Spec.lexical_error e
       | Ok (_, self') =>
           follows self self'
           /\ match current_char self' with
              | None => Spec.closes (drop (pos self) (text self)) = false
              | Some c =>
                  c = "034"%char
                  /\ Spec.closes (drop (pos self) (text self)) = true
              end
       end.
Proof.
  revert result self.
  induction fuel as [|fuel IH]; intros result self W L; simpl;
    destruct (current_char self) as [c|] eqn:E.
  - pose proof (lex_left_advance _ _ W E).
    rewrite (lex_wf_drop _ _ W E). simpl.
    destruct (Ascii.eqb_spec c "034") as [->|N]; simpl; [|lia].
    eexists; split; [done|]. split; [by apply lex_follows_refl|]. by rewrite E.
  - rewrite (lex_wf_drop_nil _ W E). simpl.
    eexists; split; [done|]. split; [by apply lex_follows_refl|]. by rewrite E.
  - pose proof (lex_left_advance _ _ W E) as L1.
    rewrite (lex_wf_drop _ _ W E). simpl.
    destruct (Ascii.eqb_spec c "034") as [->|N]; simpl.
    { eexists; split; [done|]. split; [by apply lex_follows_refl|]. by rewrite E. }
    destruct (Ascii.eqb c "\").
    + pose proof (lex_advance_wf self) as W1.
      destruct (current_char (advance self)) as [e|] eqn:E1.
      * pose proof (lex_left_advance _ _ W1 E1) as L2.
        pose proof (lex_wf_drop _ _ W1 E1) as D.
        rewrite lex_advance_pos, lex_advance_text in D. rewrite D.
        match goal with
        | |- context [read_string_loop fuel ?res _] =>
            destruct (IH res (advance (advance self)) (lex_advance_wf _))
              as (r & -> & Hr); [lia|]
        end.
        rewrite !lex_advance_pos, !lex_advance_text in Hr.
        eexists; split; [done|]. destruct r as [[res self']|e']; [|done].
        destruct Hr as [F Hr]. split; [|done].
        by do 2 apply lex_follows_advance.
      * pose proof (lex_wf_drop_nil _ W1 E1) as D.
        rewrite lex_advance_pos, lex_advance_text in D. rewrite D.
        eexists; split; [done|]. split; [done|apply lex_error_lexical].
    + match goal with
      | |- context [read_string_loop fuel ?res _] =>
          destruct (IH res (advance self) (lex_advance_wf _)) as (r & -> & Hr);
            [lia|]
      end.
      rewrite !lex_advance_pos, !lex_advance_text in Hr.
      eexists; split; [done|]. destruct r as [[res self']|e']; [|done].
      destruct Hr as [F Hr]. split; [|done]. by apply lex_follows_advance.
  - rewrite (lex_wf_drop_nil _ W E). simpl.
    eexists; split; [done|]. split; [by apply lex_follows_refl|]. by rewrite E.
Qed.

Lemma lex_left_budget self : (left self <= budget self)%nat.
Proof. unfold left, budget. lia. Qed.

Lemma lex_read_string_total self :
  wf self ->
  exists r, read_string self = Some r
    /\ match r with
       | Raise e =>
           Spec.closes (drop (S (pos self)) (text self)) = false
           /\ Spec.lexical_error e
       | Ok (_, self') =>
           follows self self' /\ (pos self < pos self')%nat
           /\ Spec.closes (drop (S (pos self)) (text self)) = true
       end.
Proof.
  intros W. unfold read_string.
  destruct (lex_read_string_loop_total (budget self) "" (advance self)
              (lex_advance_wf _)) as (r & -> & Hr).
  { pose proof (lex_left_budget (advance self)) as B.
    unfold budget in *. by rewrite lex_advance_text in B. }
  rewrite lex_advance_pos, lex_advance_text in Hr. simpl.
  eexists; split; [done|].
  destruct r as [[res self']|e]; simpl; [|done].
  destruct Hr as [F Hr].
  destruct (current_char self') as [c|] eqn:E.
  - destruct Hr as [-> Hc].
    destruct F as (W' & T' & L'). rewrite lex_advance_text in T'.
    rewrite lex_advance_pos in L'.
    split; [|split; [rewrite lex_advance_pos; lia|done]].
    split; [apply lex_advance_wf|].
    rewrite lex_advance_text, lex_advance_pos. split; [done|lia].
  - split; [done|apply lex_error_lexical].
Qed.

Lemma lex_skip_whitespace_total self c :
  wf self -> current_char self = Some c -> Py.isspace c = true ->
  exists self', skip_whitespace self = Some self'
    /\ follows self self' /\ (pos self < pos self')%nat.
Proof.
  intros W E Sp.
  destruct (lex_skip_whitespace_loop_total (budget self) self W (lex_left_budget _))
    as (self' & H & F & P).
  exists self'. split; [done|]. split; [done|]. by apply (P c).
Qed.

(** After a comment the lexer stands behind the end of the line, or at the
    end of the text if the line has no end. *)
Lemma lex_skip_comment_total self c :
  wf self -> current_char self = Some c -> Ascii.eqb c "010" = false ->
  let n := Spec.line_rest (drop (pos self) (text self)) in
  exists self', skip_comment self = Some self'
    /\ follows self self' /\ (pos self < pos self')%nat
    /\ match text self !! (pos self + n)%nat with
       | Some c =>
           c = "010"%char /\ pos self' = S (pos self + n)
           /\ line self' = (line self + 1)%Z /\ col self' = 0%Z
       | None =>
           pos self' = (pos self + n)%nat /\ pos self' = length (text self)
           /\ line self' = line self
           /\ col self' = (col self + Z.of_nat n)%Z
       end.
Proof.
  intros W E N n. unfold skip_comment.
  destruct (lex_skip_comment_loop_total (budget self) self W (lex_left_budget _))
    as (self1 & -> & F & P & Ln & Cl & Cur).
  fold n in P, Cl. simpl.
  assert (Hn : (0 < n)%nat).
  { unfold n. rewrite (lex_wf_drop _ _ W E). simpl. rewrite N. lia. }
  destruct F as (W1 & T1 & L1).
  assert (Hc : current_char self1 = text self !! (pos self + n)%nat).
  { rewrite W1. congruence. }
  rewrite <- Hc.
  eexists; split; [done|].
  destruct Cur as [Cur|Cur]; rewrite Cur; unfold is_char.
  - rewrite bool_decide_eq_false_2 by done.
    split; [done|]. split; [lia|].
    repeat split; [done| |done|done].
    rewrite <- T1. apply Nat.le_antisymm.
    + destruct (Nat.le_gt_cases (pos self1) (length (text self1))) as [?|G];
        [done|].
      exfalso. rewrite P in G. unfold n in G.
      pose proof (lex_wf_char _ _ W E) as Lt.
      assert (B : forall l : list ascii, (Spec.line_rest l <= length l)%nat).
      { induction l as [|a l IHl]; simpl; [lia|].
        destruct (Ascii.eqb a "010"); lia. }
      specialize (B (drop (pos self) (text self))).
      rewrite length_drop, T1 in *. lia.
    + apply lookup_ge_None. congruence.
  - rewrite bool_decide_eq_true_2 by done.
    destruct (lex_advance_new_line _ Cur) as [Ln' Cl'].
    split; [|split; [rewrite lex_advance_pos; lia|]].
    + split; [apply lex_advance_wf|]. rewrite lex_advance_text, lex_advance_pos.
      split; [done|lia].
    + rewrite lex_advance_pos. repeat split; [lia|congruence|done].
Qed.

Lemma lex_starts_number_first self c :
  starts_number self c = true -> Py.isdigit c = true \/ c = "."%char.
Proof.
  unfold starts_number. intros H.
  apply orb_true_iff in H as [H|H]; [by left|right].
  apply andb_true_iff in H as [H _]. apply andb_true_iff in H as [H _].
  by apply Ascii.eqb_eq.
Qed.

Lemma lex_isalpha_isalnum c :
  Py.isalpha c || Ascii.eqb c "_" = true ->
  Py.isalnum c || Ascii.eqb c "_" = true.
Proof.
  unfold Py.isalnum. intros H.
  apply orb_true_iff in H as [-> | ->]; [done|]. apply orb_true_r.
Qed.

Lemma lex_follows_step self :
  follows self (advance self) /\ (pos self < pos (advance self))%nat.
Proof.
  split; [|rewrite lex_advance_pos; lia].
  split; [apply lex_advance_wf|]. rewrite lex_advance_text, lex_advance_pos.
  split; [done|lia].
Qed.

Lemma lex_token_outcome_later a b r :
  follows a b -> (pos a < pos b)%nat ->
  token_outcome b r -> token_outcome a r.
Proof.
  intros F L. destruct r as [[token self']|e]; simpl.
  - intros (F' & P & Z). split; [by eapply lex_follows_trans|].
    split; [|done]. destruct P as [?|[? ?]]; [by left|right].
    destruct F' as (_ & _ & ?). destruct F as (_ & T & _). rewrite <- T.
    lia.
  - intros (Le & p & Lp & Q & C). split; [done|].
    destruct F as (_ & T & _). exists p. rewrite <- T. split; [lia|done].
Qed.

Lemma lex_get_next_token_loop_total fuel self :
  wf self -> (left self <= fuel)%nat ->
  exists r, get_next_token_loop fuel self = Some r /\ token_outcome self r.
Proof.
  revert self. induction fuel as [|fuel IH]; intros self W L.
  - simpl; destruct (current_char self) as [c|] eqn:E.
    all: try (pose proof (lex_left_advance _ _ W E); lia).
    all: eexists; split; [done|]; simpl;
      (split; [by apply lex_follows_refl|]); split; [by left|done].
  - simpl. destruct (current_char self) as [c|] eqn:E.
    2:{ eexists; split; [done|]; simpl.
        split; [by apply lex_follows_refl|]. split; [by left|done]. }
    pose proof (lex_left_advance _ _ W E) as La.
    pose proof (lex_wf_char _ _ W E) as Lt.
    destruct (Py.isspace c) eqn:Sp.
    { destruct (lex_skip_whitespace_total _ _ W E Sp) as (self1 & -> & F & P).
      simpl. destruct (IH self1) as (r & -> & Hr).
      - by destruct F.
      - destruct F as (_ & T & _). unfold left in *. rewrite T. lia.
      - eexists; split; [done|]. by eapply lex_token_outcome_later. }
    destruct (Ascii.eqb_spec c "#") as [->|NotHash].
    { destruct (lex_skip_comment_total _ _ W E eq_refl)
        as (self1 & -> & F & P & _).
      simpl. destruct (IH self1) as (r & -> & Hr).
      - by destruct F.
      - destruct F as (_ & T & _). unfold left in *. rewrite T. lia.
      - eexists; split; [done|]. by eapply lex_token_outcome_later. }
    destruct (starts_number self c) eqn:Num.
    { destruct (lex_read_number_loop_total (budget self) "" 0 self W
                  (lex_left_budget _)) as (res & self1 & H & F & P).
      unfold read_number. rewrite H. simpl.
      eexists; split; [done|]. simpl. split; [done|]. split; [|done].
      right. split; [|done]. apply (P c E).
      destruct (lex_starts_number_first _ _ Num); [by left|by right]. }
    destruct (Ascii.eqb_spec c "034") as [->|NotQuote].
    { destruct (lex_read_string_total self W) as (r & -> & Hr). simpl.
      eexists; split; [done|].
      destruct r as [[res self1]|e]; simpl.
      - destruct Hr as (F & P & _). split; [done|]. split; [by right|done].
      - destruct Hr as [C Le]. split; [done|].
        exists (pos self). split; [done|]. split; [|done]. congruence. }
    destruct (Py.isalpha c || Ascii.eqb c "_") eqn:Al.
    { destruct (lex_read_identifier_loop_total (budget self) "" self W
                  (lex_left_budget _)) as (res & self1 & H & F & P).
      unfold read_identifier. rewrite H. simpl.
      assert (Pr : (pos self < pos self1)%nat)
        by (apply (P c E); by apply lex_isalpha_isalnum).
      repeat case_bool_decide;
        (eexists; split; [done|]; simpl; split; [done|]; split;
         [by right|done]). }
    destruct (lex_follows_step self) as [F P].
    repeat destruct (Ascii.eqb c _);
      (eexists; split; [done|]; simpl; split; [done|]; split;
       [by right|done]).
Qed.

Lemma lex_get_next_token_loop_mono fuel fuel' self r :
  get_next_token_loop fuel self = Some r -> (fuel <= fuel')%nat ->
  get_next_token_loop fuel' self = Some r.
Proof.
  revert fuel' self.
  induction fuel as [|fuel IH]; intros fuel' self H L.
  - destruct fuel' as [|fuel']; [done|].
    simpl in *. destruct (current_char self) as [c|]; [|done].
    destruct (Py.isspace c); [done|].
    destruct (Ascii.eqb c "#"); [done|]. done.
  - destruct fuel' as [|fuel']; [lia|].
    simpl in *. destruct (current_char self) as [c|]; [|done].
    destruct (Py.isspace c).
    { destruct (skip_whitespace self); [|done]. simpl in *.
      apply IH; [done|lia]. }
    destruct (Ascii.eqb c "#"); [|done].
    destruct (skip_comment self); [|done]. simpl in *.
    apply IH; [done|lia].
Qed.

Lemma lex_get_next_token_total self :
  wf self ->
  exists r, get_next_token self = Some r /\ token_outcome self r.
Proof.
  intros W. apply lex_get_next_token_loop_total; [done|apply lex_left_budget].
Qed.

Lemma lex_tokenize_loop_total fuel tokens self :
  wf self -> (left self < fuel)%nat ->
  exists r, tokenize_loop fuel tokens self = Some r
    /\ tokens_outcome (text self) tokens r.
Proof.
  revert tokens self.
  induction fuel as [|fuel IH]; intros tokens self W L; [lia|].
  simpl. destruct (lex_get_next_token_total self W) as (r & -> & Hr). simpl.
  destruct r as [[token self1]|e]; simpl in *.
  - destruct Hr as (F & P & Z). case_bool_decide as Ty.
    + eexists; split; [done|]. exists [], token. by split.
    + destruct P as [P|[P Lt]]; [done|].
      destruct (IH (tokens ++ [token])%list self1) as (r & -> & Hr).
      * by destruct F.
      * destruct F as (_ & T & _). unfold left in *. rewrite T. lia.
      * eexists; split; [done|]. destruct F as (_ & T & _). rewrite T in Hr.
        destruct r as [tokens'|e]; simpl in *; [|done].
        destruct Hr as (front & eof & -> & Te & Fr).
        exists (token :: front), eof.
        split; [by rewrite <- app_assoc|]. split; [done|by constructor].
  - eexists; split; [done|]. destruct Hr as (Le & p & _ & Q & C).
    split; [done|]. by exists p.
Qed.

End LexerFacts.

(** ** The parser *)

Module ParserFacts.
Import Parser ParserInv.

(** *** Positions *)

Lemma par_init_wf tokens : wf (init tokens).
Proof.
  unfold wf, init. simpl. case_bool_decide; [done|].
  symmetry. apply lookup_ge_None. lia.
Qed.

Lemma par_advance_wf self : wf (advance self).
Proof. unfold wf, advance. simpl. apply lookup_guard. Qed.

Lemma par_wf_more_input self :
  wf self -> more_input self = true -> (pos self < length (tokens self))%nat.
Proof.
  unfold wf, more_input. intros W H.
  destruct (current_token self) as [tok|] eqn:E; [|discriminate].
  apply lookup_lt_is_Some. rewrite <- W. eauto.
Qed.

(** *** The methods *)

Lemma par_sound_ret {A} (a : A) (P : A -> Prop) : P a -> sound (ret a) P.
Proof. intros HP self r self' W [= <- <-]. auto. Qed.

Lemma par_sound_raise_error {A} message (P : A -> Prop) :
  sound (raise_error message) P.
Proof. intros self r self' W [= <- <-]. eauto 6. Qed.

Lemma par_sound_bind {A B} (m : M A) (k : A -> M B) P Q :
  sound m P -> (forall a, P a -> sound (k a) Q) -> sound (bind m k) Q.
Proof.
  intros Hm Hk self r self' W H. unfold bind in H.
  destruct (m self) as [[a|e] self1] eqn:E.
  - destruct (Hm _ _ _ W E) as (W1 & T1 & L1 & Pa).
    destruct (Hk a Pa _ _ _ W1 H) as (W2 & T2 & L2 & R).
    repeat split; [done|congruence|lia|done].
  - injection H as <- <-. by destruct (Hm _ _ _ W E) as (W1 & T1 & L1 & Pa).
Qed.

Lemma par_sound_try_except {A} (body handler : M A) P :
  sound body P -> sound handler P -> sound (try_except body handler) P.
Proof.
  intros Hb Hh self r self' W H. unfold try_except in H.
  destruct (body self) as [[a|e] self1] eqn:E.
  - injection H as <- <-. exact (Hb _ _ _ W E).
  - destruct (Hb _ _ _ W E) as (W1 & T1 & L1 & _).
    destruct (Hh _ _ _ W1 H) as (W2 & T2 & L2 & R).
    repeat split; [done|congruence|lia|done].
Qed.

Lemma par_sound_weaken {A} (m : M A) (P Q : A -> Prop) :
  sound m P -> (forall a, P a -> Q a) -> sound m Q.
Proof.
  intros Hm HPQ self r self' W H.
  destruct (Hm _ _ _ W H) as (W1 & T1 & L1 & R).
  repeat split; try done. destruct r; auto.
Qed.

(** A method run after one [advance]. *)
Lemma par_sound_advanced {A} (m : M A) P self r self' :
  sound m P -> m (advance self) = (r, self') ->
  wf self' /\ tokens self' = tokens self /\ (pos self < pos self')%nat
  /\ match r with
     | Ok a => P a
     | Raise e => exists message, e = error self' message
     end.
Proof.
  intros Hm H.
  destruct (Hm _ _ _ (par_advance_wf self) H) as (W1 & T1 & L1 & R).
  simpl in *. repeat split; [done|done|lia|done].
Qed.

Lemma par_sound_expect token_type value :
  sound (expect token_type value) (fun _ => True).
Proof.
  intros self r self' W H. unfold expect in H.
  destruct (current_token self) as [tok|].
  - case_bool_decide.
    + exact (par_sound_raise_error _ _ _ _ _ W H).
    + destruct value as [v|].
      * case_bool_decide.
        -- exact (par_sound_raise_error _ _ _ _ _ W H).
        -- injection H as <- <-. split; [apply par_advance_wf|]. simpl. auto.
      * injection H as <- <-. split; [apply par_advance_wf|]. simpl. auto.
  - exact (par_sound_raise_error _ _ _ _ _ W H).
Qed.

Lemma par_sound_parse_number : sound parse_number (fun _ => True).
Proof.
  unfold parse_number. eapply par_sound_bind; [apply par_sound_expect|].
  intros token _. destruct (Py.float _).
  - by apply par_sound_ret.
  - apply par_sound_raise_error.
Qed.

Ltac sound_steps :=
  repeat first
    [ apply par_sound_parse_number
    | apply par_sound_raise_error
    | apply par_sound_ret; simpl; try done
    | apply par_sound_try_except
    | apply (par_sound_bind _ _ (fun _ => True)); [|intros ? _] ].

Lemma par_sound_parse_draw_line line col :
  sound (parse_draw_line line col) (has_type DRAW_LINE).
Proof. unfold parse_draw_line. sound_steps. Qed.

Lemma par_sound_parse_draw_circle line col :
  sound (parse_draw_circle line col) (has_type DRAW_CIRCLE).
Proof. unfold parse_draw_circle. sound_steps. Qed.

Lemma par_sound_parse_draw_rectangle line col :
  sound (parse_draw_rectangle line col) (has_type DRAW_RECTANGLE).
Proof. unfold parse_draw_rectangle. sound_steps. Qed.

Lemma par_sound_parse_move_command line col :
  sound (parse_move_command line col) (has_type MOVE).
Proof. unfold parse_move_command. sound_steps. Qed.

Lemma par_sound_parse_clear_command line col :
  sound (parse_clear_command line col) (has_type CLEAR).
Proof. unfold parse_clear_command. sound_steps. Qed.

Lemma par_kind_of_type k c :
  has_type k c -> k <> FILL -> Spec.produced c.
Proof.
  unfold has_type, Spec.produced. intros -> N.
  destruct k; try done; set_solver.
Qed.

Ltac raised W H := exact (par_sound_raise_error _ _ _ _ _ W H).

Lemma par_sound_parse_draw_command line col :
  sound (parse_draw_command line col) Spec.produced.
Proof.
  intros self r self' W H. unfold parse_draw_command in H.
  destruct (current_token self) as [tok|]; [|raised W H].
  case_bool_decide; [raised W H|].
  assert (S : forall k, k <> FILL -> forall m : M Command.t,
            sound m (has_type k) -> m (advance self) = (r, self') ->
            wf self' /\ tokens self' = tokens self
            /\ (pos self <= pos self')%nat
            /\ match r with
               | Ok a => Spec.produced a
               | Raise e => exists message, e = error self' message
               end).
  { intros k Hk m Hm E.
    destruct (par_sound_advanced _ _ _ _ _ (par_sound_weaken _ _ Spec.produced Hm
                (fun c Hc => par_kind_of_type k c Hc Hk)) E)
      as (? & ? & ? & ?).
    repeat split; [done|done|lia|done]. }
  destruct (String.eqb _ "line");
    [exact (S DRAW_LINE ltac:(done) _ (par_sound_parse_draw_line _ _) H)|].
  destruct (String.eqb _ "circle");
    [exact (S DRAW_CIRCLE ltac:(done) _ (par_sound_parse_draw_circle _ _) H)|].
  destruct (String.eqb _ "rectangle");
    [exact (S DRAW_RECTANGLE ltac:(done) _ (par_sound_parse_draw_rectangle _ _) H)|].
  destruct (par_sound_raise_error _ Spec.produced _ _ _ (par_advance_wf self) H)
    as (? & ? & ? & ?).
  simpl in *. repeat split; [done|done|lia|done].
Qed.

Lemma par_sound_advance {A} (m : M A) P :
  sound m P -> sound (fun self => m (advance self)) P.
Proof.
  intros Hm self r self' W H.
  destruct (par_sound_advanced _ _ _ _ _ Hm H) as (? & ? & ? & ?).
  repeat split; [done|done|lia|done].
Qed.

(** A result or an error met after some calls of [advance]. *)
Ltac leaf H :=
  injection H as <- <-;
  split; [apply par_advance_wf|];
  simpl; split; [reflexivity|]; split; [lia|];
  first [ unfold Spec.produced; simpl; set_solver | eauto ].

Lemma par_sound_parse_set_command line col :
  sound (parse_set_command line col) Spec.produced.
Proof.
  intros self r self' W H. unfold parse_set_command in H.
  destruct (current_token self) as [tok|]; [|raised W H].
  case_bool_decide; [raised W H|].
  destruct (current_token (advance self)) as [tok'|] eqn:E; [|leaf H].
  destruct (_ || _); leaf H.
Qed.

Lemma par_sound_parse_pen_command line col :
  sound (parse_pen_command line col) Spec.produced.
Proof.
  intros self r self' W H. unfold parse_pen_command in H.
  destruct (current_token self) as [tok|]; [|raised W H].
  destruct (String.eqb _ "up"); [leaf H|].
  destruct (String.eqb _ "down"); leaf H.
Qed.

(** [parse_command] consumes at least one token when it returns. *)
Lemma par_parse_command_sound self r self' :
  wf self -> parse_command self = (r, self') ->
  wf self' /\ tokens self' = tokens self
  /\ match r with
     | Ok c => (pos self < pos self')%nat /\ Spec.produced c
     | Raise e => exists message, e = error self' message
     end.
Proof.
  intros W H. unfold parse_command in H.
  assert (R : forall message, raise_error message self = (r, self') ->
     wf self' /\ tokens self' = tokens self
     /\ match r with
        | Ok c => (pos self < pos self')%nat /\ Spec.produced c
        | Raise e => exists message, e = error self' message
        end).
  { intros message [= <- <-]. eauto. }
  assert (S : forall m : M Command.t, sound m Spec.produced ->
     m (advance self) = (r, self') ->
     wf self' /\ tokens self' = tokens self
     /\ match r with
        | Ok c => (pos self < pos self')%nat /\ Spec.produced c
        | Raise e => exists message, e = error self' message
        end).
  { intros m Hm E.
    destruct (par_sound_advanced _ _ _ _ _ Hm E) as (? & ? & ? & ?).
    destruct r; auto. }
  destruct (current_token self) as [tok|]; [|by eapply R].
  case_bool_decide; [by eapply R|].
  case_bool_decide; [by eapply R|].
  destruct (String.eqb _ "draw");
    [exact (S _ (par_sound_parse_draw_command _ _) H)|].
  destruct (String.eqb _ "set");
    [exact (S _ (par_sound_parse_set_command _ _) H)|].
  destruct (String.eqb _ "clear").
  { refine (S _ (par_sound_weaken _ _ _ (par_sound_parse_clear_command _ _) _) H).
    intros c Hc. by apply (par_kind_of_type CLEAR). }
  destruct (String.eqb _ "move").
  { refine (S _ (par_sound_weaken _ _ _ (par_sound_parse_move_command _ _) _) H).
    intros c Hc. by apply (par_kind_of_type MOVE). }
  destruct (String.eqb _ "pen");
    [exact (S _ (par_sound_parse_pen_command _ _) H)|].
  exact (S _ (par_sound_raise_error _ _) H).
Qed.

(** *** The loop of [parse] *)

Lemma par_parsed_wf tokens commands self :
  parsed tokens commands self -> wf self /\ Parser.tokens self = tokens.
Proof.
  induction 1 as [|commands self command self' _ [W T] _ E].
  - split; [apply par_init_wf|done].
  - destruct (par_parse_command_sound _ _ _ W E) as (W' & T' & _).
    split; [done|congruence].
Qed.

Lemma par_parse_loop_mono fuel fuel' commands self r :
  parse_loop fuel commands self = Some r -> (fuel <= fuel')%nat ->
  parse_loop fuel' commands self = Some r.
Proof.
  revert fuel' commands self.
  induction fuel as [|fuel IH]; intros fuel' commands self H L; simpl in H.
  - destruct fuel'; simpl; destruct (more_input self); done.
  - destruct fuel' as [|fuel']; [lia|]. simpl.
    destruct (more_input self); [|done].
    destruct (parse_command self) as [[c|e] self1]; [|done].
    apply IH; [done|lia].
Qed.

(** The budget of [parse] is enough: the loop ends, and it ends with the
    first error if there is one. *)
Lemma par_parse_loop_total fuel commands self :
  wf self -> (length (tokens self) - pos self <= fuel)%nat ->
  exists r, parse_loop fuel commands self = Some r
    /\ match r with
       | Ok commands' =>
           exists new, commands' = (commands ++ new)%list /\ Forall Spec.produced new
       | Raise e =>
           exists self' message,
             wf self' /\ tokens self' = tokens self /\ e = error self' message
       end.
Proof.
  revert commands self.
  induction fuel as [|fuel IH]; intros commands self W L.
  - simpl. destruct (more_input self) eqn:M.
    + apply par_wf_more_input in M; [lia|done].
    + eexists. split; [done|]. exists []. by rewrite app_nil_r.
  - simpl. destruct (more_input self) eqn:M.
    + destruct (parse_command self) as [[c|e] self1] eqn:E.
      * destruct (par_parse_command_sound _ _ _ W E) as (W1 & T1 & L1 & Pc).
        destruct (IH (commands ++ [c])%list self1 W1) as (r & -> & Hr).
        { rewrite T1. lia. }
        eexists. split; [done|]. destruct r as [commands'|e'].
        -- destruct Hr as (new & -> & Hn). exists (c :: new).
           split; [by rewrite <- app_assoc|by constructor].
        -- destruct Hr as (self' & message & W' & T' & ->).
           exists self', message. split; [done|]. split; [congruence|done].
      * destruct (par_parse_command_sound _ _ _ W E) as (W1 & T1 & message & ->).
        eexists. split; [done|]. by exists self1, message.
    + eexists. split; [done|]. exists []. by rewrite app_nil_r.
Qed.

Lemma par_parse_loop_budget fuel fuel' commands self :
  wf self ->
  (length (tokens self) - pos self <= fuel)%nat ->
  (length (tokens self) - pos self <= fuel')%nat ->
  parse_loop fuel commands self = parse_loop fuel' commands self.
Proof.
  intros W L L'.
  destruct (par_parse_loop_total fuel commands self W L) as (r & Hr & _).
  destruct (par_parse_loop_total fuel' commands self W L') as (r' & Hr' & _).
  destruct (Nat.le_ge_cases fuel fuel') as [H|H].
  - rewrite Hr. symmetry. by apply (par_parse_loop_mono fuel).
  - rewrite Hr'. by apply (par_parse_loop_mono fuel').
Qed.

Lemma par_parse_loop_parsed tokens commands self fuel :
  parsed tokens commands self ->
  (length tokens - pos self <= fuel)%nat ->
  parse_loop fuel commands self = parse tokens.
Proof.
  intros Hp. revert fuel.
  induction Hp as [|commands self command self' Hp IH M E]; intros fuel L.
  - apply par_parse_loop_budget; [apply par_init_wf|done|simpl; lia].
  - destruct (par_parsed_wf _ _ _ Hp) as [W T].
    destruct (par_parse_command_sound _ _ _ W E) as (W1 & T1 & L1 & _).
    rewrite <- (IH (S (length tokens))) by lia.
    simpl. rewrite M, E.
    apply par_parse_loop_budget; [done|congruence|rewrite T1, T; lia].
Qed.

(** What [parse] returns. *)
Lemma par_parse_produced tokens commands :
  parse tokens = Some (Ok commands) -> Forall Spec.produced commands.
Proof.
  intros H. unfold parse in H.
  destruct (par_parse_loop_total (length tokens) []
              (init tokens) (par_init_wf _))
    as (r & Hr & R); [simpl; lia|].
  rewrite Hr in H. injection H as ->. by destruct R as (new & -> & Hn).
Qed.

Lemma par_produced_not_fill c :
  Spec.produced c -> Command.command_type c <> FILL.
Proof.
  unfold Spec.produced. intros H E. rewrite E in H.
  repeat (apply elem_of_cons in H as [H|H]; [discriminate|]).
  by apply elem_of_nil in H.
Qed.

End ParserFacts.

(** ** The executor *)

Module ExecutorFacts.
Import DrawingExecutor.

(** *** The steps of a method *)

Lemma exc_bind_Ok {A B} (m : exc A) (k : A -> exc B) (b : B) :
  exc_bind m k = Ok b -> exists a, m = Ok a /\ k a = Ok b.
Proof. destruct m as [a|e]; simpl; [eauto|discriminate]. Qed.

Ltac bind_inv H :=
  repeat match type of H with
  | exc_bind _ _ = Ok _ =>
      let a := fresh "v" in let E := fresh "E" in
      apply exc_bind_Ok in H; destruct H as (a & E & H)
  end.

Lemma coordinate_Ok command key d z :
  int_param (Command.params command) key d = Ok z ->
  Spec.coordinate command key d = Some z.
Proof. unfold Spec.coordinate. intros ->. reflexivity. Qed.

(** *** The command loop *)

Lemma execute_all_app self i cs1 cs2 :
  Interpreter.execute_all self i (cs1 ++ cs2) =
  Interpreter.execute_all (Interpreter.execute_all self i cs1)
    (i + Z.of_nat (length cs1)) cs2.
Proof.
  revert self i. induction cs1 as [|c cs1 IH]; intros self i; simpl.
  - f_equal. lia.
  - destruct (execute _ c) as [ex res]. rewrite IH. f_equal. lia.
Qed.

Lemma execute_all_output self i cs :
  exists lines,
    Interpreter.output (Interpreter.execute_all self i cs)
    = (Interpreter.output self ++ lines)%list
    /\ length lines = length cs.
Proof.
  revert self i. induction cs as [|c cs IH]; intros self i; simpl.
  - exists []. rewrite app_nil_r. done.
  - destruct (execute _ c) as [ex res].
    edestruct IH as (lines & -> & Hl). simpl.
    eexists (_ :: lines). rewrite <- app_assoc. simpl. split; [reflexivity|].
    simpl. by rewrite Hl.
Qed.

(** *** The fill mode *)

Ltac executed H :=
  unfold execute_draw_line, execute_draw_circle, execute_draw_rectangle,
    execute_set_color, execute_clear, execute_move, execute_pen_up,
    execute_pen_down in H;
  bind_inv H;
  try (destruct (default _ _); [discriminate|]);
  injection H as <- _.

Lemma execute_fill_mode self command :
  fill_mode (execute self command).1 = fill_mode self.
Proof.
  unfold execute.
  destruct (execute_body self command) as [[self' msg]|e] eqn:H; [|reflexivity].
  simpl. unfold execute_body in H.
  destruct (Command.command_type command); executed H;
    destruct (fill_mode self) eqn:Ef, (pen_down self) eqn:Ep;
    simpl; rewrite ?Ep; simpl; rewrite ?Ef; reflexivity.
Qed.

Lemma execute_outline self command :
  fill_mode self = false ->
  exists calls,
    canvas (execute self command).1 = (canvas self ++ calls)%list
    /\ Forall Spec.outline_only calls.
Proof.
  intros F. unfold execute.
  destruct (execute_body self command) as [[self' msg]|e] eqn:H;
    [|exists []; by rewrite app_nil_r].
  simpl. unfold execute_body in H.
  destruct (Command.command_type command); executed H; rewrite ?F;
    destruct (pen_down self) eqn:Ep; simpl; rewrite ?Ep; simpl;
    first [ exists []; by rewrite app_nil_r
          | eexists [_]; split; [reflexivity|]; by repeat constructor ].
Qed.

Lemma execute_all_fill_mode app i commands :
  fill_mode (Interpreter.executor app) = false ->
  fill_mode (Interpreter.executor (Interpreter.execute_all app i commands))
  = false
  /\ exists calls,
       canvas (Interpreter.executor (Interpreter.execute_all app i commands))
       = (canvas (Interpreter.executor app) ++ calls)%list
       /\ Forall Spec.outline_only calls.
Proof.
  revert app i. induction commands as [|c cs IH]; intros app i F; simpl.
  - split; [done|]. exists []. by rewrite app_nil_r.
  - pose proof (execute_fill_mode (Interpreter.executor app) c) as Hf.
    destruct (execute_outline (Interpreter.executor app) c F)
      as (calls1 & Hc1 & Ho1).
    destruct (execute (Interpreter.executor app) c) as [ex res]. simpl in *.
    edestruct (IH (Interpreter.append_output
                     (Interpreter.set_executor app ex)
                     ("[" ++ Py.str_int i ++ "] " ++ res)) (i + 1)%Z)
      as (F' & calls2 & Hc2 & Ho2).
    { simpl. congruence. }
    split; [exact F'|]. exists (calls1 ++ calls2)%list.
    split; [|by apply Forall_app].
    rewrite Hc2. simpl. rewrite Hc1. by rewrite app_assoc.
Qed.

(** *** Conversion of coordinates *)

Lemma Zpos_pow2 (k : Z) : (0 <= k)%Z -> Zpos (Z.to_pos (2 ^ k)) = (2 ^ k)%Z.
Proof. intros H. apply Z2Pos.id. by apply Z.pow_pos_nonneg. Qed.

Lemma int_of_float_truncate (f : spec_float) (q : Q) :
  Spec.float_value f = Some q -> Py.int_of_float f = Ok (Spec.truncate q).
Proof.
  destruct f as [s|s| |s m e]; simpl; try discriminate.
  - intros [= <-]. reflexivity.
  - intros [= <-]. f_equal. unfold Spec.truncate.
    destruct (Z.leb_spec 0 e) as [He|He].
    + rewrite Z.shiftl_mul_pow2 by done.
      destruct (Qle_bool _ _); rewrite ?Qfloor_Z, ?Qceiling_Z;
        destruct s; lia.
    + assert (Hk : (0 <= - e)%Z) by lia.
      rewrite Z.shiftr_div_pow2 by done.
      unfold Qle_bool, Qceiling, Qfloor, Qopp. simpl.
      rewrite Zpos_pow2 by done.
      rewrite Z.mul_0_l, Z.mul_1_r.
      destruct s; [|reflexivity].
      replace (0 <=? Z.neg m)%Z with false by reflexivity. reflexivity.
Qed.

Lemma truncate_nonneg (q : Q) : (0 <= q)%Q -> Spec.truncate q = Qfloor q.
Proof.
  intros H. unfold Spec.truncate.
  apply Qle_bool_iff in H. by rewrite H.
Qed.

Lemma truncate_neg (q : Q) :
  (q < 0)%Q -> ~ Spec.is_integer q -> Spec.truncate q = (Qfloor q + 1)%Z.
Proof.
  intros H N. unfold Spec.truncate.
  destruct (Qle_bool 0 q) eqn:L.
  - apply Qle_bool_iff in L. exfalso. by apply (Qlt_not_le _ _ H).
  - destruct q as [a b]. unfold Qceiling, Qfloor, Qopp. simpl.
    unfold Spec.is_integer, Qfloor, Qeq in N. simpl in N.
    assert (Hmod : (a mod Z.pos b <> 0)%Z).
    { intros Hm. apply N.
      rewrite Z.mul_1_r.
      rewrite (Z.div_mod a (Z.pos b)) at 2 by lia. rewrite Hm. lia. }
    rewrite Z.div_opp_l_nz by (lia || done). lia.
Qed.

Lemma int_param_field params key default q :
  Spec.field params key q ->
  int_param params key default = Ok (Spec.truncate q).
Proof.
  intros (f & H & V). unfold int_param. rewrite H. simpl.
  by apply int_of_float_truncate.
Qed.

(** The messages of the eight handlers and of the [except] clause differ
    from the message of the last branch. *)
Lemma execute_known self c :
  Command.command_type c <> FILL ->
  (execute self c).2 <> Spec.unknown_command_message c.
Proof.
  intros Hp. unfold execute, Spec.unknown_command_message.
  destruct (execute_body self c) as [[self' msg]|e] eqn:H;
    simpl.
  - unfold execute_body in H.
    destruct (Command.command_type c); try done;
      unfold execute_draw_line,
        execute_draw_circle,
        execute_draw_rectangle,
        execute_set_color, execute_clear,
        execute_move, execute_pen_up,
        execute_pen_down in H;
      bind_inv H;
      try (destruct (default _ _); [discriminate|]);
      injection H as _ <-; intros Heq; simpl in Heq; discriminate Heq.
  - destruct (Command.command_type c); intros Heq; simpl in Heq;
      discriminate Heq.
Qed.

End ExecutorFacts.

(** ** The whole program *)

(** [execute_commands] ends for every text. *)
Lemma execute_commands_total (app : Interpreter.t) (input_text : string) :
  exists app' : Interpreter.t,
    Interpreter.execute_commands app input_text = Some app'.
Proof.
  unfold Interpreter.execute_commands.
  destruct (String.eqb _ ""); [by eexists|].
  set (source := Interpreter.strip input_text).
  destruct (LexerFacts.lex_tokenize_loop_total
              (S (Lexer.budget (Lexer.init source))) []
              (Lexer.init source) (LexerFacts.lex_init_wf _))
    as (r & Hr & _).
  { pose proof (LexerFacts.lex_left_budget (Lexer.init source)). lia. }
  unfold Lexer.tokenize. rewrite Hr. simpl.
  destruct r as [tokens|e]; [|by eexists].
  destruct (Interpreter.strip_eof tokens) as [|token rest] eqn:E;
    [by eexists|].
  destruct (ParserFacts.par_parse_loop_total (length (token :: rest)) []
              (Parser.init (token :: rest)) (ParserFacts.par_init_wf _))
    as (r & Hr' & _); [simpl; lia|].
  unfold Parser.parse. rewrite Hr'. simpl.
  destruct r; by eexists.
Qed.

(** ** The lexer and the text *)

Module ScanFacts.
Import Lexer LexerInv LexerFacts Scan.

#[local] Opaque KEYWORDS COLORS.

(** *** Strings built character by character *)

Lemma append_snoc (r : string) (c : ascii) (s : string) :
  (r ++ String c "") ++ s = r ++ String c s.
Proof.
  induction r as [|d r IH]; [reflexivity|].
  change (String d ((r ++ String c "") ++ s) = String d (r ++ String c s)).
  by rewrite IH.
Qed.

Lemma append_empty (r : string) : r ++ "" = r.
Proof.
  induction r as [|d r IH]; [reflexivity|].
  change (String d (r ++ "") = String d r). by rewrite IH.
Qed.

(** *** Going over characters *)

Lemma scan_trans a cs b cs' c :
  scan a cs b -> scan b cs' c -> scan a (cs ++ cs') c.
Proof. induction 1; simpl; [done|]. intros. constructor; auto. Qed.

Lemma scan_one a c : current_char a = Some c -> scan a [c] (advance a).
Proof. intros. constructor; [done|constructor]. Qed.

Lemma scan_text a cs b :
  scan a cs b -> text b = text a /\ pos b = (pos a + length cs)%nat.
Proof.
  induction 1 as [a|a c cs b C S [T P]]; simpl; [split; [done|lia]|].
  rewrite lex_advance_text in T. rewrite lex_advance_pos in P.
  split; [done|lia].
Qed.

Lemma scan_wf a cs b : wf a -> scan a cs b -> wf b.
Proof. intros W S. induction S as [|a c cs b C S IH]; [done|]. apply IH, lex_advance_wf. Qed.

Lemma scan_drop a cs b :
  wf a -> scan a cs b ->
  drop (pos a) (text a) = (cs ++ drop (pos b) (text a))%list.
Proof.
  intros W S. induction S as [a|a c cs b C S IH]; [done|].
  rewrite (lex_wf_drop _ _ W C). simpl. f_equal.
  specialize (IH (lex_advance_wf a)).
  by rewrite lex_advance_pos, lex_advance_text in IH.
Qed.

Lemma scan_slice a cs b :
  wf a -> scan a cs b -> Source.slice (text a) (pos a) (pos b) = cs.
Proof.
  intros W S. unfold Source.slice. rewrite (scan_drop a cs b W S).
  destruct (scan_text a cs b S) as [_ ->].
  replace (pos a + length cs - pos a)%nat with (length cs) by lia.
  by rewrite take_app_length.
Qed.

Lemma scan_bound a cs b :
  wf a -> (pos a <= length (text a))%nat -> scan a cs b ->
  (pos b <= length (text a))%nat.
Proof.
  intros W L S. induction S as [a|a c cs b C S IH]; [done|].
  pose proof (lex_wf_char _ _ W C).
  rewrite lex_advance_text in IH. apply IH; [apply lex_advance_wf|].
  rewrite lex_advance_pos. lia.
Qed.

(** *** Lines and columns *)

Lemma locate_app line col s s' :
  Source.locate line col (s ++ s')
  = Source.locate (Source.locate line col s).1 (Source.locate line col s).2 s'.
Proof.
  revert line col. induction s as [|c s IH]; intros line col; simpl; [done|].
  destruct (Ascii.eqb c "010"); apply IH.
Qed.

Lemma located_init source : located (init source).
Proof. done. Qed.

Lemma located_advance a c :
  wf a -> current_char a = Some c -> located a -> located (advance a).
Proof.
  unfold located, Source.position. intros W C L.
  rewrite lex_advance_pos, lex_advance_text.
  rewrite (take_S_r _ _ c) by (by rewrite <- W).
  rewrite locate_app, <- L. simpl.
  destruct (Ascii.eqb_spec c "010") as [->|N].
  - by destruct (lex_advance_new_line a C) as [-> ->].
  - destruct (lex_advance_same_line a c C) as [-> ->]; [|done].
    by apply Ascii.eqb_neq.
Qed.

Lemma scan_located a cs b : wf a -> located a -> scan a cs b -> located b.
Proof.
  intros W L S. induction S as [a|a c cs b C S IH]; [done|].
  apply IH; [apply lex_advance_wf|by apply (located_advance a c)].
Qed.

Lemma scan_same_line a cs b :
  scan a cs b -> Forall (fun c => c <> "010"%char) cs -> line b = line a.
Proof.
  induction 1 as [a|a c cs b C S IH]; [done|].
  intros F. inversion F as [|? ? N F']. subst.
  rewrite IH by done.
  apply (lex_advance_same_line a c C). by apply Ascii.eqb_neq.
Qed.

(** *** What the loops go over *)

Lemma skip_whitespace_loop_scan fuel self self' :
  skip_whitespace_loop fuel self = Some self' ->
  exists cs, scan self cs self'
    /\ Forall (fun c => Py.isspace c = true) cs.
Proof.
  revert self. induction fuel as [|fuel IH]; intros self H; simpl in H;
    destruct (current_char self) as [c|] eqn:C;
    try (injection H as <-; exists []; split; [constructor|constructor]);
    destruct (Py.isspace c) eqn:Sp;
    try discriminate H;
    try (injection H as <-; exists []; split; [constructor|constructor]).
  destruct (IH _ H) as (cs & S & F).
  exists (c :: cs). split; [by constructor|by constructor].
Qed.

Lemma skip_comment_loop_scan fuel self self' :
  skip_comment_loop fuel self = Some self' ->
  exists cs, scan self cs self'
    /\ Forall (fun c => c <> "010"%char) cs
    /\ (current_char self' = None \/ current_char self' = Some "010"%char).
Proof.
  revert self. induction fuel as [|fuel IH]; intros self H; simpl in H;
    destruct (current_char self) as [c|] eqn:C;
    try (injection H as <-; exists []; split; [constructor|];
         split; [constructor|by left]);
    destruct (Ascii.eqb_spec c "010") as [->|N]; simpl in H;
    try discriminate H;
    try (injection H as <-; exists []; split; [constructor|];
         split; [constructor|by right]).
  destruct (IH _ H) as (cs & S & F & E).
  exists (c :: cs). split; [by constructor|]. split; [by constructor|done].
Qed.

Lemma read_identifier_loop_scan fuel result self result' self' :
  read_identifier_loop fuel result self = Some (result', self') ->
  exists cs, scan self cs self'
    /\ result' = result ++ string_of_list_ascii cs
    /\ Forall (fun c => Source.word_char c = true) cs
    /\ match current_char self' with
       | None => True
       | Some c => Source.word_char c = false
       end.
Proof.
  revert result self. unfold Source.word_char.
  induction fuel as [|fuel IH]; intros result self H; simpl in H;
    destruct (current_char self) as [c|] eqn:C;
    try (injection H as <- <-; exists []; rewrite C, append_empty;
         split; [constructor|]; split; [done|]; split; [constructor|done]);
    destruct (Py.isalnum c || Ascii.eqb c "_") eqn:Wc;
    try discriminate H;
    try (injection H as <- <-; exists []; rewrite C, append_empty;
         split; [constructor|]; split; [done|]; split; [constructor|done]).
  destruct (IH _ _ H) as (cs & S & -> & F & E).
  exists (c :: cs). split; [by constructor|].
  split; [by rewrite append_snoc|]. split; [by constructor|done].
Qed.

Lemma read_number_loop_scan fuel result dot_count self result' self' :
  read_number_loop fuel result dot_count self = Some (result', self') ->
  exists cs, scan self cs self'
    /\ result' = result ++ string_of_list_ascii cs
    /\ Forall (fun c => Source.number_char c = true) cs
    /\ ((dot_count <= 1)%nat -> (dot_count + Source.dots cs <= 1)%nat)
    /\ match current_char self' with
       | None => True
       | Some c =>
           Source.number_char c = false
           \/ (c = "."%char /\ (1 <= dot_count + Source.dots cs)%nat)
       end.
Proof.
  revert result dot_count self. unfold Source.number_char.
  induction fuel as [|fuel IH]; intros result dot_count self H; simpl in H;
    destruct (current_char self) as [c|] eqn:C;
    try (injection H as <- <-; exists []; rewrite C, append_empty;
         split; [constructor|]; split; [done|]; split; [constructor|];
         split; [simpl; lia|done]);
    destruct (Py.isdigit c || Ascii.eqb c ".") eqn:Nc;
    try (injection H as <- <-; exists []; rewrite C, append_empty;
         split; [constructor|]; split; [done|]; split; [constructor|];
         split; [simpl; lia|by left]);
    destruct (Ascii.eqb_spec c ".") as [->|N]; simpl in H;
    try case_bool_decide;
    try discriminate H;
    try (injection H as <- <-; exists []; rewrite C, append_empty;
         split; [constructor|]; split; [done|]; split; [constructor|];
         split; [simpl; lia|right; split; [done|simpl; lia]]).
  - destruct (IH _ _ _ H) as (cs & S & -> & F & D & E).
    exists ("."%char :: cs). split; [by constructor|].
    split; [by rewrite append_snoc|].
    split; [constructor; [reflexivity|exact F]|].
    simpl. split; [lia|].
    destruct (current_char self') as [c'|]; [|done].
    destruct E as [E|[-> E]]; [by left|right; split; [done|lia]].
  - destruct (IH _ _ _ H) as (cs & S & -> & F & D & E).
    apply Ascii.eqb_neq in N.
    exists (c :: cs). split; [by constructor|].
    split; [by rewrite append_snoc|].
    split; [constructor; [by rewrite N|exact F]|].
    simpl. rewrite N. simpl. done.
Qed.

Lemma scan_snoc a cs b c :
  scan a cs b -> current_char b = Some c -> scan a (cs ++ [c]) (advance b).
Proof. intros S C. eapply scan_trans; [exact S|by apply scan_one]. Qed.

Lemma read_string_loop_scan fuel result self result' self' :
  read_string_loop fuel result self = Some (Ok (result', self')) ->
  exists cs, scan self cs self'
    /\ result' = result ++ Source.unescape cs
    /\ Source.inside cs = true
    /\ (current_char self' = None \/ current_char self' = Some "034"%char).
Proof.
  revert result self.
  induction fuel as [|fuel IH]; intros result self H; simpl in H;
    destruct (current_char self) as [c|] eqn:C;
    try (injection H as <- <-; exists []; rewrite C, append_empty;
         split; [constructor|]; split; [done|]; split; [done|by left]);
    destruct (Ascii.eqb_spec c "034") as [->|N]; simpl in H;
    try discriminate H;
    try (injection H as <- <-; exists []; rewrite C, append_empty;
         split; [constructor|]; split; [done|]; split; [done|by right]).
  apply Ascii.eqb_neq in N.
  destruct (Ascii.eqb c "\") eqn:B.
  - destruct (current_char (advance self)) as [e|] eqn:C1; [|discriminate].
    assert (H' : read_string_loop fuel
                   (result ++ String (if Ascii.eqb e "n" then "010"%char
                                      else if Ascii.eqb e "t" then "009"%char
                                      else e) "")
                   (advance (advance self)) = Some (Ok (result', self'))).
    { by destruct (Ascii.eqb e "n"), (Ascii.eqb e "t"). }
    destruct (IH _ _ H') as (cs & S & -> & I & E).
    exists (c :: e :: cs). split; [constructor; [done|by constructor]|].
    simpl. rewrite N, B. split; [by rewrite append_snoc|]. done.
  - destruct (IH _ _ H) as (cs & S & -> & I & E).
    exists (c :: cs). split; [by constructor|].
    simpl. rewrite N, B. split; [by rewrite append_snoc|]. done.
Qed.

Lemma read_string_scan self result self' :
  current_char self = Some "034"%char ->
  read_string self = Some (Ok (result, self')) ->
  exists body,
    scan self ("034"%char :: body ++ ["034"%char]) self'
    /\ Source.inside body = true /\ result = Source.unescape body.
Proof.
  intros C H. unfold read_string in H.
  destruct (read_string_loop _ _ _) as [[[res self1]|e]|] eqn:L;
    simpl in H; try discriminate H.
  destruct (read_string_loop_scan _ _ _ _ _ L) as (body & S & -> & I & E).
  destruct (current_char self1) as [c|] eqn:C1; [|discriminate].
  destruct E as [E|E]; [discriminate|]. injection E as ->.
  injection H as <- <-. exists body. split; [|done].
  constructor; [done|]. by apply scan_snoc.
Qed.

(** *** White space and comments *)

Lemma gap_app comment s s' :
  Source.gap comment (s ++ s')
  = match Source.gap comment s with
    | Some comment' => Source.gap comment' s'
    | None => None
    end.
Proof.
  revert comment. induction s as [|c s IH]; intros comment; simpl; [done|].
  destruct comment; [apply IH|].
  destruct (Py.isspace c); [apply IH|].
  destruct (Ascii.eqb c "#"); [apply IH|done].
Qed.

Lemma gap_spaces s :
  Forall (fun c => Py.isspace c = true) s -> Source.gap false s = Some false.
Proof. induction 1 as [|c s Sp F IH]; simpl; [done|]. by rewrite Sp. Qed.

Lemma gap_comment s :
  Forall (fun c => c <> "010"%char) s -> Source.gap true s = Some true.
Proof.
  induction 1 as [|c s N F IH]; simpl; [done|].
  apply Ascii.eqb_neq in N. by rewrite N.
Qed.

Lemma skip_whitespace_scan self self' :
  skip_whitespace self = Some self' ->
  exists cs, scan self cs self' /\ Source.gap false cs = Some false.
Proof.
  intros H. destruct (skip_whitespace_loop_scan _ _ _ H) as (cs & S & F).
  exists cs. split; [done|by apply gap_spaces].
Qed.

Lemma skip_comment_scan self self' :
  current_char self = Some "#"%char ->
  skip_comment self = Some self' ->
  exists cs comment, scan self cs self'
    /\ Source.gap false cs = Some comment
    /\ (comment = true -> current_char self' = None).
Proof.
  intros C H. unfold skip_comment in H.
  destruct (skip_comment_loop _ _) as [self1|] eqn:L; [|discriminate].
  simpl in H. injection H as <-.
  destruct (skip_comment_loop_scan _ _ _ L) as (cs & S & F & E).
  destruct cs as [|c cs].
  { inversion S; subst. destruct E as [E|E]; congruence. }
  inversion S as [|? ? ? ? C' S']; subst.
  assert (c = "#"%char) as -> by congruence.
  inversion F as [|? ? _ F']; subst.
  unfold is_char. destruct E as [E|E]; rewrite E.
  - rewrite bool_decide_eq_false_2 by done.
    exists ("#"%char :: cs), true. split; [done|].
    split; [simpl; by apply gap_comment|done].
  - rewrite bool_decide_eq_true_2 by done.
    exists (("#"%char :: cs) ++ ["010"%char])%list, false.
    split; [by apply scan_snoc|]. split; [|done].
    rewrite gap_app. simpl. by rewrite (gap_comment cs F').
Qed.

(** *** The token that [get_next_token] returns *)

Lemma next_char self :
  wf self ->
  match drop (pos self) (text self) with
  | [] => current_char self = None
  | c :: _ => current_char self = Some c
  end.
Proof.
  intros W. destruct (current_char self) as [c|] eqn:C.
  - by rewrite (lex_wf_drop _ _ W C).
  - by rewrite (lex_wf_drop_nil _ W C).
Qed.

Lemma lexeme_nil next tok : Source.lexeme [] next tok -> Token.type tok = EOF.
Proof.
  unfold Source.lexeme. destruct (Token.type tok); try done.
  - by intros (_ & _ & _ & (c & r & E & _) & _).
  - by intros (_ & _ & _ & (c & r & E & _) & _).
  - by intros (body & E & _).
  - by intros (_ & _ & _ & (c & r & E & _) & _).
  - by intros [E _].
  - by intros [E _].
  - by intros [E _].
  - by intros (c & E & _).
Qed.

Lemma scan_stuck a cs b : current_char a = None -> scan a cs b -> cs = [] /\ b = a.
Proof. intros C S. destruct S; [done|congruence]. Qed.

Lemma token_scanned_later self cs1 self1 comment tok self' :
  scan self cs1 self1 -> Source.gap false cs1 = Some comment ->
  (comment = true -> current_char self1 = None) ->
  token_scanned self1 tok self' -> token_scanned self tok self'.
Proof.
  intros S1 G1 End (skipped & start & cs & comment' & S2 & S3 & G2 & Ce & Lx & Cl & Ln).
  destruct comment.
  - specialize (End eq_refl).
    destruct (scan_stuck _ _ _ End S2) as [-> ->].
    destruct (scan_stuck _ _ _ End S3) as [-> ->].
    exists cs1, self1, [], true. split; [done|]. split; [constructor|].
    split; [done|]. split; [|done]. intros _. by apply (lexeme_nil _ _ Lx).
  - exists (cs1 ++ skipped)%list, start, cs, comment'.
    split; [by eapply scan_trans|]. split; [done|].
    split; [by rewrite gap_app, G1|done].
Qed.

Lemma token_scanned_here self cs tok self' :
  scan self cs self' ->
  Source.lexeme cs (drop (pos self') (text self')) tok ->
  Token.col tok = col self -> Token.line tok = line self' ->
  token_scanned self tok self'.
Proof.
  intros S Lx Cl Ln. exists [], self, cs, false.
  split; [constructor|]. by repeat split.
Qed.

Lemma scan_first a cs b c :
  scan a cs b -> current_char a = Some c -> (pos a < pos b)%nat ->
  exists r, cs = c :: r /\ scan (advance a) r b.
Proof.
  intros S C L. destruct S as [|a c' cs b C' S]; [lia|].
  exists cs. split; [congruence|done].
Qed.

Lemma number_scanned self c num_str self1 :
  wf self -> current_char self = Some c -> starts_number self c = true ->
  read_number self = Some (num_str, self1) ->
  token_scanned self (Token.mk NUMBER num_str (line self1) (col self)) self1.
Proof.
  intros W C St H. unfold read_number in H.
  destruct (lex_read_number_loop_total (budget self) "" 0 self W
              (lex_left_budget _)) as (res & self1' & H' & _ & P).
  rewrite H in H'. injection H' as <- <-.
  assert (L : (pos self < pos self1)%nat).
  { apply (P c C). destruct (lex_starts_number_first _ _ St); auto. }
  destruct (read_number_loop_scan _ _ _ _ _ _ H) as (cs & S & -> & F & D & E).
  destruct (scan_first _ _ _ _ S C L) as (r & -> & S').
  pose proof (scan_wf _ _ _ W S) as W1.
  destruct (scan_text _ _ _ S) as [T1 _].
  apply (token_scanned_here self (c :: r)); [done| |done|done].
  unfold Source.lexeme. simpl Token.type. simpl Token.value.
  split; [done|]. split; [done|]. specialize (D ltac:(lia)).
  split; [exact D|]. split.
  - exists c, r. split; [done|].
    unfold starts_number in St. apply orb_true_iff in St as [St|St]; [by left|].
    right. apply andb_true_iff in St as [St Dg].
    apply andb_true_iff in St as [St Lt].
    apply Ascii.eqb_eq in St. split; [done|].
    destruct (text self !! (pos self + 1)%nat) as [d|] eqn:Ed; [|discriminate].
    exists d. split; [|done].
    pose proof (scan_drop _ _ _ (lex_advance_wf self) S') as Dr.
    rewrite lex_advance_pos, lex_advance_text in Dr.
    rewrite T1, <- Dr, head_lookup, lookup_drop, Nat.add_0_r.
    by rewrite <- Nat.add_1_r.
  - pose proof (next_char self1 W1) as Nx.
    destruct (drop (pos self1) (text self1)) as [|c' next]; [done|].
    rewrite Nx in E. destruct E as [E|[-> E]]; [by left|right].
    split; [done|]. lia.
Qed.

Lemma word_scanned self c identifier self1 :
  wf self -> current_char self = Some c ->
  Py.isalpha c || Ascii.eqb c "_" = true ->
  read_identifier self = Some (identifier, self1) ->
  token_scanned self
    (Token.mk (Source.word_type (Py.lower identifier)) (Py.lower identifier)
       (line self1) (col self)) self1.
Proof.
  intros W C Al H. unfold read_identifier in H.
  destruct (lex_read_identifier_loop_total (budget self) "" self W
              (lex_left_budget _)) as (res & self1' & H' & _ & P).
  rewrite H in H'. injection H' as <- <-.
  assert (L : (pos self < pos self1)%nat)
    by (apply (P c C); by apply lex_isalpha_isalnum).
  destruct (read_identifier_loop_scan _ _ _ _ _ H) as (cs & S & -> & F & E).
  destruct (scan_first _ _ _ _ S C L) as (r & -> & S').
  pose proof (scan_wf _ _ _ W S) as W1.
  apply (token_scanned_here self (c :: r)); [done| |done|done].
  assert (Lx : Token.value
                 (Token.mk (Source.word_type (Py.lower (string_of_list_ascii (c :: r))))
                    (Py.lower (string_of_list_ascii (c :: r)))
                    (line self1) (col self))
               = Py.lower (string_of_list_ascii (c :: r))
               /\ Source.word_type (Py.lower (string_of_list_ascii (c :: r)))
                  = Source.word_type (Py.lower (string_of_list_ascii (c :: r)))
               /\ Forall (fun c => Source.word_char c = true) (c :: r)
               /\ (exists c' r', c :: r = c' :: r'
                     /\ Py.isalpha c' || Ascii.eqb c' "_" = true)
               /\ match drop (pos self1) (text self1) with
                  | [] => True
                  | c' :: _ => Source.word_char c' = false
                  end).
  { split; [done|]. split; [done|]. split; [done|].
    split; [by exists c, r|].
    pose proof (next_char self1 W1) as Nx.
    destruct (drop (pos self1) (text self1)) as [|c' next]; [done|].
    by rewrite Nx in E. }
  unfold Source.lexeme. change ("" ++ ?s) with s.
  simpl Token.type. unfold Source.word_type at 1.
  repeat case_bool_decide; exact Lx.
Qed.

Lemma string_scanned self str_val self1 :
  wf self -> current_char self = Some "034"%char ->
  read_string self = Some (Ok (str_val, self1)) ->
  token_scanned self (Token.mk STRING str_val (line self1) (col self)) self1.
Proof.
  intros W C H.
  destruct (read_string_scan _ _ _ C H) as (body & S & I & ->).
  apply (token_scanned_here self _ _ _ S); [|done|done].
  by exists body.
Qed.

Lemma single_scanned kind c self :
  wf self -> current_char self = Some c ->
  Source.lexeme [c] (drop (S (pos self)) (text self))
    (Token.mk kind (String c "") (line (advance self)) (col self)) ->
  token_scanned self (single kind c self).1 (single kind c self).2.
Proof.
  intros W C Lx. unfold single. simpl.
  apply (token_scanned_here self [c]); [by apply scan_one| |done|done].
  by rewrite lex_advance_pos, lex_advance_text.
Qed.

Lemma starts_number_false self c :
  wf self -> starts_number self c = false ->
  Py.isdigit c = false
  /\ (c = "."%char ->
      match drop (S (pos self)) (text self) with
      | [] => True
      | d :: _ => Py.isdigit d = false
      end).
Proof.
  intros W St. unfold starts_number in St.
  apply orb_false_iff in St as [Dg St]. split; [done|]. intros ->.
  simpl in St. rewrite Nat.add_1_r in St.
  destruct (drop (S (pos self)) (text self)) as [|d next] eqn:Dr; [done|].
  assert (Ld : text self !! S (pos self) = Some d).
  { by rewrite <- (Nat.add_0_r (S (pos self))), <- lookup_drop, Dr. }
  rewrite Ld in St.
  rewrite bool_decide_eq_true_2 in St; [done|].
  apply lookup_lt_is_Some. by eexists.
Qed.

Lemma get_next_token_loop_scanned fuel self tok self' :
  wf self ->
  get_next_token_loop fuel self = Some (Ok (tok, self')) ->
  token_scanned self tok self'.
Proof.
  revert self. induction fuel as [|fuel IH]; intros self W H; simpl in H.
  all: destruct (current_char self) as [c|] eqn:C.
  all: try (injection H as <- <-;
            apply (token_scanned_here self []); [constructor| |done|done];
            unfold Source.lexeme; simpl;
            split; [done|]; split; [by apply lex_wf_drop_nil|done]).
  all: destruct (Py.isspace c) eqn:Sp; [try discriminate H|].
  all: try (destruct (skip_whitespace self) as [self1|] eqn:Sk;
            [|discriminate H]; simpl in H;
            destruct (skip_whitespace_scan _ _ Sk) as (cs1 & S1 & G1);
            apply (token_scanned_later self cs1 self1 false); try done;
            apply IH; [by apply (scan_wf self cs1)|done]).
  all: destruct (Ascii.eqb_spec c "#") as [->|NotHash]; [try discriminate H|].
  all: try (destruct (skip_comment self) as [self1|] eqn:Sk;
            [|discriminate H]; simpl in H;
            destruct (skip_comment_scan _ _ C Sk) as (cs1 & comment & S1 & G1 & E1);
            apply (token_scanned_later self cs1 self1 comment); try done;
            apply IH; [by apply (scan_wf self cs1)|done]).
  all: destruct (starts_number self c) eqn:St;
    [destruct (read_number self) as [[num_str self1]|] eqn:R;
       [|discriminate H];
     simpl in H; injection H as <- <-; by apply (number_scanned self c)|].
  all: destruct (starts_number_false self c W St) as [NotDigit Dot].
  all: destruct (Ascii.eqb_spec c "034") as [->|NotQuote];
    [destruct (read_string self) as [[[str_val self1]|e]|] eqn:R;
       try discriminate H;
     simpl in H; injection H as <- <-; by apply string_scanned|].
  all: destruct (Py.isalpha c || Ascii.eqb c "_") eqn:Al;
    [destruct (read_identifier self) as [[identifier self1]|] eqn:R;
       [|discriminate H];
     simpl in H;
     pose proof (word_scanned self c identifier self1 W C Al R) as Ws;
     unfold Source.word_type in Ws;
     repeat case_bool_decide; injection H as <- <-; exact Ws|].
  all: apply orb_false_iff in Al as [NotAlpha NotUnder];
    apply Ascii.eqb_neq in NotUnder.
  all: destruct (Ascii.eqb_spec c "(") as [->|NotL];
    [injection H as <- <-; by apply (single_scanned LPAREN "(")|].
  all: destruct (Ascii.eqb_spec c ")") as [->|NotR];
    [injection H as <- <-; by apply (single_scanned RPAREN ")")|].
  all: destruct (Ascii.eqb_spec c ",") as [->|NotC];
    [injection H as <- <-; by apply (single_scanned COMMA ",")|].
  all: injection H as <- <-; apply (single_scanned UNKNOWN c); try done;
    exists c; by repeat split.
Qed.

(** *** The tokens of a text *)

Lemma located_col self : located self -> col self = (Source.position (text self) (pos self)).2.
Proof. unfold located. by intros <-. Qed.

Lemma located_line self : located self -> line self = (Source.position (text self) (pos self)).1.
Proof. unfold located. by intros <-. Qed.

Lemma tokenize_loop_covers fuel tokens self result :
  wf self -> located self -> (pos self <= length (text self))%nat ->
  tokenize_loop fuel tokens self = Some (Ok result) ->
  exists new, result = (tokens ++ new)%list
    /\ Source.covers (text self) (pos self) new.
Proof.
  revert tokens self.
  induction fuel as [|fuel IH]; intros tokens self W Lo B H; [discriminate|].
  simpl in H.
  destruct (get_next_token self) as [[[tok self1]|e]|] eqn:G;
    simpl in H; try discriminate H.
  destruct (get_next_token_loop_scanned _ _ _ _ W G)
    as (skipped & start & cs & comment & S1 & S2 & Gp & Ce & Lx & Cl & Ln).
  pose proof (scan_wf _ _ _ W S1) as Ws.
  pose proof (scan_wf _ _ _ Ws S2) as W1.
  pose proof (scan_located _ _ _ W Lo S1) as Los.
  pose proof (scan_located _ _ _ Ws Los S2) as Lo1.
  destruct (scan_text _ _ _ S1) as [Ts Ps].
  destruct (scan_text _ _ _ S2) as [T1 P1]. rewrite Ts in T1.
  pose proof (scan_bound _ _ _ W B S1) as Bs.
  assert (B1 : (pos self1 <= length (text self))%nat).
  { rewrite <- Ts. apply (scan_bound start cs); [done|by rewrite Ts|done]. }
  assert (Sp : Source.spans (text self) (pos start) (pos self1) tok).
  { split; [lia|]. split.
    - rewrite <- Ts at 1. rewrite (scan_slice _ _ _ Ws S2). by rewrite <- T1.
    - rewrite Cl, Ln, (located_col _ Los), (located_line _ Lo1).
      by rewrite Ts, T1. }
  case_bool_decide as Ty.
  - injection H as <-. exists [tok]. split; [done|].
    assert (C1 : cs = [] /\ drop (pos self1) (text self) = []).
    { unfold Source.lexeme in Lx. rewrite Ty, T1 in Lx. by destruct Lx as (? & ? & _). }
    destruct C1 as [-> Dn]. inversion S2; subst.
    assert (Pe : pos self1 = length (text self)).
    { pose proof (f_equal length Dn) as Le.
      rewrite length_drop in Le. simpl in Le. lia. }
    apply Source.covers_eof; [done|done| |by rewrite <- Pe].
    rewrite (scan_drop _ _ _ W S1), Dn, app_nil_r. by rewrite Gp.
  - destruct (IH _ _ W1 Lo1 (eq_ind_r (fun t => (_ <= length t)%nat) B1 T1) H)
      as (new & -> & Cv).
    exists (tok :: new). split; [by rewrite <- app_assoc|].
    rewrite T1 in Cv.
    apply (Source.covers_token _ _ (pos start) (pos self1)); try done; [lia|].
    rewrite (scan_slice _ _ _ W S1).
    destruct comment; [|done]. by specialize (Ce eq_refl).
Qed.

Lemma tokenize_covers source tokens :
  tokenize source = Some (Ok tokens) ->
  Source.covers (list_ascii_of_string source) 0 tokens.
Proof.
  intros H. unfold tokenize in H.
  destruct (tokenize_loop_covers _ _ _ _ (lex_init_wf source)
              (located_init source) ltac:(simpl; lia) H) as (new & -> & Cv).
  exact Cv.
Qed.

(** *** Consequences *)

Lemma position_slice text p q :
  (p <= q)%nat ->
  Source.position text q
  = Source.locate (Source.position text p).1 (Source.position text p).2
      (Source.slice text p q).
Proof.
  intros L. unfold Source.position, Source.slice.
  rewrite <- locate_app, take_take_drop. f_equal. f_equal. lia.
Qed.

Lemma locate_same_line line col s :
  Forall (fun c => c <> "010"%char) s -> (Source.locate line col s).1 = line.
Proof.
  intros F. revert col. induction F as [|c s N F IH]; intros col; simpl; [done|].
  apply Ascii.eqb_neq in N. rewrite N. apply IH.
Qed.

Lemma lexeme_one_line cs next tok :
  Source.lexeme cs next tok -> Token.type tok <> STRING ->
  Forall (fun c => c <> "010"%char) cs.
Proof.
  unfold Source.lexeme. intros Lx Ty.
  assert (Nc : forall l, Forall (fun c => Source.number_char c = true) l ->
                         Forall (fun c => c <> "010"%char) l).
  { intros l F. eapply Forall_impl; [exact F|]. by intros c Hc ->. }
  assert (Wc : forall l, Forall (fun c => Source.word_char c = true) l ->
                         Forall (fun c => c <> "010"%char) l).
  { intros l F. eapply Forall_impl; [exact F|]. by intros c Hc ->. }
  destruct (Token.type tok); try done.
  - destruct Lx as (_ & _ & F & _). by apply Wc.
  - destruct Lx as (_ & F & _). by apply Nc.
  - destruct Lx as (_ & _ & F & _). by apply Wc.
  - destruct Lx as [-> _]. by repeat constructor.
  - destruct Lx as [-> _]. by repeat constructor.
  - destruct Lx as [-> _]. by repeat constructor.
  - destruct Lx as [-> _]. constructor.
  - destruct Lx as (c & -> & _ & Sp & _). constructor; [|constructor].
    intros ->. vm_compute in Sp. discriminate Sp.
Qed.

Lemma slice_nil text p q :
  (p <= q <= length text)%nat -> Source.slice text p q = [] -> q = p.
Proof.
  unfold Source.slice. intros L E. apply (f_equal length) in E.
  rewrite length_take, length_drop in E. simpl in E. lia.
Qed.

(** The tokens of a text, one by one. *)
Lemma covers_spans text p tokens :
  Source.covers text p tokens ->
  Forall (fun tok => exists s q, (p <= s)%nat /\ Source.spans text s q tok)
    tokens.
Proof.
  induction 1 as [p tok Lp Ty G Sp|p s q tok rest Lp Ty G Sp Cv IH].
  - constructor; [|constructor]. by exists (length text), (length text).
  - constructor; [by exists s, q|].
    eapply Forall_impl; [exact IH|]. simpl.
    intros tok' (s' & q' & L' & Sp'). exists s', q'. split; [|done].
    destruct Sp as ((? & ?) & _). lia.
Qed.

Lemma spans_placed text s q tok :
  Source.spans text s q tok ->
  (Token.type tok <> EOF -> (s < q)%nat)
  /\ (Token.type tok <> STRING ->
      Token.line tok = (Source.position text s).1).
Proof.
  intros (L & Lx & Cl & Ln). split.
  - intros Ty. destruct (decide (s = q)) as [->|]; [|lia].
    unfold Source.slice in Lx. rewrite Nat.sub_diag in Lx. simpl in Lx.
    by apply lexeme_nil in Lx.
  - intros Ty. rewrite Ln, (position_slice text s q) by lia.
    apply locate_same_line. by apply (lexeme_one_line _ (drop q text) tok).
Qed.

(** *** The places of the tokens *)

Lemma spans_place text s q tok :
  Source.spans text s q tok -> Source.placed text tok (s, q).
Proof.
  intros Sp. destruct (spans_placed _ _ _ _ Sp) as [Lt Ln].
  split; [exact Sp|]. split; [exact Ln|]. split; [exact Lt|].
  simpl. intros Ty. destruct Sp as (L & Lx & _).
  unfold Source.lexeme in Lx. rewrite Ty in Lx. destruct Lx as (Sl & Dn & _).
  apply slice_nil in Sl; [|done].
  apply (f_equal length) in Dn. rewrite length_drop in Dn. simpl in Dn. lia.
Qed.

Lemma covers_places text p tokens :
  Source.covers text p tokens ->
  exists places : list (nat * nat),
    Forall2 (Source.placed text) tokens places /\ Source.ordered places
    /\ forall a, head places = Some a -> (p <= a.1)%nat.
Proof.
  induction 1 as [p tok Lp Ty G Sp|p s q tok rest Ls Ty G Sp Cv IH].
  - exists [(length text, length text)]. split; [|split].
    + constructor; [by apply spans_place|constructor].
    + intros [|i] a b; simpl; [done|by rewrite lookup_nil].
    + intros a [= <-]. exact Lp.
  - destruct IH as (places & F & O & Hd).
    exists ((s, q) :: places). split; [|split].
    + constructor; [by apply spans_place|exact F].
    + intros [|i] a b; simpl.
      * intros [= <-] Hb. apply Hd. by rewrite <- head_lookup in Hb.
      * apply O.
    + intros a [= <-]. exact Ls.
Qed.

(** *** Words *)

Lemma lower_char_idem c : Py.lower_char (Py.lower_char c) = Py.lower_char c.
Proof. by destruct c as [[] [] [] [] [] [] [] []]. Qed.

Lemma lower_idem s : Py.lower (Py.lower s) = Py.lower s.
Proof.
  induction s as [|c s IH]; simpl; [done|]. by rewrite lower_char_idem, IH.
Qed.

Lemma keywords_are_no_colors : KEYWORDS ## COLORS.
Proof. apply disjoint_intersection_L. by vm_compute. Qed.

Lemma word_type_color lowered :
  Source.word_type lowered = COLOR <-> lowered ∈ COLORS.
Proof.
  unfold Source.word_type. repeat case_bool_decide; split; try done.
  intros Hc. by destruct (keywords_are_no_colors lowered).
Qed.

Lemma word_type_keyword lowered :
  lowered ∈ KEYWORDS -> Source.word_type lowered = KEYWORD.
Proof. unfold Source.word_type. intros H. by rewrite bool_decide_eq_true_2. Qed.

End ScanFacts.

(** ** String literals that are not closed *)

Module LiteralFacts.
Import Lexer LexerInv LexerFacts Scan ScanFacts Literal.

#[local] Opaque KEYWORDS COLORS.

Lemma run_app m a b : run m (a ++ b) = run (run m a) b.
Proof. apply foldl_app. Qed.

Lemma run_gap comment s comment' :
  Source.gap comment s = Some comment' ->
  run (if comment then Comment else Code) s
  = if comment' then Comment else Code.
Proof.
  revert comment. induction s as [|c s IH]; intros comment; simpl.
  - by intros [= <-].
  - destruct comment; simpl.
    + intros H. apply IH in H. by destruct (Ascii.eqb c "010").
    + destruct (Py.isspace c) eqn:Sp.
      * intros H. apply IH in H.
        assert (N : Ascii.eqb c "#" = false /\ Ascii.eqb c "034" = false).
        { revert Sp. by destruct c as [[] [] [] [] [] [] [] []]. }
        destruct N as [-> ->]. exact H.
      * destruct (Ascii.eqb c "#"); [|done]. intros H. by apply IH in H.
Qed.

Lemma run_plain (P : ascii -> bool) s :
  (forall c, P c = true -> Ascii.eqb c "#" = false /\ Ascii.eqb c "034" = false) ->
  Forall (fun c => P c = true) s -> run Code s = Code.
Proof.
  intros N. induction 1 as [|c s Hc F IH]; simpl; [done|].
  destruct (N c Hc) as [-> ->]. exact IH.
Qed.

Lemma number_char_no_quote c :
  Source.number_char c = true ->
  Ascii.eqb c "#" = false /\ Ascii.eqb c "034" = false.
Proof. by destruct c as [[] [] [] [] [] [] [] []]. Qed.

Lemma word_char_no_quote c :
  Source.word_char c = true ->
  Ascii.eqb c "#" = false /\ Ascii.eqb c "034" = false.
Proof. by destruct c as [[] [] [] [] [] [] [] []]. Qed.

(** Inside a string: what the characters up to the closing quote, and the
    characters of a string that is not closed, lead to. *)
Lemma run_inside_closes n s :
  (length s <= n)%nat ->
  (Source.inside s = true -> run Str s = Str)
  /\ (Spec.closes s = false -> run Str s = Str \/ run Str s = Esc).
Proof.
  revert s. induction n as [|n IH]; intros s L.
  { destruct s; [|simpl in L; lia]. simpl. auto. }
  destruct s as [|c s]; [simpl; auto|]. simpl in L. simpl.
  destruct (Ascii.eqb c "034"); [by split|].
  destruct (Ascii.eqb c "\").
  - destruct s as [|d s]; [simpl; split; [done|auto]|].
    simpl. apply IH. simpl in L. lia.
  - apply IH. lia.
Qed.

Lemma run_inside s : Source.inside s = true -> run Str s = Str.
Proof. by apply (run_inside_closes (length s)). Qed.

Lemma run_closes s :
  Spec.closes s = false -> run Str s = Str \/ run Str s = Esc.
Proof. by apply (run_inside_closes (length s)). Qed.

Lemma run_lexeme cs next tok :
  Source.lexeme cs next tok -> Token.type tok <> EOF -> run Code cs = Code.
Proof.
  unfold Source.lexeme. destruct (Token.type tok).
  - intros (_ & _ & F & _) _.
    apply (run_plain Source.word_char); [apply word_char_no_quote|exact F].
  - intros (_ & F & _) _.
    apply (run_plain Source.number_char); [apply number_char_no_quote|exact F].
  - intros (body & -> & I & _) _.
    change (run Str (body ++ ["034"%char]) = Code).
    by rewrite run_app, (run_inside _ I).
  - intros (_ & _ & F & _) _.
    apply (run_plain Source.word_char); [apply word_char_no_quote|exact F].
  - by intros [-> _].
  - by intros [-> _].
  - by intros [-> _].
  - by intros _ N.
  - intros (c & -> & _ & _ & Nh & Nq & _) _. simpl.
    apply Ascii.eqb_neq in Nh, Nq. by rewrite Nh, Nq.
Qed.

Lemma take_add {A} (p n : nat) (l : list A) :
  take (p + n) l = (take p l ++ take n (drop p l))%list.
Proof.
  revert l. induction p as [|p IH]; intros l; [done|].
  destruct l as [|a l]; simpl; [by rewrite take_nil|]. by rewrite IH.
Qed.

Lemma scan_take a cs b :
  wf a -> scan a cs b ->
  take (pos b) (text a) = (take (pos a) (text a) ++ cs)%list.
Proof.
  intros W S. destruct (scan_text _ _ _ S) as [_ ->].
  rewrite take_add, (scan_drop _ _ _ W S). by rewrite take_app_length.
Qed.

(** The text, cut at a quote that opens a string. *)
Lemma unterminated_run text :
  unterminated text -> run Code text = Str \/ run Code text = Esc.
Proof.
  intros (p & [Q C] & N).
  rewrite <- (take_drop p text), run_app, C.
  rewrite (drop_S _ _ _ Q). simpl. by apply run_closes.
Qed.

Lemma covers_run text p tokens :
  Source.covers text p tokens ->
  run Code (drop p text) = Code \/ run Code (drop p text) = Comment.
Proof.
  induction 1 as [p tok Lp Ty [b G] Sp|p s q tok rest Ls Ty G Sp Cv IH].
  - apply (run_gap false) in G. rewrite G. destruct b; auto.
  - destruct Sp as (L & Lx & _).
    assert (D : drop p text
                = (Source.slice text p s ++ Source.slice text s q
                   ++ drop q text)%list).
    { unfold Source.slice.
      rewrite <- (take_drop (s - p) (drop p text)) at 1.
      rewrite drop_drop. replace (p + (s - p))%nat with s by lia.
      f_equal.
      rewrite <- (take_drop (q - s) (drop s text)) at 1.
      rewrite drop_drop. by replace (s + (q - s))%nat with q by lia. }
    rewrite D, !run_app.
    apply (run_gap false) in G. rewrite G.
    by rewrite (run_lexeme _ _ _ Lx Ty).
Qed.

Lemma tokenize_terminated source tokens :
  tokenize source = Some (Ok tokens) ->
  ~ unterminated (list_ascii_of_string source).
Proof.
  intros H U. apply tokenize_covers, covers_run in H.
  apply unterminated_run in U. rewrite drop_0 in H.
  destruct H as [H|H], U as [U|U]; congruence.
Qed.

(** *** The error *)

Lemma read_string_loop_raised fuel result self e :
  read_string_loop fuel result self = Some (Raise e) ->
  exists cs self', scan self cs self' /\ current_char self' = None
    /\ e = Lexer.error self' "Unterminated string".
Proof.
  revert result self. induction fuel as [|fuel IH]; intros result self; simpl;
    destruct (current_char self) as [c|] eqn:C; try done.
  - by destruct (negb (Ascii.eqb c "034")).
  - destruct (negb (Ascii.eqb c "034")); [|done].
    destruct (Ascii.eqb c "\").
    + destruct (current_char (advance self)) as [d|] eqn:D.
      * intros H. destruct (IH _ _ H) as (cs & self' & S & N & ->).
        exists (c :: d :: cs), self'. split; [|done].
        constructor; [done|]. by constructor.
      * intros [= <-]. exists [c], (advance self). split; [|done].
        by apply scan_one.
    + intros H. destruct (IH _ _ H) as (cs & self' & S & N & ->).
      exists (c :: cs), self'. split; [|done]. by constructor.
Qed.

Lemma read_string_raised self e :
  current_char self = Some "034"%char ->
  read_string self = Some (Raise e) ->
  exists cs self', scan self cs self' /\ current_char self' = None
    /\ e = Lexer.error self' "Unterminated string".
Proof.
  intros C. unfold read_string.
  destruct (read_string_loop (budget self) "" (advance self))
    as [[[result self1]|e1]|] eqn:R; simpl; try done.
  - destruct (current_char self1) eqn:C1; [done|]. intros [= <-].
    destruct (read_string_loop_scan _ _ _ _ _ R) as (cs & S & _).
    exists ("034"%char :: cs), self1. split; [|done]. by constructor.
  - intros [= <-].
    destruct (read_string_loop_raised _ _ _ _ R) as (cs & self' & S & N & ->).
    exists ("034"%char :: cs), self'. split; [|done]. by constructor.
Qed.

(** A call of [get_next_token] that raises has skipped white space and
    comments and stands on a quote, where [read_string] raises. *)
Lemma get_next_token_loop_raised fuel self e :
  wf self ->
  get_next_token_loop fuel self = Some (Raise e) ->
  exists skipped start,
    scan self skipped start /\ Source.gap false skipped = Some false
    /\ current_char start = Some "034"%char
    /\ read_string start = Some (Raise e).
Proof.
  revert self. induction fuel as [|fuel IH]; intros self W H; simpl in H.
  all: destruct (current_char self) as [c|] eqn:C; [|discriminate H].
  all: destruct (Py.isspace c) eqn:Sp; [try discriminate H|].
  all: try (destruct (skip_whitespace self) as [self1|] eqn:Sk;
            [|discriminate H]; simpl in H;
            destruct (skip_whitespace_scan _ _ Sk) as (cs1 & S1 & G1);
            destruct (IH self1 (scan_wf _ _ _ W S1) H)
              as (skipped & start & S & G & Q & R);
            exists (cs1 ++ skipped)%list, start;
            split; [by apply (scan_trans _ _ self1)|];
            split; [by rewrite gap_app, G1|done]).
  all: destruct (Ascii.eqb_spec c "#") as [->|NotHash]; [try discriminate H|].
  all: try (destruct (skip_comment self) as [self1|] eqn:Sk;
            [|discriminate H]; simpl in H;
            destruct (skip_comment_scan _ _ C Sk)
              as (cs1 & comment & S1 & G1 & E1);
            destruct (IH self1 (scan_wf _ _ _ W S1) H)
              as (skipped & start & S & G & Q & R);
            exists (cs1 ++ skipped)%list, start;
            split; [by apply (scan_trans _ _ self1)|];
            split; [|done];
            rewrite gap_app, G1; destruct comment; [|done];
            destruct (scan_stuck _ _ _ (E1 eq_refl) S) as [_ ->];
            rewrite (E1 eq_refl) in Q; discriminate Q).
  all: destruct (starts_number self c) eqn:St;
    [by destruct (read_number self) as [[num_str self1]|]|].
  all: destruct (Ascii.eqb_spec c "034") as [->|NotQuote];
    [destruct (read_string self) as [[[str_val self1]|e1]|] eqn:R;
       try discriminate H;
     simpl in H; injection H as <-;
     exists [], self; split; [constructor|]; by repeat split|].
  all: destruct (Py.isalpha c || Ascii.eqb c "_") eqn:Al;
    [destruct (read_identifier self) as [[identifier self1]|] eqn:R;
       [|discriminate H];
     simpl in H; by repeat case_bool_decide|].
  all: by repeat (destruct (Ascii.eqb c _)).
Qed.

Lemma located_error self :
  wf self -> located self -> (pos self <= length (text self))%nat ->
  current_char self = None ->
  Lexer.error self "Unterminated string" = Literal.error (text self).
Proof.
  intros W Lo B N. unfold wf in W. rewrite N in W. symmetry in W.
  apply lookup_ge_None in W.
  assert (P : pos self = length (text self)) by lia.
  unfold Lexer.error, Literal.error.
  by rewrite (located_line _ Lo), (located_col _ Lo), P.
Qed.

Lemma tokenize_loop_raised fuel tokens self e :
  wf self -> located self -> (pos self <= length (text self))%nat ->
  run Code (take (pos self) (text self)) = Code ->
  tokenize_loop fuel tokens self = Some (Raise e) ->
  unterminated (text self) /\ e = Literal.error (text self).
Proof.
  revert tokens self.
  induction fuel as [|fuel IH]; intros tokens self W Lo B Rc H; [discriminate|].
  simpl in H.
  destruct (get_next_token self) as [[[tok self1]|e1]|] eqn:G;
    simpl in H; try discriminate H.
  - case_bool_decide as Ty; [discriminate H|].
    destruct (get_next_token_loop_scanned _ _ _ _ W G)
      as (skipped & start & cs & comment & S1 & S2 & Gp & Ce & Lx & _).
    pose proof (scan_wf _ _ _ W S1) as Ws.
    pose proof (scan_wf _ _ _ Ws S2) as W1.
    pose proof (scan_located _ _ _ W Lo S1) as Los.
    pose proof (scan_located _ _ _ Ws Los S2) as Lo1.
    destruct (scan_text _ _ _ S1) as [Ts Ps].
    destruct (scan_text _ _ _ S2) as [T1 P1]. rewrite Ts in T1.
    pose proof (scan_bound _ _ _ W B S1) as Bs.
    assert (B1 : (pos self1 <= length (text self))%nat).
    { rewrite <- Ts. apply (scan_bound start cs); [done|by rewrite Ts|done]. }
    destruct comment; [by specialize (Ce eq_refl)|].
    rewrite <- T1. apply (IH (tokens ++ [tok])%list); try done.
    + by rewrite T1.
    + rewrite T1. rewrite <- Ts at 1.
      rewrite (scan_take _ _ _ Ws S2), Ts, (scan_take _ _ _ W S1).
      rewrite !run_app, Rc.
      apply (run_gap false) in Gp. rewrite Gp.
      by apply (run_lexeme _ _ _ Lx).
  - injection H as <-.
    destruct (get_next_token_loop_raised _ _ _ W G)
      as (skipped & start & S1 & Gp & Q & R).
    pose proof (scan_wf _ _ _ W S1) as Ws.
    pose proof (scan_located _ _ _ W Lo S1) as Los.
    destruct (scan_text _ _ _ S1) as [Ts Ps].
    pose proof (scan_bound _ _ _ W B S1) as Bs.
    split.
    + exists (pos start). split; [split|].
      * rewrite <- Ts. unfold wf in Ws. by rewrite <- Ws.
      * rewrite (scan_take _ _ _ W S1), run_app, Rc.
        by apply (run_gap false) in Gp.
      * destruct (lex_read_string_total start Ws) as (r & Hr & Out).
        rewrite R in Hr. injection Hr as <-. rewrite <- Ts. by destruct Out.
    + destruct (read_string_raised _ _ Q R) as (cs & self' & S2 & N & ->).
      pose proof (scan_wf _ _ _ Ws S2) as W'.
      pose proof (scan_located _ _ _ Ws Los S2) as Lo'.
      destruct (scan_text _ _ _ S2) as [T' _]. rewrite Ts in T'.
      rewrite <- T'. apply located_error; try done.
      rewrite T', <- Ts. apply (scan_bound start cs); [done|by rewrite Ts|done].
Qed.

Lemma tokenize_raised source e :
  tokenize source = Some (Raise e) ->
  unterminated (list_ascii_of_string source)
  /\ e = Literal.error (list_ascii_of_string source).
Proof.
  intros H. unfold tokenize in H.
  apply (tokenize_loop_raised _ _ _ _ (lex_init_wf source)
           (located_init source)) in H; [done|simpl; lia|done].
Qed.

End LiteralFacts.

(** ** The parser and the grammar *)

Module GrammarFacts.
Import Parser ParserInv ParserFacts ParserView.

Lemma par_rest_current self :
  wf self -> current_token self = head (rest_of self).
Proof.
  unfold wf, rest_of. intros ->. by rewrite head_lookup, lookup_drop, Nat.add_0_r.
Qed.

Lemma drop_S_tail {A} (n : nat) (l : list A) : drop (S n) l = tail (drop n l).
Proof.
  revert l. induction n as [|n IH]; intros [|x l]; try done. apply (IH l).
Qed.

Lemma par_rest_advance self :
  rest_of (advance self) = tail (rest_of self).
Proof. unfold rest_of. simpl. apply drop_S_tail. Qed.

Lemma par_rest_step self tok :
  wf self -> current_token self = Some tok ->
  rest_of self = tok :: rest_of (advance self).
Proof.
  intros W C. rewrite par_rest_advance.
  rewrite (par_rest_current self W) in C.
  by destruct (rest_of self) as [|t r]; [|injection C as ->].
Qed.

Lemma par_reads_nil self : wf self -> reads self [] self.
Proof. intros W. repeat split; [done|]. simpl. lia. Qed.

Lemma par_reads_advance self tok :
  wf self -> current_token self = Some tok -> reads self [tok] (advance self).
Proof.
  intros W C. split; [by apply par_rest_step|].
  split; [apply par_advance_wf|]. split; [done|]. simpl. lia.
Qed.

Lemma par_reads_trans a g1 b g2 c :
  reads a g1 b -> reads b g2 c -> reads a (g1 ++ g2) c.
Proof.
  intros (R1 & W1 & T1 & P1) (R2 & W2 & T2 & P2).
  split; [by rewrite R1, R2, app_assoc|]. split; [done|].
  split; [congruence|]. rewrite length_app. lia.
Qed.

Lemma par_reads_cons a tok b g c :
  reads a [tok] b -> reads b g c -> reads a (tok :: g) c.
Proof. apply par_reads_trans. Qed.

Lemma par_expect_Ok kind self tok self' :
  wf self -> expect kind None self = (Ok tok, self') ->
  reads self [tok] self' /\ Token.type tok = kind.
Proof.
  intros W H. unfold expect in H.
  destruct (current_token self) as [tok'|] eqn:C; [|discriminate].
  case_bool_decide as Ty; [discriminate|].
  injection H as <- <-. split; [by apply par_reads_advance|].
  by destruct (decide (Token.type tok' = kind)).
Qed.

Lemma par_parse_number_Ok self f self' :
  wf self -> parse_number self = (Ok f, self') ->
  exists tok, reads self [tok] self' /\ Grammar.number tok f.
Proof.
  intros W H. unfold parse_number, bind in H.
  destruct (expect NUMBER None self) as [[tok|e] self1] eqn:E; [|discriminate].
  apply par_expect_Ok in E as (R & Ty); [|done].
  destruct (Py.float (Token.value tok)) as [f'|] eqn:F; [|discriminate].
  injection H as <- <-. by exists tok.
Qed.

Lemma par_parse_number_complete self tok rest f :
  wf self -> rest_of self = tok :: rest -> Grammar.number tok f ->
  parse_number self = (Ok f, advance self)
  /\ wf (advance self) /\ rest_of (advance self) = rest.
Proof.
  intros W R [Ty F]. unfold parse_number, bind, expect.
  rewrite (par_rest_current self W), R. simpl.
  rewrite bool_decide_eq_false_2 by (by intros N; apply N).
  rewrite F. split; [done|]. split; [apply par_advance_wf|].
  by rewrite par_rest_advance, R.
Qed.

Ltac numbers H :=
  unfold try_except, bind, raise_error, ret in H;
  repeat match type of H with
  | context [parse_number ?s] =>
      let E := fresh "E" in
      let R := fresh "R" in
      let N := fresh "N" in
      destruct (parse_number s) as [[?|?] ?] eqn:E; [|discriminate H];
      apply par_parse_number_Ok in E as (? & R & N);
        [|first [assumption | eapply proj1, proj2; eassumption]]
  end;
  injection H as <- <-.

Ltac chain :=
  repeat first [ eassumption | eapply par_reads_cons; [eassumption|] ].

Lemma par_parse_draw_line_Ok line col self c self' :
  wf self -> parse_draw_line line col self = (Ok c, self') ->
  exists t1 t2 t3 t4 x1 y1 x2 y2,
    reads self [t1; t2; t3; t4] self'
    /\ Grammar.number t1 x1 /\ Grammar.number t2 y1
    /\ Grammar.number t3 x2 /\ Grammar.number t4 y2
    /\ c = Command.mk DRAW_LINE
             (<["y2" := PyFloat y2]> (<["x2" := PyFloat x2]>
               (<["y1" := PyFloat y1]> (<["x1" := PyFloat x1]> ∅)))) line col.
Proof.
  intros W H. unfold parse_draw_line in H. numbers H.
  do 8 eexists. split; [chain|].
  repeat (split; [eassumption|]). reflexivity.
Qed.

Lemma par_parse_draw_circle_Ok line col self c self' :
  wf self -> parse_draw_circle line col self = (Ok c, self') ->
  exists t1 t2 t3 x y radius,
    reads self [t1; t2; t3] self'
    /\ Grammar.number t1 x /\ Grammar.number t2 y /\ Grammar.number t3 radius
    /\ c = Command.mk DRAW_CIRCLE
             (<["radius" := PyFloat radius]> (<["y" := PyFloat y]>
               (<["x" := PyFloat x]> ∅))) line col.
Proof.
  intros W H. unfold parse_draw_circle in H. numbers H.
  do 6 eexists. split; [chain|].
  repeat (split; [eassumption|]). reflexivity.
Qed.

Lemma par_parse_draw_rectangle_Ok line col self c self' :
  wf self -> parse_draw_rectangle line col self = (Ok c, self') ->
  exists t1 t2 t3 t4 x y width height,
    reads self [t1; t2; t3; t4] self'
    /\ Grammar.number t1 x /\ Grammar.number t2 y
    /\ Grammar.number t3 width /\ Grammar.number t4 height
    /\ c = Command.mk DRAW_RECTANGLE
             (<["height" := PyFloat height]> (<["width" := PyFloat width]>
               (<["y" := PyFloat y]> (<["x" := PyFloat x]> ∅)))) line col.
Proof.
  intros W H. unfold parse_draw_rectangle in H. numbers H.
  do 8 eexists. split; [chain|].
  repeat (split; [eassumption|]). reflexivity.
Qed.

Lemma par_parse_move_command_Ok line col self c self' :
  wf self -> parse_move_command line col self = (Ok c, self') ->
  exists t1 t2 x y,
    reads self [t1; t2] self'
    /\ Grammar.number t1 x /\ Grammar.number t2 y
    /\ c = Command.mk MOVE (<["y" := PyFloat y]> (<["x" := PyFloat x]> ∅))
             line col.
Proof.
  intros W H. unfold parse_move_command in H. numbers H.
  do 4 eexists. split; [chain|].
  repeat (split; [eassumption|]). reflexivity.
Qed.

Lemma par_parse_draw_command_Ok kw self c self' :
  wf self ->
  parse_draw_command (Token.line kw) (Token.col kw) self = (Ok c, self') ->
  Grammar.keyword kw "draw" ->
  exists group, Grammar.derives (kw :: group) c /\ reads self group self'.
Proof.
  intros W H K. unfold parse_draw_command in H.
  destruct (current_token self) as [shape|] eqn:C; [|discriminate].
  case_bool_decide as Ty; [discriminate|].
  assert (Ty' : Token.type shape = KEYWORD)
    by (by destruct (decide (Token.type shape = KEYWORD))).
  pose proof (par_reads_advance _ _ W C) as R.
  pose proof (par_advance_wf self) as W1.
  destruct (String.eqb_spec (Token.value shape) "line") as [V|_].
  { apply par_parse_draw_line_Ok in H
      as (t1 & t2 & t3 & t4 & x1 & y1 & x2 & y2 & R' & N1 & N2 & N3 & N4 & ->);
      [|done].
    exists [shape; t1; t2; t3; t4]. split; [by constructor|].
    by apply (par_reads_cons _ _ _ _ _ R). }
  destruct (String.eqb_spec (Token.value shape) "circle") as [V|_].
  { apply par_parse_draw_circle_Ok in H
      as (t1 & t2 & t3 & x & y & radius & R' & N1 & N2 & N3 & ->);
      [|done].
    exists [shape; t1; t2; t3]. split; [by constructor|].
    by apply (par_reads_cons _ _ _ _ _ R). }
  destruct (String.eqb_spec (Token.value shape) "rectangle") as [V|_];
    [|discriminate].
  apply par_parse_draw_rectangle_Ok in H
    as (t1 & t2 & t3 & t4 & x & y & w & h & R' & N1 & N2 & N3 & N4 & ->);
    [|done].
  exists [shape; t1; t2; t3; t4]. split; [by constructor|].
  by apply (par_reads_cons _ _ _ _ _ R).
Qed.

Lemma par_parse_set_command_Ok kw self c self' :
  wf self ->
  parse_set_command (Token.line kw) (Token.col kw) self = (Ok c, self') ->
  Grammar.keyword kw "set" ->
  exists group, Grammar.derives (kw :: group) c /\ reads self group self'.
Proof.
  intros W H K. unfold parse_set_command in H.
  destruct (current_token self) as [word|] eqn:C; [|discriminate].
  case_bool_decide as V; [discriminate|].
  assert (V' : Token.value word = "color")
    by (by destruct (decide (Token.value word = "color"))).
  pose proof (par_reads_advance _ _ W C) as R.
  pose proof (par_advance_wf self) as W1.
  destruct (current_token (advance self)) as [name|] eqn:C1; [|discriminate].
  pose proof (par_reads_advance _ _ W1 C1) as R1.
  destruct (bool_decide (Token.type name = COLOR)
            || bool_decide (Token.type name = STRING)) eqn:Ty; [|discriminate].
  injection H as <- <-.
  exists [word; name]. split.
  - apply Grammar.derives_set_color; [done|done|].
    apply orb_true_iff in Ty as [Ty|Ty]; apply bool_decide_eq_true in Ty; auto.
  - by apply (par_reads_cons _ _ _ _ _ R).
Qed.

Lemma par_parse_pen_command_Ok kw self c self' :
  wf self ->
  parse_pen_command (Token.line kw) (Token.col kw) self = (Ok c, self') ->
  Grammar.keyword kw "pen" ->
  exists group, Grammar.derives (kw :: group) c /\ reads self group self'.
Proof.
  intros W H K. unfold parse_pen_command in H.
  destruct (current_token self) as [word|] eqn:C; [|discriminate].
  pose proof (par_reads_advance _ _ W C) as R.
  destruct (String.eqb_spec (Token.value word) "up") as [V|_].
  { injection H as <- <-. exists [word]. split; [by constructor|done]. }
  destruct (String.eqb_spec (Token.value word) "down") as [V|_]; [|discriminate].
  injection H as <- <-. exists [word]. split; [by constructor|done].
Qed.

(** A command that [parse_command] returns is the command of the tokens
    that it has read. *)
Lemma par_parse_command_Ok self c self' :
  wf self -> parse_command self = (Ok c, self') ->
  exists group, Grammar.derives group c /\ reads self group self'.
Proof.
  intros W H. unfold parse_command in H.
  destruct (current_token self) as [kw|] eqn:C; [|discriminate].
  case_bool_decide as NotEof; [discriminate|].
  case_bool_decide as Ty; [discriminate|].
  assert (Ty' : Token.type kw = KEYWORD)
    by (by destruct (decide (Token.type kw = KEYWORD))).
  pose proof (par_reads_advance _ _ W C) as R.
  pose proof (par_advance_wf self) as W1.
  assert (G : forall group,
            Grammar.derives (kw :: group) c /\ reads (advance self) group self' ->
            exists group, Grammar.derives group c /\ reads self group self').
  { intros group (D & R'). exists (kw :: group).
    split; [done|]. by apply (par_reads_cons _ _ _ _ _ R). }
  destruct (String.eqb_spec (Token.value kw) "draw") as [V|_].
  { destruct (par_parse_draw_command_Ok kw _ _ _ W1 H) as (g & ?); [done|].
    by apply (G g). }
  destruct (String.eqb_spec (Token.value kw) "set") as [V|_].
  { destruct (par_parse_set_command_Ok kw _ _ _ W1 H) as (g & ?); [done|].
    by apply (G g). }
  destruct (String.eqb_spec (Token.value kw) "clear") as [V|_].
  { injection H as <- <-. apply (G []). split; [by constructor|].
    by apply par_reads_nil. }
  destruct (String.eqb_spec (Token.value kw) "move") as [V|_].
  { apply par_parse_move_command_Ok in H
      as (t1 & t2 & x & y & R' & N1 & N2 & ->); [|done].
    apply (G [t1; t2]). split; [by constructor|done]. }
  destruct (String.eqb_spec (Token.value kw) "pen") as [V|_]; [|discriminate].
  destruct (par_parse_pen_command_Ok kw _ _ _ W1 H) as (g & ?); [done|].
  by apply (G g).
Qed.

(** *** What a method makes of the tokens of a command *)
Lemma par_current self tok rest :
  wf self -> rest_of self = tok :: rest ->
  current_token self = Some tok /\ wf (advance self)
  /\ rest_of (advance self) = rest.
Proof.
  intros W R. rewrite (par_rest_current self W), par_rest_advance, R.
  split; [done|]. split; [apply par_advance_wf|done].
Qed.

Ltac feed :=
  unfold try_except, bind, ret;
  repeat match goal with
  | W : wf ?s, R : rest_of ?s = ?t :: _, N : Grammar.number ?t ?f
    |- context [parse_number ?s] =>
      let W' := fresh "W" in
      let R' := fresh "R" in
      destruct (par_parse_number_complete s t _ f W R N) as (-> & W' & R')
  end.

Lemma par_parse_command_complete self group c rest :
  wf self -> Grammar.derives group c ->
  rest_of self = (group ++ rest)%list ->
  exists self', parse_command self = (Ok c, self') /\ wf self'
    /\ rest_of self' = rest.
Proof.
  intros W D R. unfold parse_command.
  destruct D; simpl in R;
    match goal with
    | K : Grammar.keyword ?kw _ |- _ =>
        destruct K as [Ty V];
        destruct (par_current _ _ _ W R) as (-> & W1 & R1);
        rewrite Ty, V; simpl
    end.
  - unfold parse_draw_command.
    destruct H0 as [Ty' V'].
    destruct (par_current _ _ _ W1 R1) as (-> & W2 & R2).
    rewrite Ty', V'. simpl. unfold parse_draw_line. feed. by eexists.
  - unfold parse_draw_command.
    destruct H0 as [Ty' V'].
    destruct (par_current _ _ _ W1 R1) as (-> & W2 & R2).
    rewrite Ty', V'. simpl. unfold parse_draw_circle. feed. by eexists.
  - unfold parse_draw_command.
    destruct H0 as [Ty' V'].
    destruct (par_current _ _ _ W1 R1) as (-> & W2 & R2).
    rewrite Ty', V'. simpl. unfold parse_draw_rectangle. feed. by eexists.
  - unfold parse_set_command. cbv zeta.
    destruct (par_current _ _ _ W1 R1) as (-> & W2 & R2).
    destruct (par_current _ _ _ W2 R2) as (-> & W3 & R3).
    rewrite H0. destruct H1 as [-> | ->]; simpl; by eexists.
  - unfold parse_clear_command, ret. by eexists.
  - unfold parse_move_command. feed. by eexists.
  - unfold parse_pen_command.
    destruct (par_current _ _ _ W1 R1) as (-> & W2 & R2).
    rewrite H0. simpl. by eexists.
  - unfold parse_pen_command.
    destruct (par_current _ _ _ W1 R1) as (-> & W2 & R2).
    rewrite H0. simpl. by eexists.
Qed.

(** *** The loop of [parse] and the grammar *)
Lemma par_derives_head group c :
  Grammar.derives group c ->
  exists kw rest, group = kw :: rest /\ Token.type kw = KEYWORD.
Proof.
  intros D. destruct D;
    repeat match goal with
    | K : Grammar.keyword _ _ |- _ => destruct K as [? _]
    end;
    do 2 eexists; (split; [reflexivity|assumption]).
Qed.

Lemma par_more_input_rest self :
  wf self ->
  more_input self
  = match rest_of self with
    | tok :: _ => bool_decide (Token.type tok <> EOF)
    | [] => false
    end.
Proof.
  intros W. unfold more_input. rewrite (par_rest_current self W).
  by destruct (rest_of self).
Qed.

Lemma par_parse_loop_Ok fuel commands self result :
  wf self -> parse_loop fuel commands self = Some (Ok result) ->
  exists groups new rest,
    result = (commands ++ new)%list /\ Forall2 Grammar.derives groups new
    /\ rest_of self = (concat groups ++ rest)%list /\ Grammar.ended rest.
Proof.
  revert commands self.
  induction fuel as [|fuel IH]; intros commands self W H; simpl in H;
    rewrite (par_more_input_rest self W) in H.
  - destruct (rest_of self) as [|tok r] eqn:R.
    + injection H as <-. exists [], [], []. by rewrite app_nil_r.
    + case_bool_decide as Ty; [discriminate|]. injection H as <-.
      exists [], [], (tok :: r). rewrite app_nil_r. repeat split; [constructor|].
      simpl. by destruct (decide (Token.type tok = EOF)).
  - destruct (rest_of self) as [|tok r] eqn:R.
    + injection H as <-. exists [], [], []. by rewrite app_nil_r.
    + case_bool_decide as Ty.
      * destruct (parse_command self) as [[c|e] self1] eqn:E; [|discriminate].
        destruct (par_parse_command_Ok _ _ _ W E) as (g & D & R' & W' & _).
        destruct (IH _ _ W' H) as (groups & new & rest & -> & F & R1 & En).
        exists (g :: groups), (c :: new), rest.
        split; [by rewrite <- app_assoc|]. split; [by constructor|].
        split; [|done]. rewrite <- R, R', R1. simpl. by rewrite app_assoc.
      * injection H as <-.
        exists [], [], (tok :: r). rewrite app_nil_r. repeat split; [constructor|].
        simpl. by destruct (decide (Token.type tok = EOF)).
Qed.

Lemma par_parse_loop_complete groups new :
  Forall2 Grammar.derives groups new ->
  forall fuel commands self rest,
    wf self -> rest_of self = (concat groups ++ rest)%list ->
    Grammar.ended rest -> (length groups <= fuel)%nat ->
    parse_loop fuel commands self = Some (Ok (commands ++ new)%list).
Proof.
  induction 1 as [|g c groups new D F IH]; intros fuel commands self rest W R En L.
  - simpl in R. rewrite app_nil_r.
    assert (M : more_input self = false).
    { rewrite (par_more_input_rest self W), R. destruct rest as [|tok r]; [done|].
      simpl in En. by rewrite bool_decide_eq_false_2 by (by intros N; apply N). }
    destruct fuel; simpl; by rewrite M.
  - destruct fuel as [|fuel]; [simpl in L; lia|].
    simpl in R. rewrite <- app_assoc in R.
    assert (M : more_input self = true).
    { rewrite (par_more_input_rest self W), R.
      destruct (par_derives_head g c D) as (kw & r & -> & Ty). simpl.
      apply bool_decide_eq_true_2. by rewrite Ty. }
    simpl. rewrite M.
    destruct (par_parse_command_complete _ _ _ _ W D R) as (self1 & -> & W1 & R1).
    rewrite (IH fuel (commands ++ [c])%list self1 rest W1 R1 En) by (simpl in L; lia).
    by rewrite <- app_assoc.
Qed.

Lemma par_groups_length (groups : list (list Token.t)) (new : list Command.t) :
  Forall2 Grammar.derives groups new ->
  (length groups <= length (concat groups))%nat.
Proof.
  induction 1 as [|g c groups new D F IH]; simpl; [lia|].
  destruct (par_derives_head g c D) as (kw & r & -> & _).
  rewrite length_app. simpl. lia.
Qed.

Lemma par_rest_init tokens : rest_of (init tokens) = tokens.
Proof. done. Qed.

(** *** Consequences *)
Lemma par_derives_arity group c :
  Grammar.derives group c ->
  length group = Grammar.arity (Command.command_type c).
Proof. by intros []. Qed.

Lemma par_derives_position group c :
  Grammar.derives group c ->
  exists kw rest, group = kw :: rest /\ Token.type kw = KEYWORD
    /\ Command.line c = Token.line kw /\ Command.col c = Token.col kw.
Proof.
  intros D. destruct D;
    repeat match goal with
    | K : Grammar.keyword _ _ |- _ => destruct K as [? _]
    end;
    do 2 eexists; (split; [reflexivity|]); (split; [assumption|done]).
Qed.

Lemma par_groups_arity groups commands :
  Forall2 Grammar.derives groups commands ->
  length (concat groups)
  = sum_list (Grammar.arity ∘ Command.command_type <$> commands).
Proof.
  induction 1 as [|g c groups new D F IH]; simpl; [done|].
  by rewrite length_app, IH, (par_derives_arity g c D).
Qed.

Lemma par_ended_nil (tokens rest : list Token.t) :
  Forall (fun tok => Token.type tok <> EOF) (tokens ++ rest) ->
  Grammar.ended rest -> rest = [].
Proof.
  intros F En. destruct rest as [|tok r]; [done|].
  rewrite Forall_app in F. destruct F as [_ F]. by inversion F.
Qed.

Lemma par_derives_well_formed group c :
  Grammar.derives group c -> Shape.well_formed c.
Proof.
  intros D. destruct D; split; simpl;
    try reflexivity.
  all: intros key v Hv;
    repeat (apply lookup_insert_Some in Hv as [[_ <-]|[_ Hv]]; [done|]);
    try (apply lookup_singleton_Some in Hv as [_ <-]; done);
    by rewrite lookup_empty in Hv.
Qed.

Lemma par_parse_derives tokens commands :
  parse tokens = Some (Ok commands) ->
  Forall (fun c => exists group, Grammar.derives group c) commands.
Proof.
  intros H. unfold parse in H.
  destruct (par_parse_loop_Ok _ _ _ _ (par_init_wf tokens) H)
    as (groups & new & rest & -> & Fd & _). simpl. clear H.
  induction Fd; constructor; eauto.
Qed.

Lemma par_similar_current a b : similar a b -> current_token a = current_token b.
Proof.
  intros (Wa & Wb & R). by rewrite (par_rest_current a Wa), (par_rest_current b Wb), R.
Qed.

Lemma par_similar_advance a b : similar a b -> similar (advance a) (advance b).
Proof.
  intros (Wa & Wb & R). split; [apply par_advance_wf|].
  split; [apply par_advance_wf|]. by rewrite !par_rest_advance, R.
Qed.

Lemma par_similar_error a b message :
  similar a b -> error a message = error b message.
Proof. intros S. unfold error. by rewrite (par_similar_current a b S). Qed.

Lemma par_uniform_ret {A} (x : A) : uniform (ret x).
Proof. intros a b r a' S [= <- <-]. by exists b. Qed.

Lemma par_uniform_raise_error {A} message : uniform (@raise_error A message).
Proof.
  intros a b r a' S [= <- <-]. exists b. split; [|done].
  unfold raise_error. by rewrite (par_similar_error a b message S).
Qed.

Lemma par_uniform_bind {A B} (m : M A) (k : A -> M B) :
  uniform m -> (forall x, uniform (k x)) -> uniform (bind m k).
Proof.
  intros Hm Hk a b r a' S H. unfold bind in *.
  destruct (m a) as [[x|e] a1] eqn:E.
  - destruct (Hm _ _ _ _ S E) as (b1 & -> & S1). by apply (Hk x a1).
  - injection H as <- <-. destruct (Hm _ _ _ _ S E) as (b1 & -> & S1).
    by exists b1.
Qed.

Lemma par_uniform_try_except {A} (body handler : M A) :
  uniform body -> uniform handler -> uniform (try_except body handler).
Proof.
  intros Hb Hh a b r a' S H. unfold try_except in *.
  destruct (body a) as [[x|e] a1] eqn:E.
  - injection H as <- <-. destruct (Hb _ _ _ _ S E) as (b1 & -> & S1).
    by exists b1.
  - destruct (Hb _ _ _ _ S E) as (b1 & -> & S1). by apply (Hh a1).
Qed.

Lemma par_uniform_expect kind value : uniform (expect kind value).
Proof.
  intros a b r a' S H. unfold expect in *.
  rewrite <- (par_similar_current a b S).
  destruct (current_token a) as [tok|];
    [|exact (par_uniform_raise_error _ _ _ _ _ S H)].
  case_bool_decide; [exact (par_uniform_raise_error _ _ _ _ _ S H)|].
  destruct value as [v|].
  - case_bool_decide; [exact (par_uniform_raise_error _ _ _ _ _ S H)|].
    injection H as <- <-. eexists. split; [done|]. by apply par_similar_advance.
  - injection H as <- <-. eexists. split; [done|]. by apply par_similar_advance.
Qed.

Lemma par_uniform_parse_number : uniform parse_number.
Proof.
  unfold parse_number. apply par_uniform_bind; [apply par_uniform_expect|].
  intros tok. destruct (Py.float _);
    [apply par_uniform_ret|apply par_uniform_raise_error].
Qed.

Ltac uniform_steps :=
  repeat first
    [ apply par_uniform_parse_number
    | apply par_uniform_raise_error
    | apply par_uniform_ret
    | apply par_uniform_try_except
    | apply par_uniform_bind; [|intros ?] ].

Lemma par_uniform_parse_draw_line line col : uniform (parse_draw_line line col).
Proof. unfold parse_draw_line. uniform_steps. Qed.

Lemma par_uniform_parse_draw_circle line col :
  uniform (parse_draw_circle line col).
Proof. unfold parse_draw_circle. uniform_steps. Qed.

Lemma par_uniform_parse_draw_rectangle line col :
  uniform (parse_draw_rectangle line col).
Proof. unfold parse_draw_rectangle. uniform_steps. Qed.

Lemma par_uniform_parse_move_command line col :
  uniform (parse_move_command line col).
Proof. unfold parse_move_command. uniform_steps. Qed.

(** The outcomes of a method written with tests of the current token. *)
Ltac outcome S H :=
  first
    [ exact (par_uniform_raise_error _ _ _ _ _ S H)
    | exact (par_uniform_raise_error _ _ _ _ _ (par_similar_advance _ _ S) H)
    | exact (par_uniform_raise_error _ _ _ _ _
               (par_similar_advance _ _ (par_similar_advance _ _ S)) H)
    | injection H as <- <-; eexists; split; [reflexivity|];
      repeat apply par_similar_advance; exact S ].

Lemma par_uniform_parse_draw_command line col :
  uniform (parse_draw_command line col).
Proof.
  intros a b r a' S H. unfold parse_draw_command in *.
  rewrite <- (par_similar_current a b S).
  destruct (current_token a) as [tok|]; [|outcome S H].
  case_bool_decide; [outcome S H|].
  pose proof (par_similar_advance a b S) as S1.
  destruct (String.eqb _ "line");
    [exact (par_uniform_parse_draw_line _ _ _ _ _ _ S1 H)|].
  destruct (String.eqb _ "circle");
    [exact (par_uniform_parse_draw_circle _ _ _ _ _ _ S1 H)|].
  destruct (String.eqb _ "rectangle");
    [exact (par_uniform_parse_draw_rectangle _ _ _ _ _ _ S1 H)|].
  outcome S H.
Qed.

Lemma par_uniform_parse_set_command line col :
  uniform (parse_set_command line col).
Proof.
  intros a b r a' S H. unfold parse_set_command in *.
  rewrite <- (par_similar_current a b S).
  destruct (current_token a) as [tok|]; [|outcome S H].
  case_bool_decide; [outcome S H|].
  pose proof (par_similar_advance a b S) as S1.
  rewrite <- (par_similar_current _ _ S1).
  destruct (current_token (advance a)) as [tok'|]; [|outcome S H].
  destruct (_ || _); outcome S H.
Qed.

Lemma par_uniform_parse_pen_command line col :
  uniform (parse_pen_command line col).
Proof.
  intros a b r a' S H. unfold parse_pen_command in *.
  rewrite <- (par_similar_current a b S).
  destruct (current_token a) as [tok|]; [|outcome S H].
  destruct (String.eqb _ "up"); [outcome S H|].
  destruct (String.eqb _ "down"); outcome S H.
Qed.

Lemma par_uniform_parse_command : uniform parse_command.
Proof.
  intros a b r a' S H. unfold parse_command in *.
  rewrite <- (par_similar_current a b S).
  destruct (current_token a) as [tok|]; [|outcome S H].
  case_bool_decide; [outcome S H|].
  case_bool_decide; [outcome S H|].
  pose proof (par_similar_advance a b S) as S1.
  destruct (String.eqb _ "draw");
    [exact (par_uniform_parse_draw_command _ _ _ _ _ _ S1 H)|].
  destruct (String.eqb _ "set");
    [exact (par_uniform_parse_set_command _ _ _ _ _ _ S1 H)|].
  destruct (String.eqb _ "clear");
    [exact (par_uniform_ret _ _ _ _ _ S1 H)|].
  destruct (String.eqb _ "move");
    [exact (par_uniform_parse_move_command _ _ _ _ _ _ S1 H)|].
  destruct (String.eqb _ "pen");
    [exact (par_uniform_parse_pen_command _ _ _ _ _ _ S1 H)|].
  outcome S H.
Qed.

Lemma par_similar_more_input a b : similar a b -> more_input a = more_input b.
Proof. intros S. unfold more_input. by rewrite (par_similar_current a b S). Qed.

Lemma par_parse_loop_similar fuel commands a b :
  similar a b -> parse_loop fuel commands a = parse_loop fuel commands b.
Proof.
  revert commands a b. induction fuel as [|fuel IH]; intros commands a b S; simpl;
    rewrite <- (par_similar_more_input a b S); [done|].
  destruct (more_input a); [|done].
  destruct (parse_command a) as [r a1] eqn:E.
  destruct (par_uniform_parse_command _ _ _ _ S E) as (b1 & -> & S1).
  destruct r; [|done]. by apply IH.
Qed.

Lemma par_parse_loop_prefix groups new :
  Forall2 Grammar.derives groups new ->
  forall fuel commands self rest,
    ParserInv.wf self -> rest_of self = (concat groups ++ rest)%list ->
    exists self',
      ParserInv.wf self' /\ rest_of self' = rest
      /\ parse_loop (length groups + fuel) commands self
         = parse_loop fuel (commands ++ new)%list self'.
Proof.
  induction 1 as [|g c groups new D F IH]; intros fuel commands self rest W R.
  - exists self. rewrite app_nil_r. done.
  - simpl in R. rewrite <- app_assoc in R.
    assert (M : more_input self = true).
    { rewrite (par_more_input_rest self W), R.
      destruct (par_derives_head g c D) as (kw & r & -> & Ty). simpl.
      apply bool_decide_eq_true_2. by rewrite Ty. }
    destruct (par_parse_command_complete _ _ _ _ W D R) as (self1 & E & W1 & R1).
    destruct (IH fuel (commands ++ [c])%list self1 rest W1 R1)
      as (self' & W' & R' & L').
    exists self'. split; [done|]. split; [done|].
    simpl. rewrite M, E, L'. by rewrite <- app_assoc.
Qed.

Lemma par_parse_loop_acc fuel pre commands self :
  parse_loop fuel (pre ++ commands)%list self
  = prepend pre (parse_loop fuel commands self).
Proof.
  revert commands self. induction fuel as [|fuel IH]; intros commands self; simpl;
    destruct (more_input self); try done.
  destruct (parse_command self) as [[c|e] self1]; [|done].
  by rewrite <- app_assoc, IH.
Qed.

Lemma par_parse_grammar tokens commands :
  parse tokens = Some (Ok commands)
  <-> exists groups rest,
        tokens = (concat groups ++ rest)%list
        /\ Forall2 Grammar.derives groups commands
        /\ Grammar.ended rest.
Proof.
  split.
  - intros H. unfold parse in H.
    destruct (par_parse_loop_Ok _ _ _ _ (par_init_wf tokens) H)
      as (groups & new & rest & -> & F & R & En).
    by exists groups, rest.
  - intros (groups & rest & -> & F & En). unfold parse.
    rewrite (par_parse_loop_complete groups commands F _ [] _ rest
               (par_init_wf _) (par_rest_init _) En); [done|].
    pose proof (par_groups_length _ _ F). rewrite length_app. lia.
Qed.

Lemma par_derives_tokens group c :
  Grammar.derives group c ->
  Forall (fun tok => Token.type tok <> EOF \/ Token.value tok <> "") group.
Proof.
  intros D. destruct D;
    repeat match goal with
    | K : Grammar.keyword _ _ |- _ => destruct K as [? ?]
    | K : Grammar.number _ _ |- _ => destruct K as [? ?]
    | K : _ \/ _ |- _ => destruct K
    end;
    rewrite ?Forall_cons, Forall_nil; repeat split;
    first [ left; congruence | right; congruence ].
Qed.

Lemma par_groups_tokens groups commands :
  Forall2 Grammar.derives groups commands ->
  Forall (fun tok => Token.type tok <> EOF \/ Token.value tok <> "")
    (concat groups).
Proof.
  induction 1 as [|g c groups new D F IH]; simpl; [constructor|].
  apply Forall_app. split; [by apply (par_derives_tokens g c)|done].
Qed.

Lemma snoc_eq_middle {A} (l1 l2 r : list A) (x y : A) :
  (l1 ++ [x])%list = (l2 ++ y :: r)%list ->
  (r = [] /\ l1 = l2 /\ x = y) \/ y ∈ l1.
Proof.
  destruct r as [|z r _] using rev_ind.
  - intros H. apply app_inj_tail in H as [-> ->]. by left.
  - intros H. rewrite app_comm_cons, app_assoc in H.
    apply app_inj_tail in H as [-> _]. right. set_solver.
Qed.

Lemma par_parse_with_eof front eof commands :
  Forall (fun tok => Token.type tok <> EOF) front ->
  Token.type eof = EOF -> Token.value eof = "" ->
  parse (front ++ [eof]) = Some (Ok commands)
  <-> parse front = Some (Ok commands).
Proof.
  intros F Ty V. rewrite !par_parse_grammar. split.
  - intros (groups & rest & E & Fd & En).
    exists groups, []. split; [|done].
    pose proof (par_groups_tokens _ _ Fd) as Ft.
    destruct rest as [|tok r].
    + rewrite app_nil_r in E. rewrite <- E in Ft.
      rewrite Forall_app in Ft. destruct Ft as [_ Ft].
      inversion Ft as [|? ? [N|N] _]; congruence.
    + apply snoc_eq_middle in E as [(_ & -> & _)|In]; [by rewrite app_nil_r|].
      rewrite Forall_forall in F. by destruct (F tok In).
  - intros (groups & rest & E & Fd & En).
    subst front. rewrite (par_ended_nil _ _ F En), app_nil_r.
    exists groups, [eof]. by repeat split.
Qed.

Lemma par_derives_numbers group c key f :
  Grammar.derives group c ->
  Command.params c !! key = Some (PyFloat f) ->
  exists t, t ∈ group /\ Grammar.number t f.
Proof.
  intros D. destruct D; simpl; intros Hv;
    repeat (apply lookup_insert_Some in Hv as [[_ Hv]|[_ Hv]];
            [injection Hv as <-; eexists; split; [|eassumption];
             repeat (apply elem_of_cons; first [by left | right])|]);
    try (apply lookup_singleton_Some in Hv as [_ Hv]; discriminate Hv);
    by rewrite lookup_empty in Hv.
Qed.

Lemma par_parse_numbers tokens commands :
  Parser.parse tokens = Some (Ok commands) ->
  Forall
    (fun c =>
       Shape.well_formed c
       /\ forall key f,
            Command.params c !! key = Some (PyFloat f) ->
            exists t, t ∈ tokens /\ Grammar.number t f)
    commands.
Proof.
  intros H. apply par_parse_grammar in H as (groups & rest & -> & Fd & _).
  induction Fd as [|g c groups new D F IH]; [constructor|].
  constructor.
  - split; [by apply (par_derives_well_formed g)|].
    intros key f Hv.
    destruct (par_derives_numbers g c key f D Hv) as (t & In & N).
    exists t. split; [|done]. simpl. rewrite !elem_of_app. auto.
  - eapply Forall_impl; [exact IH|]. simpl.
    intros c' [Wf Hc']. split; [done|]. intros key f Hv.
    destruct (Hc' key f Hv) as (t & In & N). exists t. split; [|done].
    simpl. rewrite !elem_of_app in *. tauto.
Qed.

End GrammarFacts.

(** ** The faults of the commands of the grammar *)

Module FaultFacts.
Import DrawingExecutor Faults.

Lemma guarded_bind {A B} (m : exc A) (k : A -> exc B) :
  guarded m -> (forall a, guarded (k a)) -> guarded (exc_bind m k).
Proof. destruct m; simpl; auto. Qed.

Lemma guarded_int_float f : guarded (int (PyFloat f)).
Proof. destruct f; simpl; unfold number_fault; auto. Qed.

Lemma par_derives_faults group c self :
  Grammar.derives group c -> guarded (execute_body self c).
Proof.
  intros D. unfold execute_body.
  destruct D; simpl; try done;
    unfold execute_draw_line, execute_draw_circle, execute_draw_rectangle,
      execute_move, int_param;
    repeat (rewrite lookup_insert || rewrite lookup_insert_ne by done);
    repeat (apply guarded_bind; [apply guarded_int_float|intros ?]);
    done.
Qed.

End FaultFacts.

(** ** The executor, command by command *)

Module FrameFacts.
Import DrawingExecutor ExecutorFacts.

Ltac run H :=
  unfold execute_draw_line, execute_draw_circle, execute_draw_rectangle,
    execute_set_color, execute_clear, execute_move, execute_pen_up,
    execute_pen_down in H;
  bind_inv H;
  try (destruct (default _ _); [discriminate|]);
  injection H as <- <-.

(** One step of the command loop. *)
Lemma execute_all_cons self i c cs :
  Interpreter.execute_all self i (c :: cs)
  = Interpreter.execute_all
      (Interpreter.mk (execute (Interpreter.executor self) c).1
         (Interpreter.output self
          ++ [("[" ++ Py.str_int i ++ "] "
               ++ (execute (Interpreter.executor self) c).2)%string])%list)
      (i + 1) cs.
Proof. simpl. by destruct (execute _ c). Qed.

Lemma execute_stroke self command :
  exists calls,
    canvas (execute self command).1 = (canvas self ++ calls)%list
    /\ Forall (fun c => forall s, Frame.stroke c = Some s -> s = current_color self)
         calls.
Proof.
  unfold execute.
  destruct (execute_body self command) as [[self' msg]|e] eqn:H; simpl;
    [|exists []; by rewrite app_nil_r].
  unfold execute_body in H.
  destruct (Command.command_type command); run H;
    destruct (fill_mode self) eqn:Ef, (pen_down self) eqn:Ep;
    simpl; rewrite ?Ep; simpl;
    first [ exists []; by rewrite app_nil_r
          | eexists [_]; split; [reflexivity|];
            repeat constructor; simpl; congruence ].
Qed.

Lemma get_color_table name : Frame.table_color (get_color name).
Proof.
  unfold get_color, Frame.table_color.
  destruct (COLOR_MAP !! Py.lower name) as [s|] eqn:E; simpl.
  - by exists (Py.lower name).
  - by exists "black".
Qed.

Lemma execute_table_color self command :
  Frame.table_color (current_color self) ->
  Frame.table_color (current_color (execute self command).1).
Proof.
  intros T. unfold execute.
  destruct (execute_body self command) as [[self' msg]|e] eqn:H; simpl; [|done].
  unfold execute_body in H.
  destruct (Command.command_type command); run H;
    destruct (fill_mode self) eqn:Ef, (pen_down self) eqn:Ep;
    simpl; rewrite ?Ep; simpl; try done; apply get_color_table.
Qed.

Lemma execute_all_table_color app i commands :
  Frame.table_color (current_color (Interpreter.executor app)) ->
  let app' := Interpreter.execute_all app i commands in
  Frame.table_color (current_color (Interpreter.executor app'))
  /\ exists calls,
       canvas (Interpreter.executor app')
       = (canvas (Interpreter.executor app) ++ calls)%list
       /\ Forall (fun c => forall s, Frame.stroke c = Some s -> Frame.table_color s)
            calls.
Proof.
  revert app i. induction commands as [|c cs IH]; intros app i T.
  - simpl. split; [done|]. exists []. by rewrite app_nil_r.
  - rewrite execute_all_cons.
    pose proof (execute_table_color _ c T) as T1.
    destruct (execute_stroke (Interpreter.executor app) c) as (calls1 & Hc1 & Hs1).
    match goal with
    | |- context [Interpreter.execute_all ?a _ cs] =>
        destruct (IH a (i + 1)%Z T1) as (T2 & calls2 & Hc2 & Hs2)
    end.
    split; [exact T2|]. exists (calls1 ++ calls2)%list.
    split.
    + rewrite Hc2. simpl. rewrite Hc1. by rewrite app_assoc.
    + apply Forall_app. split; [|done].
      eapply Forall_impl; [exact Hs1|]. simpl. intros call Hcall s Hs.
      by rewrite (Hcall s Hs).
Qed.

Lemma execute_move_to self command x y :
  Command.command_type command = MOVE ->
  Spec.terminal_point command = Some (x, y) ->
  (execute self command).1
  = set_pen
      (if pen_down self
       then call self (create_line (pen_x self) (pen_y self) x y
                         (current_color self) 2)
       else self) x y.
Proof.
  unfold Spec.terminal_point, Spec.coordinate, execute, execute_body.
  intros ->. unfold execute_move.
  destruct (int_param _ "x" 0) as [x'|]; [|discriminate].
  destruct (int_param _ "y" 0) as [y'|]; [|discriminate].
  simpl. by intros [= -> ->].
Qed.

Lemma state_after_snoc self cs c :
  Frame.state_after self (cs ++ [c])
  = (execute (Frame.state_after self cs) c).1.
Proof. unfold Frame.state_after. by rewrite foldl_app. Qed.

End FrameFacts.

(** ** The integers of the numeric fields *)

Module FieldFacts.
Import DrawingExecutor.

Lemma device_int f :
  Py.int_of_float f
  = match Fields.device f with
    | Some z => Ok z
    | None =>
        Raise (match f with
               | S754_nan => "cannot convert float NaN to integer"
               | _ => "cannot convert float infinity to integer"
               end)
    end.
Proof.
  unfold Fields.device.
  destruct (Spec.float_value f) as [q|] eqn:V; simpl.
  - by apply ExecutorFacts.int_of_float_truncate.
  - by destruct f.
Qed.

Lemma int_param_float params key default f :
  params !! key = Some (PyFloat f) ->
  int_param params key default = Py.int_of_float f.
Proof. unfold int_param. by intros ->. Qed.

Lemma line_fields x1 y1 x2 y2 d :
  int_param (Fields.line x1 y1 x2 y2) "x1" d = Py.int_of_float x1
  /\ int_param (Fields.line x1 y1 x2 y2) "y1" d = Py.int_of_float y1
  /\ int_param (Fields.line x1 y1 x2 y2) "x2" d = Py.int_of_float x2
  /\ int_param (Fields.line x1 y1 x2 y2) "y2" d = Py.int_of_float y2.
Proof. repeat split; by apply int_param_float. Qed.

Lemma circle_fields x y radius d :
  int_param (Fields.circle x y radius) "x" d = Py.int_of_float x
  /\ int_param (Fields.circle x y radius) "y" d = Py.int_of_float y
  /\ int_param (Fields.circle x y radius) "radius" d = Py.int_of_float radius.
Proof. repeat split; by apply int_param_float. Qed.

Lemma rectangle_fields x y width height d :
  int_param (Fields.rectangle x y width height) "x" d = Py.int_of_float x
  /\ int_param (Fields.rectangle x y width height) "y" d = Py.int_of_float y
  /\ int_param (Fields.rectangle x y width height) "width" d
     = Py.int_of_float width
  /\ int_param (Fields.rectangle x y width height) "height" d
     = Py.int_of_float height.
Proof. repeat split; by apply int_param_float. Qed.

Lemma move_fields x y d :
  int_param (Fields.move x y) "x" d = Py.int_of_float x
  /\ int_param (Fields.move x y) "y" d = Py.int_of_float y.
Proof. repeat split; by apply int_param_float. Qed.

End FieldFacts.

(** ** The floats of the numbers of a text *)

Module FloatFacts.
Import Unsigned.

Lemma iter_pos_invariant {A} (P : A -> Prop) (f : A -> A) :
  (forall x, P x -> P (f x)) -> forall n x, P x -> P (SpecFloat.iter_pos f n x).
Proof. intros Hf. induction n; intros x Hx; simpl; auto. Qed.

Lemma shr_1_nonneg mrs : (0 <= shr_m mrs)%Z -> (0 <= shr_m (shr_1 mrs))%Z.
Proof.
  destruct mrs as [m r s]. simpl. intros H.
  destruct m as [|p|p]; [done| |lia]. by destruct p.
Qed.

Lemma shr_fexp_nonneg prec emax m e l :
  (0 <= m)%Z -> (0 <= shr_m (shr_fexp prec emax m e l).1)%Z.
Proof.
  intros H. unfold shr_fexp, shr.
  assert (H0 : (0 <= shr_m (shr_record_of_loc m l))%Z)
    by (by destruct l as [|[]]).
  destruct (_ - e)%Z; simpl; try done.
  apply (iter_pos_invariant (fun mrs => (0 <= shr_m mrs)%Z));
    [apply shr_1_nonneg|exact H0].
Qed.

Lemma round_nearest_even_nonneg m l :
  (0 <= m)%Z -> (0 <= round_nearest_even m l)%Z.
Proof.
  intros H. unfold round_nearest_even.
  destruct l as [|[]]; try done; [|lia]. destruct (Z.even m); lia.
Qed.

Lemma binary_round_aux_unsigned prec emax m e l :
  (0 <= m)%Z -> unsigned (binary_round_aux prec emax false m e l).
Proof.
  intros H. unfold binary_round_aux.
  pose proof (shr_fexp_nonneg prec emax m e l H) as H1.
  destruct (shr_fexp prec emax m e l) as [mrs' e']. simpl in H1.
  pose proof (shr_fexp_nonneg prec emax _ e' loc_Exact
                (round_nearest_even_nonneg _ (loc_of_shr_record mrs') H1)) as H2.
  destruct (shr_fexp prec emax _ e' loc_Exact) as [mrs'' e'']. simpl in H2.
  destruct (shr_m mrs''); [done| |lia]. by destruct (_ <=? _)%Z.
Qed.

Lemma binary_round_unsigned prec emax m e :
  unsigned (binary_round prec emax false m e).
Proof.
  unfold binary_round. destruct (shl_align _ _ _) as [mz ez].
  by apply binary_round_aux_unsigned.
Qed.

Lemma float_of_decimal_unsigned d e :
  (0 <= d)%Z -> unsigned (Py.float_of_decimal false d e).
Proof.
  intros H. unfold Py.float_of_decimal. destruct d as [|p|p]; [done| |lia].
  destruct (0 <=? e)%Z eqn:He.
  - apply Z.leb_le in He.
    pose proof (Z.pow_pos_nonneg 10 e ltac:(lia) He) as Hp.
    destruct (Z.pos p * 10 ^ e)%Z eqn:Hm; [lia| |lia].
    apply binary_round_unsigned.
  - apply Z.leb_gt in He.
    destruct (SFdiv_core_binary 53 1024 (Z.pos p) 0 (10 ^ (- e)) 0)
      as [[q e'] l] eqn:Hd.
    apply binary_round_aux_unsigned.
    unfold SFdiv_core_binary in Hd.
    pose proof (Z.pow_pos_nonneg 10 (- e) ltac:(lia) ltac:(lia)) as Hp.
    set (m' := match _ with 0%Z => _ | Z.pos _ => _ | Z.neg _ => _ end) in Hd.
    assert (Hm : (0 <= m')%Z).
    { unfold m'. destruct (_ - _)%Z; [done| |done].
      by apply Z.shiftl_nonneg. }
    pose proof (Z.div_pos m' (10 ^ (- e)) Hm Hp) as Hq.
    unfold Z.div in Hq.
    destruct (Z.div_eucl m' (10 ^ (- e))) as [q' r'].
    by injection Hd as <- _ _.
Qed.

(** *** [float] of the characters of a number *)

Lemma number_char_plain c :
  Source.number_char c = true ->
  Ascii.eqb c "_" = false /\ Py.is_literal_space c = false
  /\ Ascii.eqb c "-" = false /\ Ascii.eqb c "+" = false
  /\ Ascii.eqb (Py.lower_char c) "i" = false
  /\ Ascii.eqb (Py.lower_char c) "n" = false.
Proof. by destruct c as [[] [] [] [] [] [] [] []]. Qed.

Lemma drop_underscores_number prev cs :
  Ascii.eqb prev "_" = false ->
  Forall (fun c => Source.number_char c = true) cs ->
  Py.drop_underscores prev cs = Some cs.
Proof.
  intros Hp F. revert prev Hp.
  induction F as [|c cs Hc F IH]; intros prev Hp; simpl; [by rewrite Hp|].
  destruct (number_char_plain c Hc) as (U & _).
  rewrite U, Hp. simpl. by rewrite (IH c U).
Qed.

Lemma lstrip_number cs :
  Forall (fun c => Source.number_char c = true) cs -> Py.lstrip cs = cs.
Proof.
  intros F. destruct F as [|c cs Hc F]; simpl; [done|].
  destruct (number_char_plain c Hc) as (_ & -> & _). done.
Qed.

Lemma strip_number cs :
  Forall (fun c => Source.number_char c = true) cs -> Py.strip cs = cs.
Proof.
  intros F. unfold Py.strip. rewrite (lstrip_number cs F).
  rewrite lstrip_number by (by apply Forall_rev). apply rev_involutive.
Qed.

Lemma float_number cs :
  Forall (fun c => Source.number_char c = true) cs ->
  Py.float (string_of_list_ascii cs) = Py.parse_decimal false cs.
Proof.
  intros F. unfold Py.float.
  rewrite list_ascii_of_string_of_list_ascii.
  rewrite (drop_underscores_number "000"%char cs eq_refl F), (strip_number cs F).
  destruct F as [|c cs Hc F]; [done|].
  destruct (number_char_plain c Hc) as (_ & _ & M & P & I & N).
  unfold Py.split_sign. rewrite M, P. simpl. by rewrite I, N.
Qed.

Lemma span_digits_spec s :
  s = ((Py.span_digits s).1 ++ (Py.span_digits s).2)%list
  /\ Forall (fun c => Py.isdecimal c = true) (Py.span_digits s).1
  /\ match (Py.span_digits s).2 with
     | [] => True
     | c :: _ => Py.isdecimal c = false
     end.
Proof.
  induction s as [|c s (E & F & R)]; simpl; [done|].
  destruct (Py.isdecimal c) eqn:D.
  - destruct (Py.span_digits s) as [ds rest]. simpl in *.
    split; [by f_equal|]. split; [by constructor|done].
  - simpl. by rewrite D.
Qed.

Lemma digits_val_nonneg acc ds :
  (0 <= acc)%Z -> Forall (fun c => Py.isdecimal c = true) ds ->
  (0 <= Py.digits_val acc ds)%Z.
Proof.
  intros Ha F. revert acc Ha.
  induction F as [|c ds Hc F IH]; intros acc Ha; simpl; [done|].
  apply IH. unfold Py.isdecimal, Py.between in Hc.
  apply andb_true_iff in Hc as [Hc _]. apply N.leb_le in Hc.
  unfold Py.digit_val. lia.
Qed.

Lemma parse_decimal_unsigned s f :
  Py.parse_decimal false s = Some f -> unsigned f.
Proof.
  unfold Py.parse_decimal.
  destruct (span_digits_spec s) as (_ & Fi & _).
  destruct (Py.span_digits s) as [ip rest]. simpl in Fi.
  set (sp := match rest with
             | [] => ([], [])
             | c :: r => if Ascii.eqb c "." then Py.span_digits r else ([], rest)
             end).
  assert (Ff : Forall (fun c => Py.isdecimal c = true) sp.1).
  { unfold sp. destruct rest as [|c r]; [constructor|].
    destruct (Ascii.eqb c "."); [|constructor].
    by destruct (span_digits_spec r) as (_ & ? & _). }
  destruct sp as [fp rest'].
  assert (Fd : Forall (fun c => Py.isdecimal c = true) (ip ++ fp)%list)
    by (by apply Forall_app).
  destruct (ip ++ fp)%list as [|d ds] eqn:Ed; [done|].
  destruct (Py.parse_exponent rest'); [|done].
  intros H. apply (inj Some) in H. rewrite <- H.
  apply float_of_decimal_unsigned. by apply digits_val_nonneg.
Qed.

Lemma dots_app a b : Source.dots (a ++ b) = (Source.dots a + Source.dots b)%nat.
Proof. induction a as [|c a IH]; simpl; [done|]. rewrite IH. lia. Qed.

Lemma parse_decimal_accepts cs :
  Forall (fun c => Py.isdecimal c = true \/ c = "."%char) cs ->
  (Source.dots cs <= 1)%nat ->
  Exists (fun c => Py.isdecimal c = true) cs ->
  is_Some (Py.parse_decimal false cs).
Proof.
  intros F D Ex. unfold Py.parse_decimal.
  destruct (span_digits_spec cs) as (E & Fi & R).
  destruct (Py.span_digits cs) as [ip rest]. simpl in E, Fi, R.
  destruct rest as [|c r].
  - rewrite app_nil_r in *. subst ip.
    destruct cs as [|d ds]; [by inversion Ex|]. simpl. by eexists.
  - assert (c = "."%char) as ->.
    { rewrite E, Forall_app in F. destruct F as [_ F].
      inversion F as [|? ? [Hc|Hc] _]; [congruence|done]. }
    simpl.
    destruct (span_digits_spec r) as (E' & Ff & R').
    destruct (Py.span_digits r) as [fp rest']. simpl in E', Ff, R'.
    destruct rest' as [|c' r'].
    + rewrite app_nil_r in E'. subst r.
      destruct (ip ++ fp)%list as [|d ds] eqn:Ed; [|simpl; by eexists].
      apply app_eq_nil in Ed as [-> ->]. subst cs.
      inversion Ex as [? ? Hc|? ? Hc]; [done|by inversion Hc].
    + exfalso. assert (c' = "."%char) as ->.
      { rewrite E, E', !Forall_app in F. destruct F as [_ F].
        inversion F as [|? ? _ F']. rewrite Forall_app in F'.
        destruct F' as [_ F'].
        inversion F' as [|? ? [Hc|Hc] _]; [congruence|done]. }
      rewrite E, E' in D. rewrite dots_app in D. simpl in D.
      rewrite dots_app in D. simpl in D. lia.
Qed.

Lemma number_lexeme_float cs next tok :
  Source.lexeme cs next tok -> Token.type tok = NUMBER ->
  (forall f, Py.float (Token.value tok) = Some f -> unsigned f)
  /\ (Forall (fun c => Py.isdecimal c = true \/ c = "."%char)
        (list_ascii_of_string (Token.value tok)) ->
      is_Some (Py.float (Token.value tok))).
Proof.
  unfold Source.lexeme. intros Lx Ty. rewrite Ty in Lx.
  destruct Lx as (-> & F & D & (c & r & -> & St) & Stop).
  rewrite (float_number _ F). split.
  - intros f. apply parse_decimal_unsigned.
  - rewrite list_ascii_of_string_of_list_ascii. intros Fa.
    apply parse_decimal_accepts; [done|done|].
    assert (Dg : forall d, Py.isdigit d = true ->
                   Py.isdecimal d = true \/ d = "."%char ->
                   Py.isdecimal d = true).
    { intros d Hd [?| ->]; [done|discriminate Hd]. }
    inversion Fa as [|? ? Hc Fr]; subst.
    destruct St as [St|[-> (d & Hd & Dd)]].
    + apply Exists_cons_hd. by apply Dg.
    + apply Exists_cons_tl. destruct r as [|d' r'].
      * simpl in Hd. destruct next as [|d'' next']; [discriminate|].
        injection Hd as ->. unfold Source.number_char in Stop.
        rewrite Dd in Stop. destruct Stop as [?|[-> _]]; discriminate.
      * injection Hd as ->. apply Exists_cons_hd.
        inversion Fr; subst. by apply Dg.
Qed.

Lemma unsigned_int f z :
  unsigned f -> Py.int_of_float f = Ok z -> (0 <= z)%Z.
Proof.
  destruct f as [s|s| |s m e]; simpl; try done.
  - by intros _ [= <-].
  - intros -> [= <-]. destruct (0 <=? e)%Z eqn:He.
    + apply Z.shiftl_nonneg. lia.
    + apply Z.shiftr_nonneg. lia.
Qed.

Lemma unsigned_fault f e :
  unsigned f -> Py.int_of_float f = Raise e ->
  e = "cannot convert float infinity to integer".
Proof. destruct f as [s|s| |s m e']; simpl; try done. by intros _ [= <-]. Qed.

End FloatFacts.

(** ** The runs of the application *)

Module SessionFacts.
Import Interpreter.

Lemma lstrip_spaces l :
  Forall (fun c => Py.isspace c = true) l -> Interpreter.lstrip l = [].
Proof. induction 1 as [|c l Hc F IH]; simpl; [done|]. by rewrite Hc. Qed.

Lemma strip_spaces s :
  Forall (fun c => Py.isspace c = true) (list_ascii_of_string s) ->
  Interpreter.strip s = "".
Proof. intros F. unfold Interpreter.strip. by rewrite (lstrip_spaces _ F). Qed.

Lemma execute_commands_cases (app : t) (input_text : string) :
  exists app', execute_commands app input_text = Some app'
    /\ (app' = append_output app "No commands to execute"
        \/ app' = mk (executor app) (Session.header ++ ["No valid tokens found"])
        \/ (exists e,
              app' = mk (executor app) (Session.header ++ [("Error: " ++ e)%string])
              /\ (Lexer.tokenize (strip input_text) = Some (Raise e)
                  \/ exists tokens,
                       Lexer.tokenize (strip input_text) = Some (Ok tokens)
                       /\ Parser.parse (strip_eof tokens) = Some (Raise e)))
        \/ (exists tokens commands,
              Lexer.tokenize (strip input_text) = Some (Ok tokens)
              /\ Parser.parse (strip_eof tokens) = Some (Ok commands)
              /\ app' = Session.ran app commands)).
Proof.
  unfold execute_commands.
  destruct (String.eqb _ ""); [eexists; split; [done|by left]|].
  set (source := strip input_text).
  destruct (LexerFacts.lex_tokenize_loop_total
              (S (Lexer.budget (Lexer.init source))) []
              (Lexer.init source) (LexerFacts.lex_init_wf _))
    as (r & Hr & _).
  { pose proof (LexerFacts.lex_left_budget (Lexer.init source)). lia. }
  unfold Lexer.tokenize. rewrite Hr. simpl.
  destruct r as [tokens|e].
  2:{ eexists; split; [done|]. right; right; left. exists e. split; [done|by left]. }
  destruct (strip_eof tokens) as [|token rest] eqn:E.
  { eexists; split; [done|]. by right; left. }
  destruct (ParserFacts.par_parse_loop_total (length (token :: rest)) []
              (Parser.init (token :: rest)) (ParserFacts.par_init_wf _))
    as (r & Hr' & _); [simpl; lia|].
  unfold Parser.parse. rewrite Hr'. simpl.
  destruct r as [commands|e].
  - eexists; split; [done|]. right; right; right. exists tokens, commands.
    rewrite E. by repeat split.
  - eexists; split; [done|]. right; right; left. exists e. split; [done|].
    right. exists tokens. by rewrite E.
Qed.

End SessionFacts.

(** ** From the text to the executor *)

Module PipelineFacts.
Import Unsigned.

(** A command whose numbers are unsigned faults only on infinity, and its
    coordinates are not negative. *)
Lemma unsigned_command_runs self c :
  Shape.well_formed c ->
  (forall key f, Command.params c !! key = Some (PyFloat f) -> unsigned f) ->
  match DrawingExecutor.execute_body self c with
  | Ok _ => True
  | Raise e => e = "cannot convert float infinity to integer"
  end
  /\ forall key default z,
       (0 <= default)%Z ->
       DrawingExecutor.int_param (Command.params c) key default = Ok z ->
       Command.command_type c <> SET_COLOR ->
       (0 <= z)%Z.
Proof.
  intros [Dm Ty] U.
  assert (P : forall key default,
            Command.command_type c <> SET_COLOR ->
            match DrawingExecutor.int_param (Command.params c) key default with
            | Ok z => (0 <= default)%Z -> (0 <= z)%Z
            | Raise e => e = "cannot convert float infinity to integer"
            end).
  { intros key default Ns. unfold DrawingExecutor.int_param.
    destruct (Command.params c !! key) as [[f|s]|] eqn:E; [| |done].
    - simpl. specialize (U key f E).
      destruct (Py.int_of_float f) as [z|e] eqn:Ei.
      + intros _. by apply (FloatFacts.unsigned_int f).
      + by apply (FloatFacts.unsigned_fault f).
    - by specialize (Ty key _ E). }
  split.
  - unfold DrawingExecutor.execute_body.
    destruct (Command.command_type c) eqn:Tc; try done;
      unfold DrawingExecutor.execute_draw_line,
        DrawingExecutor.execute_draw_circle,
        DrawingExecutor.execute_draw_rectangle,
        DrawingExecutor.execute_move,
        DrawingExecutor.execute_set_color;
      repeat match goal with
      | |- context [DrawingExecutor.int_param ?p ?k ?d] =>
          let Hp := fresh in
          pose proof (P k d ltac:(done)) as Hp;
          destruct (DrawingExecutor.int_param p k d); simpl; [clear Hp|exact Hp]
      end; try done.
    destruct (Command.params c !! "color") as [[f|s]|] eqn:E; simpl; try done.
    by specialize (Ty "color" _ E).
  - intros key default z Hd Hz Ns. specialize (P key default Ns).
    rewrite Hz in P. by apply P.
Qed.

Lemma tokenize_spans source tokens :
  Lexer.tokenize source = Some (Ok tokens) ->
  Forall
    (fun tok => exists s q, Source.spans (list_ascii_of_string source) s q tok)
    tokens.
Proof.
  intros H. apply ScanFacts.tokenize_covers, ScanFacts.covers_spans in H.
  eapply Forall_impl; [exact H|]. simpl. intros tok (s & q & _ & Sp).
  by exists s, q.
Qed.

End PipelineFacts.

(** * The claims *)

(** ** The pen *)

(** C1, as stated, fails in two ways.  A move to [(inf, 10)] with the pen
    down faults and leaves the pen at [(400, 300)]; a number of 401 digits
    in the text is such an [inf].  A rectangle at [(0.5, 0.5)] of size
    [0.5] by [0.5], drawn with the pen down, leaves the pen at [(0, 0)],
    and [0.5 + 0.5] is [1]. *)
Lemma pen_misses_terminal_point_counterexample :
  DrawingExecutor.pen_down Examples.fresh = true
  /\ Spec.pen Examples.fresh = (400, 300)%Z
  /\ Py.float Examples.huge = Some Examples.infinity
  /\ Spec.float_value Examples.ten = Some (10 # 1)
  /\ Spec.pen
       (DrawingExecutor.execute Examples.fresh
          (Command.new MOVE (Fields.move Examples.infinity Examples.ten))).1
     = (400, 300)%Z
  /\ ~ (inject_Z 300 == 10 # 1)%Q
  /\ option_map (Spec.pen ∘ Interpreter.executor)
       (Interpreter.execute_commands Examples.app
          ("move " ++ Examples.huge ++ " 10"))
     = Some (400, 300)%Z
  /\ Spec.float_value Samples.half = Some (1 # 2)
  /\ Spec.pen
       (DrawingExecutor.execute Examples.fresh
          (Command.new DRAW_RECTANGLE
             (Fields.rectangle Samples.half Samples.half
                Samples.half Samples.half))).1
     = (0, 0)%Z
  /\ ~ (inject_Z 0 == (1 # 2) + (1 # 2))%Q
  /\ option_map (Spec.pen ∘ Interpreter.executor)
       (Interpreter.execute_commands Examples.app
          "draw rectangle 0.5 0.5 0.5 0.5")
     = Some (0, 0)%Z.
Proof.
  repeat split; try reflexivity; try (vm_compute; reflexivity);
    vm_compute; discriminate.
Qed.

(** C1, amended.  The pen after [execute], for a command with its numeric
    fields, where a field stands for the integer that [int] makes of it,
    its value rounded toward zero, and an infinity and a NaN for none.  A
    line, a circle or a rectangle all of whose fields have an integer,
    drawn with the pen down, leaves the pen at the end of the line, at the
    centre of the circle, at the corner of the rectangle opposite to
    [(x, y)], the sums taken on the integers; drawn with the pen up it
    leaves the pen where it was.  A move whose two fields have an integer
    leaves the pen at its target, whatever the state of the pen.  A command
    with a field that has no integer, be it [x1], [y1] or the radius,
    leaves the pen where it was.  So do, whatever their parameters, a line,
    a circle and a rectangle drawn with the pen up, [SetColor], [Clear],
    [PenUp] and [PenDown]. *)
Theorem pen_position_after_execute (self : DrawingExecutor.t) (line col : Z) :
  let after kind params :=
    Spec.pen (DrawingExecutor.execute self (Command.mk kind params line col)).1
  in
  (forall x1 y1 x2 y2 : spec_float,
     after DRAW_LINE (Fields.line x1 y1 x2 y2)
     = match Fields.device x1, Fields.device y1,
             Fields.device x2, Fields.device y2 with
       | Some _, Some _, Some x, Some y =>
           if DrawingExecutor.pen_down self then (x, y) else Spec.pen self
       | _, _, _, _ => Spec.pen self
       end)
  /\ (forall x y radius : spec_float,
       after DRAW_CIRCLE (Fields.circle x y radius)
       = match Fields.device x, Fields.device y, Fields.device radius with
         | Some x, Some y, Some _ =>
             if DrawingExecutor.pen_down self then (x, y) else Spec.pen self
         | _, _, _ => Spec.pen self
         end)
  /\ (forall x y width height : spec_float,
       after DRAW_RECTANGLE (Fields.rectangle x y width height)
       = match Fields.device x, Fields.device y,
               Fields.device width, Fields.device height with
         | Some x, Some y, Some w, Some h =>
             if DrawingExecutor.pen_down self then ((x + w)%Z, (y + h)%Z)
             else Spec.pen self
         | _, _, _, _ => Spec.pen self
         end)
  /\ (forall x y : spec_float,
       after MOVE (Fields.move x y)
       = match Fields.device x, Fields.device y with
         | Some x, Some y => (x, y)
         | _, _ => Spec.pen self
         end)
  /\ (forall params : gmap string pyval,
       (DrawingExecutor.pen_down self = false ->
        after DRAW_LINE params = Spec.pen self
        /\ after DRAW_CIRCLE params = Spec.pen self
        /\ after DRAW_RECTANGLE params = Spec.pen self)
       /\ after SET_COLOR params = Spec.pen self
       /\ after CLEAR params = Spec.pen self
       /\ after PEN_UP params = Spec.pen self
       /\ after PEN_DOWN params = Spec.pen self).
Proof.
  cbv zeta.
  unfold DrawingExecutor.execute, DrawingExecutor.execute_body; simpl.
  split; [|split; [|split; [|split]]].
  - intros x1 y1 x2 y2. unfold DrawingExecutor.execute_draw_line.
    destruct (FieldFacts.line_fields x1 y1 x2 y2 0) as (-> & -> & -> & ->).
    rewrite !FieldFacts.device_int.
    destruct (Fields.device x1), (Fields.device y1), (Fields.device x2),
      (Fields.device y2); simpl; try reflexivity.
    by destruct (DrawingExecutor.pen_down self) eqn:Ep; simpl; rewrite ?Ep.
  - intros x y radius. unfold DrawingExecutor.execute_draw_circle.
    destruct (FieldFacts.circle_fields x y radius 0) as (-> & -> & _).
    destruct (FieldFacts.circle_fields x y radius 10) as (_ & _ & ->).
    rewrite !FieldFacts.device_int.
    destruct (Fields.device x), (Fields.device y), (Fields.device radius);
      simpl; try reflexivity.
    by destruct (DrawingExecutor.fill_mode self),
                (DrawingExecutor.pen_down self) eqn:Ep; simpl; rewrite ?Ep.
  - intros x y width height. unfold DrawingExecutor.execute_draw_rectangle.
    destruct (FieldFacts.rectangle_fields x y width height 0)
      as (-> & -> & _ & _).
    destruct (FieldFacts.rectangle_fields x y width height 10)
      as (_ & _ & -> & ->).
    rewrite !FieldFacts.device_int.
    destruct (Fields.device x), (Fields.device y), (Fields.device width),
      (Fields.device height); simpl; try reflexivity.
    by destruct (DrawingExecutor.fill_mode self),
                (DrawingExecutor.pen_down self) eqn:Ep; simpl; rewrite ?Ep.
  - intros x y. unfold DrawingExecutor.execute_move.
    destruct (FieldFacts.move_fields x y 0) as (-> & ->).
    rewrite !FieldFacts.device_int.
    by destruct (Fields.device x), (Fields.device y),
                (DrawingExecutor.pen_down self).
  - intros params. split; [intros Up; split; [|split]|].
    + unfold DrawingExecutor.execute_draw_line.
      repeat match goal with
      | |- context [DrawingExecutor.int_param ?p ?k ?d] =>
          destruct (DrawingExecutor.int_param p k d); simpl; try reflexivity
      end.
      by rewrite Up.
    + unfold DrawingExecutor.execute_draw_circle.
      repeat match goal with
      | |- context [DrawingExecutor.int_param ?p ?k ?d] =>
          destruct (DrawingExecutor.int_param p k d); simpl; try reflexivity
      end.
      by destruct (DrawingExecutor.fill_mode self); simpl; rewrite Up.
    + unfold DrawingExecutor.execute_draw_rectangle.
      repeat match goal with
      | |- context [DrawingExecutor.int_param ?p ?k ?d] =>
          destruct (DrawingExecutor.int_param p k d); simpl; try reflexivity
      end.
      by destruct (DrawingExecutor.fill_mode self); simpl; rewrite Up.
    + repeat split.
      unfold DrawingExecutor.execute_set_color.
      by destruct (default (PyStr "black") (params !! "color")).
Qed.

Lemma pen_position_after_execute_witness :
  Spec.pen
    (DrawingExecutor.execute Examples.fresh
       (Command.mk DRAW_RECTANGLE
          (Fields.rectangle Samples.half Examples.ten
             Examples.ten Samples.half) 1 0)).1
  = (10, 10)%Z
  /\ Spec.pen
       (DrawingExecutor.execute Examples.pen_up
          (Command.mk MOVE (Fields.move Examples.ten Examples.infinity) 1 0)).1
     = Spec.pen Examples.pen_up.
Proof.
  split.
  - rewrite (proj1 (proj2 (proj2
               (pen_position_after_execute Examples.fresh 1 0)))).
    reflexivity.
  - rewrite (proj1 (proj2 (proj2 (proj2
               (pen_position_after_execute Examples.pen_up 1 0))))).
    reflexivity.
Defined.

(** ** Faults *)

(** C2.  [execute] always returns: when the body of its [try] raises, the
    result is the error text and the executor is as before, the command
    loop appends that text as the result of the command and goes on with
    the commands that follow; the loop appends one result per command. *)
Theorem execute_contains_faults :
  (forall (self : DrawingExecutor.t) (command : Command.t),
     match DrawingExecutor.execute_body self command with
     | Ok r => DrawingExecutor.execute self command = r
     | Raise e =>
         DrawingExecutor.execute self command
         = (self, "Error executing command: " ++ e)
         /\ forall (out : list string) (i : Z) (rest : list Command.t),
              Interpreter.execute_all (Interpreter.mk self out) i
                (command :: rest)
              = Interpreter.execute_all
                  (Interpreter.mk self
                     (out ++ ["[" ++ Py.str_int i
                              ++ "] Error executing command: " ++ e]))
                  (i + 1) rest
     end)
  /\ (forall (app : Interpreter.t) (i : Z) (commands : list Command.t),
       length (Interpreter.output (Interpreter.execute_all app i commands))
       = (length (Interpreter.output app) + length commands)%nat).
Proof.
  split.
  - intros self command. unfold DrawingExecutor.execute.
    destruct (DrawingExecutor.execute_body self command) as [r|e] eqn:H;
      [reflexivity|].
    split; [reflexivity|]. intros out i rest. simpl.
    unfold DrawingExecutor.execute. rewrite H. reflexivity.
  - intros app i commands.
    destruct (ExecutorFacts.execute_all_output app i commands)
      as (lines & -> & Hl).
    by rewrite length_app, Hl.
Qed.

(** A move to [inf] faults, and the command after it is executed. *)
Example fault_then_next_command :
  DrawingExecutor.execute_body Examples.fresh
    (Examples.move_to Examples.infinity Examples.ten)
  = Raise "cannot convert float infinity to integer"
  /\ Interpreter.output
       (Interpreter.execute_all Examples.app 1
          [Examples.move_to Examples.infinity Examples.ten;
           Command.new CLEAR ∅])
     = ["[1] Error executing command: cannot convert float infinity to integer";
        "[2] Canvas cleared"].
Proof. split; vm_compute; reflexivity. Qed.

(** The fault is within reach of a program: a number of 401 digits is read
    as [inf]. *)
Example fault_from_source_text :
  Py.float Examples.huge = Some Examples.infinity
  /\ option_map Interpreter.output
       (Interpreter.execute_commands Examples.app
          ("move " ++ Examples.huge ++ " 5" ++ Examples.newline ++ "clear"))
     = Some [ Interpreter.rule "="; "Executing commands...";
              Interpreter.rule "="; "Parsed 2 command(s)";
              Interpreter.rule "-";
              "[1] Error executing command: cannot convert float infinity to integer";
              "[2] Canvas cleared";
              Interpreter.rule "="; "Execution complete!" ].
Proof. split; vm_compute; reflexivity. Qed.

(** ** Colours *)

(** C8.  [SetColor] stores the entry of the colour table for the lowercased
    name, black if there is none; names that differ only in case resolve
    alike; [notacolor] gives black, [Red] and [red] the same colour. *)
Theorem set_color_resolves_name :
  (forall (self : DrawingExecutor.t) (params : gmap string pyval)
          (name : string) (line col : Z),
     params !! "color" = Some (PyStr name) ->
     DrawingExecutor.execute self (Command.mk SET_COLOR params line col)
     = (DrawingExecutor.set_current_color self
          (default "#000000" (DrawingExecutor.COLOR_MAP !! Py.lower name)),
        "Color set to " ++ name))
  /\ (forall a b : string,
       Py.lower a = Py.lower b ->
       DrawingExecutor.get_color a = DrawingExecutor.get_color b)
  /\ DrawingExecutor.get_color "notacolor" = "#000000"
  /\ DrawingExecutor.COLOR_MAP !! "black" = Some "#000000"
  /\ DrawingExecutor.get_color "Red" = DrawingExecutor.get_color "red".
Proof.
  split; [|split; [|split; [|split]]].
  - intros self params name line col H.
    unfold DrawingExecutor.execute, DrawingExecutor.execute_body,
      DrawingExecutor.execute_set_color.
    simpl. rewrite H. reflexivity.
  - intros a b H. unfold DrawingExecutor.get_color. by rewrite H.
  - reflexivity.
  - reflexivity.
  - reflexivity.
Qed.

Lemma set_color_resolves_name_witness :
  DrawingExecutor.current_color
    (DrawingExecutor.execute Examples.fresh
       (Command.mk SET_COLOR {["color" := PyStr "BLUE"]} 1%Z 0%Z)).1
  = "#0000FF"
  /\ DrawingExecutor.get_color "GrEy" = DrawingExecutor.get_color "grey".
Proof.
  split.
  - assert (H : ({["color" := PyStr "BLUE"]} : gmap string pyval) !! "color"
                = Some (PyStr "BLUE")) by reflexivity.
    rewrite (proj1 set_color_resolves_name Examples.fresh
               _ "BLUE" 1%Z 0%Z H).
    reflexivity.
  - apply (proj1 (proj2 set_color_resolves_name)). reflexivity.
Defined.

(** ** Conversion of coordinates *)

(** C5, as stated, fails: a move to [(-1.5, -1.5)] with the pen down hands
    [-1] to the canvas and to the pen, and the floor of [-1.5] is [-2]. *)
Lemma floor_of_negative_coordinate_counterexample :
  Spec.float_value Examples.minus_one_and_a_half = Some (-3 # 2)
  /\ (-3 # 2 < 0)%Q /\ ~ Spec.is_integer (-3 # 2)
  /\ Qfloor (-3 # 2) = (-2)%Z
  /\ (DrawingExecutor.execute Examples.fresh
        (Examples.move_to Examples.minus_one_and_a_half
           Examples.minus_one_and_a_half)).1
     = DrawingExecutor.set_pen
         (DrawingExecutor.call Examples.fresh
            (create_line 400 300 (-1) (-1) "#000000" 2))
         (-1) (-1)
  /\ (-1)%Z <> Qfloor (-3 # 2).
Proof.
  repeat split; try reflexivity; try (vm_compute; discriminate).
Qed.

(** C5, amended.  [int] rounds a coordinate toward zero: to its floor if it
    is not negative, to its floor plus one if it is negative and not an
    integer.  Every numeric field of every command goes through it before
    anything is drawn: a line is drawn between the rounded coordinates of
    its four fields, a circle around the rounded centre with the rounded
    radius, a rectangle from the rounded corner with the rounded width and
    height, and a move goes to the rounded coordinates of its two fields;
    the pen takes the same integers. *)
Theorem coordinates_truncate_toward_zero :
  (forall (f : spec_float) (q : Q),
     Spec.float_value f = Some q ->
     DrawingExecutor.int (PyFloat f) = Ok (Spec.truncate q))
  /\ (forall q : Q, (0 <= q)%Q -> Spec.truncate q = Qfloor q)
  /\ (forall q : Q,
       (q < 0)%Q -> ~ Spec.is_integer q ->
       Spec.truncate q = (Qfloor q + 1)%Z)
  /\ (forall (self : DrawingExecutor.t) (params : gmap string pyval)
            (x1 y1 x2 y2 : Q),
       Spec.field params "x1" x1 -> Spec.field params "y1" y1 ->
       Spec.field params "x2" x2 -> Spec.field params "y2" y2 ->
       exists message,
         DrawingExecutor.execute_draw_line self params
         = Ok (let drawn :=
                 DrawingExecutor.call self
                   (create_line (Spec.truncate x1) (Spec.truncate y1)
                      (Spec.truncate x2) (Spec.truncate y2)
                      (DrawingExecutor.current_color self) 2) in
               if DrawingExecutor.pen_down self
               then DrawingExecutor.set_pen drawn
                      (Spec.truncate x2) (Spec.truncate y2)
               else drawn,
               message))
  /\ (forall (self : DrawingExecutor.t) (params : gmap string pyval)
            (x y radius : Q),
       Spec.field params "x" x -> Spec.field params "y" y ->
       Spec.field params "radius" radius ->
       exists message,
         DrawingExecutor.execute_draw_circle self params
         = Ok (let drawn :=
                 DrawingExecutor.call self
                   (create_oval
                      (Spec.truncate x - Spec.truncate radius)
                      (Spec.truncate y - Spec.truncate radius)
                      (Spec.truncate x + Spec.truncate radius)
                      (Spec.truncate y + Spec.truncate radius)
                      (DrawingExecutor.current_color self)
                      (if DrawingExecutor.fill_mode self
                       then DrawingExecutor.current_color self else "")
                      2) in
               if DrawingExecutor.pen_down self
               then DrawingExecutor.set_pen drawn
                      (Spec.truncate x) (Spec.truncate y)
               else drawn,
               message))
  /\ (forall (self : DrawingExecutor.t) (params : gmap string pyval)
            (x y width height : Q),
       Spec.field params "x" x -> Spec.field params "y" y ->
       Spec.field params "width" width ->
       Spec.field params "height" height ->
       exists message,
         DrawingExecutor.execute_draw_rectangle self params
         = Ok (let drawn :=
                 DrawingExecutor.call self
                   (create_rectangle
                      (Spec.truncate x) (Spec.truncate y)
                      (Spec.truncate x + Spec.truncate width)
                      (Spec.truncate y + Spec.truncate height)
                      (DrawingExecutor.current_color self)
                      (if DrawingExecutor.fill_mode self
                       then DrawingExecutor.current_color self else "")
                      2) in
               if DrawingExecutor.pen_down self
               then DrawingExecutor.set_pen drawn
                      (Spec.truncate x + Spec.truncate width)
                      (Spec.truncate y + Spec.truncate height)
               else drawn,
               message))
  /\ (forall (self : DrawingExecutor.t) (params : gmap string pyval)
            (x y : Q),
       Spec.field params "x" x -> Spec.field params "y" y ->
       exists message,
         DrawingExecutor.execute_move self params
         = Ok (DrawingExecutor.set_pen
                 (if DrawingExecutor.pen_down self
                  then DrawingExecutor.call self
                         (create_line (DrawingExecutor.pen_x self)
                            (DrawingExecutor.pen_y self)
                            (Spec.truncate x) (Spec.truncate y)
                            (DrawingExecutor.current_color self) 2)
                  else self)
                 (Spec.truncate x) (Spec.truncate y),
               message)).
Proof.
  split; [exact ExecutorFacts.int_of_float_truncate|].
  split; [exact ExecutorFacts.truncate_nonneg|].
  split; [exact ExecutorFacts.truncate_neg|].
  split; [|split; [|split]].
  - intros self params x1 y1 x2 y2 Hx1 Hy1 Hx2 Hy2.
    unfold DrawingExecutor.execute_draw_line.
    rewrite (ExecutorFacts.int_param_field _ _ _ _ Hx1),
      (ExecutorFacts.int_param_field _ _ _ _ Hy1),
      (ExecutorFacts.int_param_field _ _ _ _ Hx2),
      (ExecutorFacts.int_param_field _ _ _ _ Hy2).
    simpl. eexists. reflexivity.
  - intros self params x y radius Hx Hy Hr.
    unfold DrawingExecutor.execute_draw_circle.
    rewrite (ExecutorFacts.int_param_field _ _ _ _ Hx),
      (ExecutorFacts.int_param_field _ _ _ _ Hy),
      (ExecutorFacts.int_param_field _ _ _ _ Hr).
    simpl. eexists. by destruct (DrawingExecutor.fill_mode self).
  - intros self params x y width height Hx Hy Hw Hh.
    unfold DrawingExecutor.execute_draw_rectangle.
    rewrite (ExecutorFacts.int_param_field _ _ _ _ Hx),
      (ExecutorFacts.int_param_field _ _ _ _ Hy),
      (ExecutorFacts.int_param_field _ _ _ _ Hw),
      (ExecutorFacts.int_param_field _ _ _ _ Hh).
    simpl. eexists. by destruct (DrawingExecutor.fill_mode self).
  - intros self params x y Hx Hy.
    unfold DrawingExecutor.execute_move.
    rewrite (ExecutorFacts.int_param_field _ _ _ _ Hx),
      (ExecutorFacts.int_param_field _ _ _ _ Hy).
    simpl. eexists. reflexivity.
Qed.

Lemma coordinates_truncate_toward_zero_witness :
  DrawingExecutor.int (PyFloat Examples.minus_one_and_a_half) = Ok (-1)%Z
  /\ Spec.truncate (-3 # 2) = (Qfloor (-3 # 2) + 1)%Z
  /\ Spec.truncate (3 # 2) = Qfloor (3 # 2)
  /\ (exists message : string,
        DrawingExecutor.execute_move Examples.pen_up
          (Command.params
             (Examples.move_to Examples.minus_one_and_a_half Examples.ten))
        = Ok (DrawingExecutor.set_pen Examples.pen_up (-1) 10, message))
  /\ exists message : string,
       DrawingExecutor.execute_draw_circle Examples.fresh
         (Fields.circle Examples.minus_one_and_a_half Examples.ten
            Examples.minus_one_and_a_half)
       = Ok (DrawingExecutor.set_pen
               (DrawingExecutor.call Examples.fresh
                  (create_oval 0 11 (-2) 9 "#000000" "" 2))
               (-1) 10,
             message).
Proof.
  destruct coordinates_truncate_toward_zero
    as (Hint & Hpos & Hneg & _ & Hcircle & _ & Hmove).
  split; [|split; [|split; [|split]]].
  - exact (Hint Examples.minus_one_and_a_half (-3 # 2) eq_refl).
  - apply Hneg; [reflexivity|]. vm_compute. discriminate.
  - apply Hpos. vm_compute. discriminate.
  - apply (Hmove Examples.pen_up _ (-3 # 2) (10 # 1)).
    + exists Examples.minus_one_and_a_half. split; reflexivity.
    + exists Examples.ten. split; reflexivity.
  - apply (Hcircle Examples.fresh _ (-3 # 2) (10 # 1) (-3 # 2)).
    + exists Examples.minus_one_and_a_half. split; reflexivity.
    + exists Examples.ten. split; reflexivity.
    + exists Examples.minus_one_and_a_half. split; reflexivity.
Defined.

(** ** Parsing *)

(** C3.  The first command that fails to parse ends [parse] with its
    error, whatever was parsed before it; [parse] always ends, with a list
    of commands or with one error; [draw line 1 2 3] gives the error of
    the missing fourth number and no commands, with the [EOF] token and
    without it. *)
Theorem parse_fails_fast :
  (forall (tokens : list Token.t) (commands : list Command.t)
          (self self' : Parser.t) (e : string),
     ParserInv.parsed tokens commands self ->
     Parser.more_input self = true ->
     Parser.parse_command self = (Raise e, self') ->
     Parser.parse tokens = Some (Raise e))
  /\ (forall tokens : list Token.t, exists r, Parser.parse tokens = Some r)
  /\ exists tokens : list Token.t,
       Lexer.tokenize "draw line 1 2 3" = Some (Ok tokens)
       /\ Parser.parse tokens
          = Some (Raise "Parse error at line 1, column 15: draw line requires 4 numbers: x1 y1 x2 y2")
       /\ Interpreter.strip_eof tokens = Examples.draw_line_1_2_3
       /\ Parser.parse (Interpreter.strip_eof tokens)
          = Some (Raise "Parse error: draw line requires 4 numbers: x1 y1 x2 y2").
Proof.
  split; [|split].
  - intros tokens commands self self' e Hp M E.
    rewrite <- (ParserFacts.par_parse_loop_parsed tokens commands self
                  (S (length tokens)) Hp) by lia.
    simpl. by rewrite M, E.
  - intros tokens. unfold Parser.parse.
    destruct (ParserFacts.par_parse_loop_total (length tokens) []
                (Parser.init tokens) (ParserFacts.par_init_wf _))
      as (r & Hr & _); [simpl; lia|].
    by exists r.
  - eexists. split; [vm_compute; reflexivity|].
    split; [vm_compute; reflexivity|].
    split; vm_compute; reflexivity.
Qed.

Lemma parse_fails_fast_witness :
  exists self self' : Parser.t,
    ParserInv.parsed Examples.clear_draw_line_1_2_3
      [Command.at_position (Command.new CLEAR ∅) 1 0] self
    /\ Parser.more_input self = true
    /\ Parser.parse_command self
       = (Raise "Parse error: draw line requires 4 numbers: x1 y1 x2 y2",
          self')
    /\ Parser.parse Examples.clear_draw_line_1_2_3
       = Some (Raise "Parse error: draw line requires 4 numbers: x1 y1 x2 y2").
Proof.
  set (tokens := Examples.clear_draw_line_1_2_3).
  set (self := Parser.advance (Parser.init tokens)).
  assert (Hp : ParserInv.parsed tokens
                 [Command.at_position (Command.new CLEAR ∅) 1 0] self).
  { apply (ParserInv.parsed_step tokens [] (Parser.init tokens));
      [constructor|reflexivity|reflexivity]. }
  assert (M : Parser.more_input self = true) by reflexivity.
  destruct (Parser.parse_command self) as [r self'] eqn:E.
  assert (R : r = Raise "Parse error: draw line requires 4 numbers: x1 y1 x2 y2").
  { vm_compute in E. by injection E as <- _. }
  subst r. exists self, self'.
  split; [exact Hp|]. split; [exact M|]. split; [exact E|].
  exact (proj1 parse_fails_fast tokens _ self self' _ Hp M E).
Defined.




(** C9.  Every command that [parse] returns has one of the eight types that
    [execute] handles, none has the type [FILL], and [execute] never
    answers such a command with the message of its last branch. *)
Theorem parse_yields_known_commands (tokens : list Token.t)
    (commands : list Command.t) :
  Parser.parse tokens = Some (Ok commands) ->
  Forall
    (fun c =>
       Command.command_type c ∈
         [DRAW_LINE; DRAW_CIRCLE; DRAW_RECTANGLE; SET_COLOR; CLEAR; MOVE;
          PEN_UP; PEN_DOWN]
       /\ Command.command_type c <> FILL
       /\ forall self : DrawingExecutor.t,
            (DrawingExecutor.execute self c).2
            <> "Error: Unknown command type: "
               ++ CommandType_str (Command.command_type c))
    commands.
Proof.
  intros H. apply ParserFacts.par_parse_produced in H.
  eapply Forall_impl; [exact H|]. intros c Hc. simpl.
  pose proof (ParserFacts.par_produced_not_fill c Hc) as N.
  split; [exact Hc|]. split; [exact N|].
  intros self. by apply ExecutorFacts.execute_known.
Qed.

Lemma parse_yields_known_commands_witness :
  exists commands : list Command.t,
    Parser.parse Examples.pen_up_clear = Some (Ok commands)
    /\ length commands = 2%nat
    /\ Forall (fun c => Command.command_type c <> FILL) commands.
Proof.
  eexists. split; [vm_compute; reflexivity|]. split; [reflexivity|].
  eapply Forall_impl.
  - apply (parse_yields_known_commands Examples.pen_up_clear).
    vm_compute. reflexivity.
  - intros c (_ & N & _). exact N.
Defined.

(** C7.  No command that [parse] returns has the type [FILL] or changes
    the fill mode; after any number of the commands of a parsed program,
    run from a new executor, the fill mode is false and every oval and
    rectangle put on the canvas has an empty fill. *)
Theorem fill_mode_stays_false (tokens : list Token.t)
    (commands : list Command.t) :
  Parser.parse tokens = Some (Ok commands) ->
  Forall
    (fun c =>
       Command.command_type c <> FILL
       /\ forall self : DrawingExecutor.t,
            DrawingExecutor.fill_mode (DrawingExecutor.execute self c).1
            = DrawingExecutor.fill_mode self)
    commands
  /\ forall (canvas : list canvas_call) (width height : Z)
            (out : list string) (i : Z) (k : nat),
       let app :=
         Interpreter.execute_all
           (Interpreter.mk (DrawingExecutor.init canvas width height) out)
           i (take k commands) in
       DrawingExecutor.fill_mode (Interpreter.executor app) = false
       /\ exists calls : list canvas_call,
            DrawingExecutor.canvas (Interpreter.executor app)
            = (canvas ++ calls)%list
            /\ Forall Spec.outline_only calls.
Proof.
  intros H. apply ParserFacts.par_parse_produced in H. split.
  - eapply Forall_impl; [exact H|]. intros c Hc. simpl.
    split; [by apply ParserFacts.par_produced_not_fill|].
    intros self. apply ExecutorFacts.execute_fill_mode.
  - intros canvas width height out i k app.
    exact (ExecutorFacts.execute_all_fill_mode
             (Interpreter.mk (DrawingExecutor.init canvas width height) out)
             i (take k commands) eq_refl).
Qed.

Lemma fill_mode_stays_false_witness :
  exists commands : list Command.t,
    Parser.parse Examples.draw_circle_1_2_3 = Some (Ok commands)
    /\ DrawingExecutor.fill_mode
         (Interpreter.executor
            (Interpreter.execute_all Examples.app 1 (take 1 commands)))
       = false.
Proof.
  eexists. split; [vm_compute; reflexivity|].
  refine (proj1 (proj2 (fill_mode_stays_false Examples.draw_circle_1_2_3 _ _)
                  [] 800%Z 600%Z [] 1%Z 1%nat)).
  vm_compute. reflexivity.
Defined.

(** ** Tokens *)

#[local] Opaque Lexer.KEYWORDS Lexer.COLORS.

(** C4.  [tokenize] always ends.  It raises exactly on the texts with a
    string literal that is not closed: a quote outside the comments and
    the strings before it, whose closing quote is never reached; the error
    is the lexical error with the line and the column of the end of the
    text.  On every other text its tokens end with an [EOF] token and have
    no other [EOF] token.  A lexer that stands on the quote of a string
    that is not closed raises that error. *)
Theorem tokenize_ends_with_eof_or_unterminated :
  (forall source : string,
     exists r, Lexer.tokenize source = Some r
       /\ match r with
          | Ok tokens =>
              ~ Literal.unterminated (list_ascii_of_string source)
              /\ exists (front : list Token.t) (eof : Token.t),
                   tokens = (front ++ [eof])%list
                   /\ last tokens = Some eof
                   /\ Token.type eof = EOF
                   /\ Forall (fun token => Token.type token <> EOF) front
          | Raise e =>
              Literal.unterminated (list_ascii_of_string source)
              /\ e = Literal.error (list_ascii_of_string source)
          end)
  /\ (forall self : Lexer.t,
       LexerInv.wf self ->
       Lexer.current_char self = Some "034"%char ->
       Spec.closes (drop (S (Lexer.pos self)) (Lexer.text self)) = false ->
       exists e : string,
         Spec.lexical_error e
         /\ Lexer.get_next_token self = Some (Raise e)
         /\ forall (fuel : nat) (tokens : list Token.t),
              Lexer.tokenize_loop (S fuel) tokens self = Some (Raise e)).
Proof.
  split.
  - intros source.
    assert (T : exists r, Lexer.tokenize source = Some r
                  /\ LexerInv.tokens_outcome (list_ascii_of_string source) [] r).
    { unfold Lexer.tokenize.
      apply (LexerFacts.lex_tokenize_loop_total
               (S (Lexer.budget (Lexer.init source))) []
               (Lexer.init source) (LexerFacts.lex_init_wf _)).
      pose proof (LexerFacts.lex_left_budget (Lexer.init source)). lia. }
    destruct T as (r & Hr & R). exists r. split; [exact Hr|].
    destruct r as [tokens|e]; simpl in R.
    + split; [exact (LiteralFacts.tokenize_terminated _ _ Hr)|].
      destruct R as (front & eof & -> & Te & Fr).
      exists front, eof. split; [done|]. split; [apply last_snoc|done].
    + exact (LiteralFacts.tokenize_raised _ _ Hr).
  - intros self W E C.
    destruct (LexerFacts.lex_read_string_total self W) as (r & Hr & R).
    assert (G : forall fuel,
              Lexer.get_next_token_loop fuel self
              = r' ← Lexer.read_string self;
                Some (try! (str_val, self') <- r';
                      Ok (Token.mk STRING str_val (Lexer.line self')
                            (Lexer.col self), self'))).
    { intros fuel. destruct fuel; simpl; rewrite E; reflexivity. }
    destruct r as [[res self']|e]; [destruct R as (_ & _ & R); congruence|].
    destruct R as [_ Le]. exists e. split; [exact Le|].
    assert (Gn : Lexer.get_next_token self = Some (Raise e)).
    { unfold Lexer.get_next_token. rewrite G, Hr. reflexivity. }
    split; [exact Gn|].
    intros fuel tokens. simpl. rewrite Gn. reflexivity.
Qed.

Lemma tokenize_ends_with_eof_or_unterminated_witness :
  Lexer.tokenize Samples.unclosed_text
  = Some (Raise "Lexical error at line 1, column 4: Unterminated string")
  /\ Literal.unterminated (list_ascii_of_string Samples.unclosed_text)
  /\ (exists tokens : list Token.t,
        Lexer.tokenize Samples.quoted = Some (Ok tokens))
  /\ ~ Literal.unterminated (list_ascii_of_string Samples.quoted).
Proof.
  destruct (proj1 tokenize_ends_with_eof_or_unterminated
              Samples.unclosed_text) as (r & Hr & Out).
  destruct (proj1 tokenize_ends_with_eof_or_unterminated
              Samples.quoted) as (r' & Hr' & Out').
  vm_compute in Hr. injection Hr as <-.
  vm_compute in Hr'. injection Hr' as <-.
  split; [vm_compute; reflexivity|]. split; [exact (proj1 Out)|].
  split; [eexists; vm_compute; reflexivity|exact (proj1 Out')].
Defined.

(** C10.  A lexer that stands on a [#], whatever the column, skips to the
    character behind the next newline, or to the end of the text if there
    is no newline; the next token is the one found there; the tokens
    collected before are kept as they are. *)
Theorem comment_skipped_through_newline (self : Lexer.t) :
  LexerInv.wf self ->
  Lexer.current_char self = Some "#"%char ->
  let n := Spec.line_rest (drop (Lexer.pos self) (Lexer.text self)) in
  exists self' : Lexer.t,
    Lexer.skip_comment self = Some self'
    /\ Lexer.text self' = Lexer.text self
    /\ match Lexer.text self !! (Lexer.pos self + n)%nat with
       | Some c =>
           c = "010"%char
           /\ Lexer.pos self' = S (Lexer.pos self + n)
           /\ Lexer.line self' = (Lexer.line self + 1)%Z
           /\ Lexer.col self' = 0%Z
       | None =>
           Lexer.pos self' = length (Lexer.text self)
           /\ Lexer.line self' = Lexer.line self
           /\ Lexer.col self' = (Lexer.col self + Z.of_nat n)%Z
       end
    /\ Lexer.get_next_token self = Lexer.get_next_token self'
    /\ forall (fuel : nat) (tokens : list Token.t),
         Lexer.tokenize_loop fuel tokens self
         = Lexer.tokenize_loop fuel tokens self'.
Proof.
  intros W E n.
  destruct (LexerFacts.lex_skip_comment_total self "#" W E eq_refl)
    as (self' & Hs & F & P & R).
  fold n in R. exists self'. split; [exact Hs|].
  destruct F as (W' & T' & L'). split; [exact T'|].
  split.
  { destruct (Lexer.text self !! (Lexer.pos self + n)%nat); [exact R|].
    by destruct R as (_ & ? & ? & ?). }
  assert (G : Lexer.get_next_token self = Lexer.get_next_token self').
  { unfold Lexer.get_next_token, Lexer.budget. rewrite T'.
    pose proof (LexerFacts.lex_wf_char _ _ W E) as Lt.
    destruct (length (Lexer.text self)) as [|b] eqn:Len; [lia|].
    assert (Step : Lexer.get_next_token_loop (S b) self
                   = Lexer.get_next_token_loop b self').
    { simpl. rewrite E. simpl. rewrite Hs. reflexivity. }
    rewrite Step.
    destruct (LexerFacts.lex_get_next_token_loop_total b self' W')
      as (r & Hr & _).
    { unfold LexerInv.left. rewrite T', Len. lia. }
    rewrite Hr. symmetry.
    apply (LexerFacts.lex_get_next_token_loop_mono b); [exact Hr|lia]. }
  split; [exact G|].
  intros fuel tokens. destruct fuel; simpl; [done|]. by rewrite G.
Qed.

Lemma comment_skipped_through_newline_witness :
  LexerInv.wf Examples.at_comment
  /\ Lexer.current_char Examples.at_comment = Some "#"%char
  /\ exists self' : Lexer.t,
       Lexer.skip_comment Examples.at_comment = Some self'
       /\ Lexer.pos self' = 12%nat
       /\ Lexer.line self' = 2%Z /\ Lexer.col self' = 0%Z
       /\ Lexer.get_next_token Examples.at_comment
          = Lexer.get_next_token self'.
Proof.
  assert (W : LexerInv.wf Examples.at_comment) by reflexivity.
  split; [exact W|]. split; [reflexivity|].
  destruct (comment_skipped_through_newline Examples.at_comment W eq_refl)
    as (self' & Hs & _ & R & G & _).
  exists self'. split; [exact Hs|].
  change (Lexer.text Examples.at_comment
          !! (Lexer.pos Examples.at_comment
              + Spec.line_rest
                  (drop (Lexer.pos Examples.at_comment)
                     (Lexer.text Examples.at_comment)))%nat)
    with (Some "010"%char) in R.
  destruct R as (_ & P & Ln & Cl).
  split; [exact P|]. split; [exact Ln|]. split; [exact Cl|exact G].
Defined.

#[local] Transparent Lexer.KEYWORDS Lexer.COLORS.

(** A comment behind a command is the same as an empty end of line. *)
Example trailing_comment :
  Lexer.tokenize Examples.commented
  = Lexer.tokenize ("clear " ++ Examples.newline ++ "move 1 2").
Proof. vm_compute. reflexivity. Qed.

(** ** Two programs, from the text to the canvas *)

Example blue_circle :
  Interpreter.execute_commands Examples.app
    ("set color blue" ++ Examples.newline ++ "draw circle 400 300 50")
  = Some
      (Interpreter.mk
         (DrawingExecutor.mk [create_oval 350 250 450 350 "#0000FF" "" 2]
            800 600 "#0000FF" 400 300 true false)
         [ Interpreter.rule "="; "Executing commands..."; Interpreter.rule "=";
           "Parsed 2 command(s)"; Interpreter.rule "-";
           "[1] Color set to blue";
           "[2] Drew circle at (400, 300) with radius 50";
           Interpreter.rule "="; "Execution complete!" ]).
Proof. vm_compute. reflexivity. Qed.

Example move_with_the_pen_up :
  Interpreter.execute_commands Examples.app
    ("pen up" ++ Examples.newline ++ "move 10 10" ++ Examples.newline
     ++ "draw line 0 0 5 5")
  = Some
      (Interpreter.mk
         (DrawingExecutor.mk [create_line 0 0 5 5 "#000000" 2]
            800 600 "#000000" 10 10 false false)
         [ Interpreter.rule "="; "Executing commands..."; Interpreter.rule "=";
           "Parsed 3 command(s)"; Interpreter.rule "-";
           "[1] Pen lifted"; "[2] Pen moved to (10, 10)";
           "[3] Drew line from (0, 0) to (5, 5)";
           Interpreter.rule "="; "Execution complete!" ]).
Proof. vm_compute. reflexivity. Qed.

(** * Further properties

    ** The lexer *)

(** X1.  The tokens that [tokenize] returns partition the text: each token
    is the token of a stretch of characters (a number with at most one
    point, a word in lowercase, a string without its quotes and escapes, a
    single character), white space and comments lie between the tokens,
    and the [EOF] token stands at the end. *)
Theorem tokens_cover_the_text (source : string) (tokens : list Token.t) :
  Lexer.tokenize source = Some (Ok tokens) ->
  Source.covers (list_ascii_of_string source) 0 tokens.
Proof. apply ScanFacts.tokenize_covers. Qed.

Lemma tokens_cover_the_text_witness :
  exists tokens : list Token.t,
    Lexer.tokenize Samples.mixed = Some (Ok tokens)
    /\ Source.covers (list_ascii_of_string Samples.mixed) 0 tokens.
Proof.
  eexists. split; [vm_compute; reflexivity|].
  apply tokens_cover_the_text. vm_compute. reflexivity.
Defined.

(** X2.  The tokens stand at places of the text that follow one another.
    Every token is the token of the characters at its place and carries
    the column of the first of them and the line of the last, lines
    counted from 1 and columns from 0.  For every token but a string, which
    may run over several lines, that line is also the line of its first
    character.  The [EOF] token stands at the end of the text, and no other
    token is empty. *)
Theorem tokens_carry_their_position (source : string)
    (tokens : list Token.t) :
  Lexer.tokenize source = Some (Ok tokens) ->
  exists places : list (nat * nat),
    Forall2 (Source.placed (list_ascii_of_string source)) tokens places
    /\ Source.ordered places.
Proof.
  intros H. pose proof (ScanFacts.tokenize_covers _ _ H) as Cv.
  destruct (ScanFacts.covers_places _ _ _ Cv) as (places & F & O & _).
  by exists places.
Qed.

Lemma tokens_carry_their_position_witness :
  exists (tokens : list Token.t) (places : list (nat * nat)),
    Lexer.tokenize Samples.mixed = Some (Ok tokens)
    /\ Forall2 (Source.placed (list_ascii_of_string Samples.mixed))
         tokens places
    /\ Source.ordered places.
Proof.
  eexists.
  assert (H : Lexer.tokenize Samples.mixed = Some (Ok _))
    by (vm_compute; reflexivity).
  destruct (tokens_carry_their_position Samples.mixed _ H) as (places & F & O).
  exists places. split; [exact H|]. by split.
Defined.

(** X3.  The value of a [KEYWORD] or [COLOR] token is in lowercase,
    whatever the case of the word in the text; the token is a [COLOR]
    exactly when the lowered word is a colour name, and a [KEYWORD] when it
    is a reserved word. *)
Theorem words_are_lowered_and_classified (source : string)
    (tokens : list Token.t) :
  Lexer.tokenize source = Some (Ok tokens) ->
  Forall Source.classified tokens.
Proof.
  intros H. eapply Forall_impl; [exact (PipelineFacts.tokenize_spans _ _ H)|].
  unfold Source.classified.
  intros tok (s & q & _ & Lx & _) Ty. unfold Source.lexeme in Lx.
  assert (W : Token.value tok
              = Py.lower (string_of_list_ascii
                            (Source.slice (list_ascii_of_string source) s q))
              /\ Token.type tok = Source.word_type (Token.value tok)).
  { destruct Ty as [Ty|Ty]; rewrite Ty in Lx; destruct Lx as (V & Tw & _);
      (split; [exact V|congruence]). }
  destruct W as [V Tw]. split; [rewrite V; apply ScanFacts.lower_idem|].
  rewrite Tw. split; [apply ScanFacts.word_type_color|].
  apply ScanFacts.word_type_keyword.
Qed.

Lemma words_are_lowered_and_classified_witness :
  exists tokens : list Token.t,
    Lexer.tokenize Samples.mixed = Some (Ok tokens)
    /\ Forall Source.classified tokens.
Proof.
  eexists. split; [vm_compute; reflexivity|].
  apply (words_are_lowered_and_classified Samples.mixed).
  vm_compute. reflexivity.
Defined.

(** X4.  What [float] returns for the value of a [NUMBER] token is never a
    negative number and never a NaN: the lexer reads no sign.  It returns
    a number whenever the token holds only ASCII digits and a point. *)
Theorem number_literals_are_unsigned (source : string)
    (tokens : list Token.t) :
  Lexer.tokenize source = Some (Ok tokens) ->
  Forall Unsigned.literal tokens.
Proof.
  intros H. eapply Forall_impl; [exact (PipelineFacts.tokenize_spans _ _ H)|].
  unfold Unsigned.literal. intros tok (s & q & _ & Lx & _) Ty.
  by apply (FloatFacts.number_lexeme_float _ _ _ Lx).
Qed.

Lemma number_literals_are_unsigned_witness :
  exists tokens : list Token.t,
    Lexer.tokenize Samples.mixed = Some (Ok tokens)
    /\ Forall Unsigned.literal tokens.
Proof.
  eexists. split; [vm_compute; reflexivity|].
  apply (number_literals_are_unsigned Samples.mixed).
  vm_compute. reflexivity.
Defined.

(** ** The parser *)

(** X5.  [parse] returns a list of commands exactly for the token lists
    made of the token sequences of these commands, one after the other,
    followed by nothing or by an [EOF] token and anything: [draw] and a
    shape with its numbers, [set], a token of value [color] and a colour
    or a string, [clear], [move] and two numbers, [pen] and a token of
    value [up] or [down]. *)
Theorem parse_accepts_the_grammar (tokens : list Token.t)
    (commands : list Command.t) :
  Parser.parse tokens = Some (Ok commands)
  <-> exists (groups : list (list Token.t)) (rest : list Token.t),
        tokens = (concat groups ++ rest)%list
        /\ Forall2 Grammar.derives groups commands
        /\ Grammar.ended rest.
Proof. apply GrammarFacts.par_parse_grammar. Qed.

Lemma parse_accepts_the_grammar_witness :
  exists (groups : list (list Token.t)) (rest : list Token.t),
    Examples.pen_up_clear = (concat groups ++ rest)%list
    /\ Forall2 Grammar.derives groups
         [Command.mk PEN_UP ∅ 1 0; Command.mk CLEAR ∅ 2 0]
    /\ Grammar.ended rest.
Proof.
  apply (proj1 (parse_accepts_the_grammar Examples.pen_up_clear _)).
  vm_compute. reflexivity.
Defined.

(** X6.  A command that [parse_command] returns has taken a fixed number
    of tokens, by its type: six for a line or a rectangle, five for a
    circle, three for a colour or a move, two for the pen, one for
    [clear].  The commands of a token list without [EOF] token account for
    all its tokens. *)
Theorem commands_take_fixed_numbers_of_tokens :
  (forall (self : Parser.t) (c : Command.t) (self' : Parser.t),
     ParserInv.wf self -> Parser.parse_command self = (Ok c, self') ->
     Parser.pos self'
     = (Parser.pos self + Grammar.arity (Command.command_type c))%nat
     /\ Parser.tokens self' = Parser.tokens self)
  /\ (forall (tokens : list Token.t) (commands : list Command.t),
       Forall (fun tok => Token.type tok <> EOF) tokens ->
       Parser.parse tokens = Some (Ok commands) ->
       length tokens
       = sum_list (Grammar.arity ∘ Command.command_type <$> commands)).
Proof.
  split.
  - intros self c self' W H.
    destruct (GrammarFacts.par_parse_command_Ok _ _ _ W H)
      as (g & D & _ & _ & T & P).
    by rewrite P, (GrammarFacts.par_derives_arity g c D).
  - intros tokens commands F H.
    apply GrammarFacts.par_parse_grammar in H as (groups & rest & -> & Fd & En).
    rewrite (GrammarFacts.par_ended_nil _ _ F En), app_nil_r.
    by apply GrammarFacts.par_groups_arity.
Qed.

Lemma commands_take_fixed_numbers_of_tokens_witness :
  exists commands : list Command.t,
    Parser.parse Examples.pen_up_clear = Some (Ok commands)
    /\ length Examples.pen_up_clear
       = sum_list (Grammar.arity ∘ Command.command_type <$> commands).
Proof.
  eexists. split; [vm_compute; reflexivity|].
  apply (proj2 commands_take_fixed_numbers_of_tokens).
  - repeat constructor; discriminate.
  - vm_compute. reflexivity.
Defined.

(** X7.  Every command that [parse] returns carries the line and the
    column of its first token, a [KEYWORD]; that token stands in the token
    list behind the tokens of the commands before it. *)
Theorem commands_carry_the_position_of_their_keyword
    (tokens : list Token.t) (commands : list Command.t) :
  Parser.parse tokens = Some (Ok commands) ->
  forall (k : nat) (c : Command.t),
    commands !! k = Some c ->
    exists kw : Token.t,
      tokens !! sum_list (Grammar.arity ∘ Command.command_type
                            <$> take k commands) = Some kw
      /\ Token.type kw = KEYWORD
      /\ Command.line c = Token.line kw /\ Command.col c = Token.col kw.
Proof.
  intros H.
  apply GrammarFacts.par_parse_grammar in H as (groups & rest & -> & Fd & _).
  induction Fd as [|g c0 groups new D F IH]; intros k c Hk; [done|].
  destruct k as [|k]; simpl in *.
  - injection Hk as ->.
    destruct (GrammarFacts.par_derives_position g c D)
      as (kw & r & -> & Ty & Ln & Cl).
    by exists kw.
  - destruct (IH k c Hk) as (kw & L & Rest). exists kw. split; [|done].
    rewrite <- app_assoc, lookup_app_r;
      rewrite (GrammarFacts.par_derives_arity g c0 D); [|lia].
    rewrite <- L. f_equal. unfold fmap. lia.
Qed.

Lemma commands_carry_the_position_of_their_keyword_witness :
  exists kw : Token.t,
    Examples.pen_up_clear !! 2%nat = Some kw
    /\ Token.type kw = KEYWORD
    /\ 2%Z = Token.line kw /\ 0%Z = Token.col kw.
Proof.
  apply (commands_carry_the_position_of_their_keyword Examples.pen_up_clear
           [Command.mk PEN_UP ∅ 1 0; Command.mk CLEAR ∅ 2 0]
           ltac:(vm_compute; reflexivity) 1%nat (Command.mk CLEAR ∅ 2 0)
           eq_refl).
Defined.

(** X8.  The parameters of a command that [parse] returns are the fields
    of its type, no more and no less, each a [float], and for a colour the
    name, a [str]. *)
Theorem parsed_commands_have_their_fields (tokens : list Token.t)
    (commands : list Command.t) :
  Parser.parse tokens = Some (Ok commands) ->
  Forall Shape.well_formed commands.
Proof.
  intros H. eapply Forall_impl; [exact (GrammarFacts.par_parse_derives _ _ H)|].
  intros c [group D]. by apply (GrammarFacts.par_derives_well_formed group).
Qed.

Lemma parsed_commands_have_their_fields_witness :
  exists commands : list Command.t,
    Parser.parse Examples.draw_circle_1_2_3 = Some (Ok commands)
    /\ Forall Shape.well_formed commands.
Proof.
  eexists. split; [vm_compute; reflexivity|].
  apply (parsed_commands_have_their_fields Examples.draw_circle_1_2_3).
  vm_compute. reflexivity.
Defined.

(** X9.  The commands of two token lists put together are the commands of
    the first, which has no [EOF] token and parses, followed by those of
    the second; if the second fails, the whole fails with the same
    error. *)
Theorem parse_of_a_concatenation (first second : list Token.t)
    (commands : list Command.t) :
  Forall (fun tok => Token.type tok <> EOF) first ->
  Parser.parse first = Some (Ok commands) ->
  Parser.parse (first ++ second)
  = match Parser.parse second with
    | Some (Ok commands') => Some (Ok (commands ++ commands')%list)
    | other => other
    end.
Proof.
  intros F H.
  apply GrammarFacts.par_parse_grammar in H as (groups & rest & -> & Fd & En).
  rewrite (GrammarFacts.par_ended_nil _ _ F En), app_nil_r in *. clear En F.
  set (tokens := (concat groups ++ second)%list).
  unfold Parser.parse.
  rewrite (ParserFacts.par_parse_loop_budget (length tokens)
             (length groups + length tokens) [] (Parser.init tokens)
             (ParserFacts.par_init_wf _)) by (simpl; lia).
  destruct (GrammarFacts.par_parse_loop_prefix groups commands Fd
              (length tokens) [] (Parser.init tokens) second
              (ParserFacts.par_init_wf _) (GrammarFacts.par_rest_init _))
    as (self' & W' & R' & ->).
  simpl.
  rewrite (GrammarFacts.par_parse_loop_similar _ _ self' (Parser.init second))
    by (split; [done|]; split; [apply ParserFacts.par_init_wf|done]).
  rewrite <- (app_nil_r commands) at 1.
  rewrite GrammarFacts.par_parse_loop_acc.
  rewrite (ParserFacts.par_parse_loop_budget (length tokens) (length second)
             [] (Parser.init second) (ParserFacts.par_init_wf _));
    [|simpl; unfold tokens; rewrite length_app; lia|simpl; lia].
  by destruct (Parser.parse_loop _ _ _) as [[?|?]|].
Qed.

Lemma parse_of_a_concatenation_witness :
  Parser.parse (Examples.pen_up_clear ++ Examples.draw_line_1_2_3)
  = match Parser.parse Examples.draw_line_1_2_3 with
    | Some (Ok commands') =>
        Some (Ok ([Command.mk PEN_UP ∅ 1 0; Command.mk CLEAR ∅ 2 0]
                  ++ commands')%list)
    | other => other
    end.
Proof.
  apply parse_of_a_concatenation.
  - repeat constructor; discriminate.
  - vm_compute. reflexivity.
Defined.

(** X10.  The command loop drops the [EOF] token before it parses.  For
    tokens as [tokenize] returns them, the list with the [EOF] token and
    the list without it give the same commands: one parses if and only if
    the other does. *)
Theorem dropping_the_eof_token_keeps_the_commands
    (front : list Token.t) (eof : Token.t) (commands : list Command.t) :
  Forall (fun tok => Token.type tok <> EOF) front ->
  Token.type eof = EOF -> Token.value eof = "" ->
  Interpreter.strip_eof (front ++ [eof]) = front
  /\ (Parser.parse (front ++ [eof]) = Some (Ok commands)
      <-> Parser.parse (Interpreter.strip_eof (front ++ [eof]))
          = Some (Ok commands)).
Proof.
  intros F Ty V.
  assert (S : Interpreter.strip_eof (front ++ [eof]) = front).
  { unfold Interpreter.strip_eof. rewrite filter_app.
    rewrite filter_cons_False by (by intros N; apply N).
    rewrite filter_nil, app_nil_r.
    clear Ty V. induction F as [|tok l Htok F IH]; [done|].
    by rewrite filter_cons_True, IH. }
  split; [exact S|]. rewrite S. by apply GrammarFacts.par_parse_with_eof.
Qed.

Lemma dropping_the_eof_token_keeps_the_commands_witness :
  Interpreter.strip_eof (Examples.pen_up_clear ++ [Samples.eof])
  = Examples.pen_up_clear
  /\ (Parser.parse (Examples.pen_up_clear ++ [Samples.eof])
      = Some (Ok [Command.mk PEN_UP ∅ 1 0; Command.mk CLEAR ∅ 2 0])
      <-> Parser.parse
            (Interpreter.strip_eof (Examples.pen_up_clear ++ [Samples.eof]))
          = Some (Ok [Command.mk PEN_UP ∅ 1 0; Command.mk CLEAR ∅ 2 0])).
Proof.
  apply dropping_the_eof_token_keeps_the_commands.
  - repeat constructor; discriminate.
  - reflexivity.
  - reflexivity.
Defined.

(** X11.  A command that [parse] returns makes [execute] fault only in
    [int], on an infinite number or a NaN: no parameter is missing or of
    the wrong type. *)
Theorem parsed_commands_fault_only_in_int (tokens : list Token.t)
    (commands : list Command.t) :
  Parser.parse tokens = Some (Ok commands) ->
  Forall
    (fun c =>
       forall self : DrawingExecutor.t,
         Faults.guarded (DrawingExecutor.execute_body self c))
    commands.
Proof.
  intros H. eapply Forall_impl; [exact (GrammarFacts.par_parse_derives _ _ H)|].
  intros c [group D] self. exact (FaultFacts.par_derives_faults group c self D).
Qed.

Lemma parsed_commands_fault_only_in_int_witness :
  exists commands : list Command.t,
    Parser.parse Examples.draw_circle_1_2_3 = Some (Ok commands)
    /\ Forall
         (fun c =>
            forall self : DrawingExecutor.t,
              Faults.guarded (DrawingExecutor.execute_body self c))
         commands.
Proof.
  eexists. split; [vm_compute; reflexivity|].
  apply (parsed_commands_fault_only_in_int Examples.draw_circle_1_2_3).
  vm_compute. reflexivity.
Defined.

(** ** From the text to the executor *)

(** X12.  The numbers of the commands of a text, tokenized and parsed as
    the command loop does, are never negative and never a NaN: such a
    command faults only on an infinite number, and every coordinate that
    [int] hands to the canvas and to the pen is zero or more. *)
Theorem programs_have_unsigned_numbers (source : string)
    (tokens : list Token.t) (commands : list Command.t) :
  Lexer.tokenize source = Some (Ok tokens) ->
  Parser.parse (Interpreter.strip_eof tokens) = Some (Ok commands) ->
  Forall Unsigned.plain commands.
Proof.
  intros Ht Hp. pose proof (PipelineFacts.tokenize_spans _ _ Ht) as Sp.
  rewrite Forall_forall in Sp.
  eapply Forall_impl; [exact (GrammarFacts.par_parse_numbers _ _ Hp)|].
  simpl. intros c [Wf Hn].
  assert (U : forall key f,
            Command.params c !! key = Some (PyFloat f) -> Unsigned.unsigned f).
  { intros key f Hv. destruct (Hn key f Hv) as (t & In & Ty & Fl).
    unfold Interpreter.strip_eof in In.
    apply list_elem_of_filter in In as [_ In].
    destruct (Sp t In) as (s & q & _ & Lx & _).
    by apply (FloatFacts.number_lexeme_float _ _ _ Lx Ty). }
  split; [exact U|]. intros self. by apply PipelineFacts.unsigned_command_runs.
Qed.

Lemma programs_have_unsigned_numbers_witness :
  exists (tokens : list Token.t) (commands : list Command.t),
    Lexer.tokenize Samples.mixed = Some (Ok tokens)
    /\ Parser.parse (Interpreter.strip_eof tokens) = Some (Ok commands)
    /\ Forall Unsigned.plain commands.
Proof.
  do 2 eexists. split; [vm_compute; reflexivity|].
  split; [vm_compute; reflexivity|].
  eapply (programs_have_unsigned_numbers Samples.mixed);
    [vm_compute; reflexivity|vm_compute; reflexivity].
Defined.

(** ** The executor *)

(** X13.  [execute] changes only what the command is about: never the
    width or the height, the colour only for [SET_COLOR], the state of the
    pen only for [PEN_UP] and [PEN_DOWN]; the record of the canvas only
    grows, by [delete] for [CLEAR], by at most one call for a shape or a
    move, by nothing for the other commands. *)
Theorem execute_frame (self : DrawingExecutor.t) (command : Command.t) :
  let self' := (DrawingExecutor.execute self command).1 in
  DrawingExecutor.width self' = DrawingExecutor.width self
  /\ DrawingExecutor.height self' = DrawingExecutor.height self
  /\ (Command.command_type command <> SET_COLOR ->
      DrawingExecutor.current_color self' = DrawingExecutor.current_color self)
  /\ (Command.command_type command <> PEN_UP ->
      Command.command_type command <> PEN_DOWN ->
      DrawingExecutor.pen_down self' = DrawingExecutor.pen_down self)
  /\ match Command.command_type command with
     | SET_COLOR | PEN_UP | PEN_DOWN | FILL =>
         DrawingExecutor.canvas self' = DrawingExecutor.canvas self
     | CLEAR =>
         DrawingExecutor.canvas self'
         = (DrawingExecutor.canvas self ++ [delete_all])%list
     | DRAW_LINE | DRAW_CIRCLE | DRAW_RECTANGLE | MOVE =>
         exists calls : list canvas_call,
           DrawingExecutor.canvas self'
           = (DrawingExecutor.canvas self ++ calls)%list
           /\ (length calls <= 1)%nat
     end.
Proof.
  unfold DrawingExecutor.execute.
  destruct (DrawingExecutor.execute_body self command) as [[self' msg]|e] eqn:H;
    simpl.
  - unfold DrawingExecutor.execute_body in H.
    destruct (Command.command_type command); FrameFacts.run H;
      destruct (DrawingExecutor.fill_mode self) eqn:Ef,
               (DrawingExecutor.pen_down self) eqn:Ep;
      simpl; rewrite ?Ep; simpl;
      repeat split; try done;
      first [ eexists [_]; split; [reflexivity|simpl; lia]
            | exists []; split; [by rewrite app_nil_r|simpl; lia] ].
  - unfold DrawingExecutor.execute_body in H.
    destruct (Command.command_type command);
      repeat split; try done; try discriminate H;
      (exists []; split; [by rewrite app_nil_r|simpl; lia]).
Qed.

(** X14.  From a new executor, after any commands, the current colour is
    a value of the colour table, and so is the colour of every line, oval
    and rectangle put on the canvas. *)
Theorem colours_come_from_the_table (surface : list canvas_call)
    (width height : Z) (out : list string) (i : Z)
    (commands : list Command.t) :
  let app :=
    Interpreter.execute_all
      (Interpreter.mk (DrawingExecutor.init surface width height) out)
      i commands in
  Frame.table_color (DrawingExecutor.current_color (Interpreter.executor app))
  /\ exists calls : list canvas_call,
       DrawingExecutor.canvas (Interpreter.executor app)
       = (surface ++ calls)%list
       /\ Forall
            (fun c => forall s, Frame.stroke c = Some s -> Frame.table_color s)
            calls.
Proof.
  apply (FrameFacts.execute_all_table_color
           (Interpreter.mk (DrawingExecutor.init surface width height) out)).
  by exists "black".
Qed.

(** X15.  A line, a circle or a rectangle is drawn whether the pen is up
    or down: the state of the pen changes neither the call on the canvas
    nor the message; only the position of the pen depends on it.  A shape
    that executes without a fault puts exactly one call on the canvas. *)
Theorem shapes_ignore_the_pen (self : DrawingExecutor.t)
    (command : Command.t) (down : bool) :
  Command.command_type command ∈ [DRAW_LINE; DRAW_CIRCLE; DRAW_RECTANGLE] ->
  DrawingExecutor.canvas
    (DrawingExecutor.execute (DrawingExecutor.set_pen_down self down)
       command).1
  = DrawingExecutor.canvas (DrawingExecutor.execute self command).1
  /\ (DrawingExecutor.execute (DrawingExecutor.set_pen_down self down)
        command).2
     = (DrawingExecutor.execute self command).2
  /\ (Spec.faultless self command ->
      exists call : canvas_call,
        DrawingExecutor.canvas (DrawingExecutor.execute self command).1
        = (DrawingExecutor.canvas self ++ [call])%list
        /\ call <> delete_all).
Proof.
  intros Ty.
  unfold Spec.faultless, DrawingExecutor.execute, DrawingExecutor.execute_body.
  repeat (apply elem_of_cons in Ty as [->|Ty]);
    [| | |by apply elem_of_nil in Ty];
    unfold DrawingExecutor.execute_draw_line,
      DrawingExecutor.execute_draw_circle,
      DrawingExecutor.execute_draw_rectangle;
    repeat match goal with
    | |- context [DrawingExecutor.int_param ?p ?k ?d] =>
        destruct (DrawingExecutor.int_param p k d); simpl
    end;
    repeat split; try (intros [r Hr]; discriminate Hr);
    destruct (DrawingExecutor.fill_mode self) eqn:Ef,
             (DrawingExecutor.pen_down self) eqn:Ep, down;
    simpl; rewrite ?Ef, ?Ep; simpl; try done;
    intros _; eexists; (split; [reflexivity|done]).
Qed.

Lemma shapes_ignore_the_pen_witness :
  DrawingExecutor.canvas
    (DrawingExecutor.execute
       (DrawingExecutor.set_pen_down Examples.fresh false)
       Samples.line_1_2_3_4).1
  = DrawingExecutor.canvas
      (DrawingExecutor.execute Examples.fresh Samples.line_1_2_3_4).1
  /\ (DrawingExecutor.execute
        (DrawingExecutor.set_pen_down Examples.fresh false)
        Samples.line_1_2_3_4).2
     = (DrawingExecutor.execute Examples.fresh Samples.line_1_2_3_4).2
  /\ (Spec.faultless Examples.fresh Samples.line_1_2_3_4 ->
      exists call : canvas_call,
        DrawingExecutor.canvas
          (DrawingExecutor.execute Examples.fresh Samples.line_1_2_3_4).1
        = (DrawingExecutor.canvas Examples.fresh ++ [call])%list
        /\ call <> delete_all).
Proof.
  apply shapes_ignore_the_pen. apply elem_of_cons. by left.
Defined.

(** X16.  The message of [execute] starts with [Error] exactly when the
    command had no effect: when the body of the [try] raised, or when the
    type of the command is not one of the eight; the executor is then as
    it was.  No message of a command that was executed starts so. *)
Theorem error_result_means_no_effect (self : DrawingExecutor.t)
    (command : Command.t) :
  if String.prefix "Error" (DrawingExecutor.execute self command).2
  then (DrawingExecutor.execute self command).1 = self
       /\ (Spec.faultless self command -> Command.command_type command = FILL)
  else Spec.faultless self command /\ Command.command_type command <> FILL.
Proof.
  unfold Spec.faultless, DrawingExecutor.execute.
  destruct (DrawingExecutor.execute_body self command) as [[self' msg]|e] eqn:H;
    simpl.
  - unfold DrawingExecutor.execute_body in H.
    destruct (Command.command_type command) eqn:Ty; FrameFacts.run H; simpl;
      (split; [by eexists|done]) || (split; [done|done]).
  - split; [done|]. by intros [r Hr].
Qed.

(** X17.  With the pen down, moves that execute without a fault draw a
    connected path: each line starts where the pen was and ends at the
    target of the move, which is where the next line starts; the pen ends
    at the last target. *)
Theorem moves_draw_a_connected_path (app : Interpreter.t) (i : Z)
    (commands : list Command.t) (points : list (Z * Z)) :
  DrawingExecutor.pen_down (Interpreter.executor app) = true ->
  Forall2
    (fun c p =>
       Command.command_type c = MOVE /\ Spec.terminal_point c = Some p)
    commands points ->
  let app' := Interpreter.execute_all app i commands in
  DrawingExecutor.canvas (Interpreter.executor app')
  = (DrawingExecutor.canvas (Interpreter.executor app)
     ++ Frame.segments (Spec.pen (Interpreter.executor app)) points
          (DrawingExecutor.current_color (Interpreter.executor app)))%list
  /\ Spec.pen (Interpreter.executor app')
     = default (Spec.pen (Interpreter.executor app)) (last points)
  /\ DrawingExecutor.pen_down (Interpreter.executor app') = true.
Proof.
  intros D F. unfold Spec.pen. revert app i D.
  induction F as [|c [x y] cs ps [Ty Tp] F IH]; intros app i D.
  - simpl. by rewrite app_nil_r.
  - rewrite FrameFacts.execute_all_cons.
    pose proof (FrameFacts.execute_move_to (Interpreter.executor app) c x y
                  Ty Tp) as E.
    rewrite D in E.
    match goal with
    | |- context [Interpreter.execute_all ?a _ cs] =>
        destruct (IH a (i + 1)%Z) as (Hc & Hp & Hd)
    end.
    { simpl. by rewrite E. }
    split; [|split; [|exact Hd]].
    + rewrite Hc. simpl. rewrite E. simpl. by rewrite <- app_assoc.
    + rewrite Hp. simpl. rewrite E. rewrite last_cons. by destruct (last ps).
Qed.

Lemma moves_draw_a_connected_path_witness :
  let app' :=
    Interpreter.execute_all Examples.app 1
      [Examples.move_to Examples.ten Examples.ten;
       Examples.move_to Samples.one Samples.two] in
  DrawingExecutor.canvas (Interpreter.executor app')
  = (DrawingExecutor.canvas (Interpreter.executor Examples.app)
     ++ Frame.segments (Spec.pen (Interpreter.executor Examples.app))
          [(10, 10); (1, 2)]%Z
          (DrawingExecutor.current_color (Interpreter.executor Examples.app)))%list
  /\ Spec.pen (Interpreter.executor app')
     = default (Spec.pen (Interpreter.executor Examples.app))
         (last [(10, 10); (1, 2)]%Z)
  /\ DrawingExecutor.pen_down (Interpreter.executor app') = true.
Proof.
  apply moves_draw_a_connected_path; [reflexivity|].
  repeat constructor.
Defined.

(** ** The command loop *)

(** X18.  The loop over the commands leaves the executor that the calls
    of [execute], one after the other, lead to, and adds to the output one
    line for each command, numbered from the start: the number in
    brackets and the message of [execute] in the state that the commands
    before have left. *)
Theorem command_loop_is_a_fold (app : Interpreter.t) (i : Z)
    (commands : list Command.t) :
  let app' := Interpreter.execute_all app i commands in
  Interpreter.executor app'
  = Frame.state_after (Interpreter.executor app) commands
  /\ Interpreter.output app'
     = (Interpreter.output app
        ++ imap
             (fun k c =>
                "[" ++ Py.str_int (i + Z.of_nat k) ++ "] "
                ++ (DrawingExecutor.execute
                      (Frame.state_after (Interpreter.executor app)
                         (take k commands)) c).2)%string
             commands)%list.
Proof.
  revert app i. induction commands as [|c cs IH]; intros app i.
  - simpl. by rewrite app_nil_r.
  - rewrite FrameFacts.execute_all_cons.
    match goal with
    | |- context [Interpreter.execute_all ?a _ cs] =>
        destruct (IH a (i + 1)%Z) as [He Ho]
    end.
    split; [exact He|].
    rewrite Ho. simpl. rewrite <- app_assoc. simpl.
    f_equal. f_equal; [by rewrite Z.add_0_r|].
    apply imap_ext. intros k c' _. simpl.
    by replace (i + 1 + Z.of_nat k)%Z with (i + Z.of_nat (S k))%Z by lia.
Qed.

(** ** The application *)

(** X19.  A text of white space only, or no text at all, runs nothing: the
    output, which is not cleared, gets the line [No commands to execute],
    and the executor stays as it is. *)
Theorem blank_input_runs_nothing (app : Interpreter.t) (input_text : string) :
  Forall (fun c => Py.isspace c = true) (list_ascii_of_string input_text) ->
  Interpreter.execute_commands app input_text
  = Some (Interpreter.mk (Interpreter.executor app)
            (Interpreter.output app ++ ["No commands to execute"])).
Proof.
  intros F. unfold Interpreter.execute_commands.
  by rewrite (SessionFacts.strip_spaces _ F).
Qed.

Lemma blank_input_runs_nothing_witness :
  Interpreter.execute_commands Examples.app Samples.blanks
  = Some (Interpreter.mk (Interpreter.executor Examples.app)
            (Interpreter.output Examples.app ++ ["No commands to execute"])).
Proof.
  apply blank_input_runs_nothing. repeat constructor.
Defined.

(** X20.  [execute_commands] ends for every text, in one of four ways: the
    text is blank; it has no token but [EOF]; the lexer or the parser
    raises, and the output is the three opening lines and the error; or
    the text parses, and its commands are executed.  The executor changes
    in the last case only: a text with an error anywhere draws nothing,
    not even the commands before the error. *)
Theorem execute_commands_outcomes (app : Interpreter.t) (input_text : string) :
  exists app' : Interpreter.t,
    Interpreter.execute_commands app input_text = Some app'
    /\ (app' = Interpreter.append_output app "No commands to execute"
        \/ app' = Interpreter.mk (Interpreter.executor app)
                    (Session.header ++ ["No valid tokens found"])
        \/ (exists e : string,
              app' = Interpreter.mk (Interpreter.executor app)
                       (Session.header ++ [("Error: " ++ e)%string])
              /\ (Lexer.tokenize (Interpreter.strip input_text)
                  = Some (Raise e)
                  \/ exists tokens,
                       Lexer.tokenize (Interpreter.strip input_text)
                       = Some (Ok tokens)
                       /\ Parser.parse (Interpreter.strip_eof tokens)
                          = Some (Raise e)))
        \/ (exists tokens commands,
              Lexer.tokenize (Interpreter.strip input_text) = Some (Ok tokens)
              /\ Parser.parse (Interpreter.strip_eof tokens)
                 = Some (Ok commands)
              /\ app' = Session.ran app commands)).
Proof. apply SessionFacts.execute_commands_cases. Qed.
